(** * AIS collector: a shallow embedding of [ais_collector.py]

    The development follows the ingestion loop of the collector: the
    timestamp parser, the region check, the identity cache, the per-message
    handlers, the batch flush and the start-up sequence.  Python values are
    modelled with the types the feed gives them: identifiers ([MMSI], IMO
    numbers), counters and dimensions are [Z]; JSON numbers that are only
    carried along (coordinates, speed, draught) and clock readings are
    rationals [Q]; the text of a timestamp, which the parser inspects, is
    the sequence of its code points ([Timestamp.text]); names and
    destinations, which are only carried along, are [string]s; [None] is
    [option]'s [None]; dictionaries are [gmap]s and sets are [gset]s.  A
    Python exception is the [Raise] case of [result]. *)

From Stdlib Require Import ZArith QArith Ascii String Permutation.
From stdpp Require Import base gmap sets list strings.

Local Open Scope Z_scope.

(** ** Exceptions *)

(** The exception classes the collector distinguishes. *)
Inductive exn : Type :=
  | ValueError
  | Psycopg2Error (operational : bool)
  | OtherException.

Inductive result (A : Type) : Type :=
  | Ok (a : A)
  | Raise (e : exn).
Arguments Ok {A} a.
Arguments Raise {A} e.

Definition is_Ok {A} (r : result A) : bool :=
  match r with Ok _ => true | Raise _ => false end.

(** ** TimestampNormalizer: [parse_timestamp] *)

Module Timestamp.

(** A Python [str]: the sequence of its code points. *)
Definition text : Type := list N.

Definition chr (a : ascii) : N := N_of_ascii a.

(** The text of a literal of this development, whose characters are below
    256. *)
Definition str (s : string) : text := map chr (list_ascii_of_string s).

(** The digit zero of each run of ten decimal digits (general category
    [Nd]) of the Unicode character database, version 14.0: ASCII,
    Arabic-Indic, ..., full-width, the mathematical styles, and so on.  A
    later version of the database adds runs to this list. *)
Definition decimal_zeros : list N :=
  [48; 1632; 1776; 1984; 2406; 2534; 2662; 2790; 2918; 3046; 3174; 3302;
   3430; 3558; 3664; 3792; 3872; 4160; 4240; 6112; 6160; 6470; 6608; 6784;
   6800; 6992; 7088; 7232; 7248; 42528; 43216; 43264; 43472; 43504; 43600;
   44016; 65296; 66720; 68912; 69734; 69872; 69942; 70096; 70384; 70736;
   70864; 71248; 71360; 71472; 71904; 72016; 72784; 73040; 73120; 92768;
   92864; 93008; 120782; 120792; 120802; 120812; 120822; 123200; 123632;
   125264; 130032]%N.

(** [unicodedata.decimal(c)]: the value of [c] as a decimal digit.  The
    characters that have one are those [\d] matches in a [str] pattern and
    those [int] reads. *)
Definition decimal (c : N) : option Z :=
  match find (fun zero => (zero <=? c)%N && (c <? zero + 10)%N) decimal_zeros with
  | Some zero => Some (Z.of_N (c - zero))
  | None => None
  end.

Definition is_digit (c : N) : bool :=
  match decimal c with Some _ => true | None => false end.

(** The white-space characters of Unicode: what [\s] matches in a [str]
    pattern. *)
Definition whitespace : list N :=
  [9; 10; 11; 12; 13; 28; 29; 30; 31; 32; 133; 160; 5760; 8192; 8193; 8194;
   8195; 8196; 8197; 8198; 8199; 8200; 8201; 8202; 8232; 8233; 8239; 8287;
   12288]%N.

Definition is_space (c : N) : bool := existsb (N.eqb c) whitespace.

Definition digit_val (c : N) : Z := default 0 (decimal c).

(** [int(s)] on a text of decimal digits. *)
Definition int_of_digits (s : text) : Z :=
  fold_left (fun acc c => 10 * acc + digit_val c) s 0.

(** [timestamp_str.replace(" UTC", "")]: every occurrence, left to right. *)
Fixpoint replace_UTC (s : text) : text :=
  match s with
  | [] => []
  | c1 :: r1 =>
      match r1 with
      | c2 :: c3 :: c4 :: r4 =>
          if (c1 =? chr " ")%N && (c2 =? chr "U")%N && (c3 =? chr "T")%N
             && (c4 =? chr "C")%N
          then replace_UTC r4
          else c1 :: replace_UTC r1
      | _ => c1 :: replace_UTC r1
      end
  end.

(** One-character items of a regular expression. *)
Inductive cclass : Type :=
  | D                        (* \d *)
  | Sp                       (* \s *)
  | Lit (c : ascii)          (* a literal character *)
  | Range (lo hi : ascii)    (* [lo-hi] *)
  | AnyOf (cs : string).     (* [...], a set of literal characters *)

Definition cclass_matches (k : cclass) (c : N) : bool :=
  match k with
  | D => is_digit c
  | Sp => is_space c
  | Lit l => (chr l =? c)%N
  | Range lo hi => (chr lo <=? c)%N && (c <=? chr hi)%N
  | AnyOf cs => existsb (N.eqb c) (str cs)
  end.

(** Match a sequence of one-character items at the head of [s]; the result
    is the matched text and the rest. *)
Fixpoint match_classes (p : list cclass) (s : text) : option (text * text) :=
  match p with
  | [] => Some ([], s)
  | k :: p' =>
      match s with
      | [] => None
      | c :: s' =>
          if cclass_matches k c then
            match match_classes p' s' with
            | Some (m, r) => Some (c :: m, r)
            | None => None
            end
          else None
      end
  end.

(** A greedy repetition [k{lo,}] of a one-character item, of at most [n]
    characters, followed by the rest of the pattern, [rest], which is given
    the matched text and what follows it: the longest run is tried first,
    then each shorter one, as the backtracking matcher does.  [m] is the
    run matched so far. *)
Fixpoint greedy {A} (k : cclass) (lo n : nat) (m s : text)
    (rest : text -> text -> option A) : option A :=
  let stop := if (lo <=? List.length m)%nat then rest m s else None in
  match n, s with
  | S n', c :: s' =>
      if cclass_matches k c then
        match greedy k lo n' (m ++ [c]) s' rest with
        | Some a => Some a
        | None => stop
        end
      else stop
  | _, _ => stop
  end.

(** An alternation [p1|p2|...] of sequences of one-character items followed
    by the rest of the pattern: the first alternative after which the rest
    matches. *)
Fixpoint first_match {A} (alts : list (list cclass)) (s : text)
    (rest : text -> text -> option A) : option A :=
  match alts with
  | [] => None
  | p :: alts' =>
      match match_classes p s with
      | Some (m, r) =>
          match rest m r with
          | Some a => Some a
          | None => first_match alts' s rest
          end
      | None => first_match alts' s rest
      end
  end.

(** [\d{4}-\d{2}-\d{2} \d{2}:\d{2}:\d{2}] *)
Definition date_time_classes : list cclass :=
  [D; D; D; D; Lit "-"; D; D; Lit "-"; D; D; Lit " ";
   D; D; Lit ":"; D; D; Lit ":"; D; D].

(** [\+\d{4}] *)
Definition tz_classes : list cclass := [Lit "+"; D; D; D; D].

Definition newline : N := 10%N.

(** [$] without [re.MULTILINE]: the end of the text, or just before a
    newline that ends it. *)
Definition at_end (s : text) : bool :=
  match s with
  | [] => true
  | [c] => (c =? newline)%N
  | _ => false
  end.

(** [re.match(pattern, ts)] for
    [^(\d{4}-\d{2}-\d{2} \d{2}:\d{2}:\d{2})\.(\d+)\s(\+\d{4})$];
    the result holds groups 1, 2 and 3. *)
Definition re_match (ts : text) : option (text * text * text) :=
  match match_classes date_time_classes ts with
  | None => None
  | Some (g1, r1) =>
      match match_classes [Lit "."] r1 with
      | None => None
      | Some (_, r2) =>
          greedy D 1 (List.length r2) [] r2 (fun g2 r3 =>
            match match_classes [Sp] r3 with
            | None => None
            | Some (_, r4) =>
                match match_classes tz_classes r4 with
                | None => None
                | Some (g3, r5) =>
                    if at_end r5 then Some (g1, g2, g3) else None
                end
            end)
      end
  end.

(** A timezone-aware [datetime]; [utcoffset] is in seconds. *)
Record datetime : Type := mk_datetime {
  year : Z; month : Z; day : Z;
  hour : Z; minute : Z; second : Z;
  microsecond : Z;
  utcoffset : Z
}.

Definition is_leap (y : Z) : bool :=
  ((y mod 4 =? 0) && negb (y mod 100 =? 0)) || (y mod 400 =? 0).

Definition days_in_month (y m : Z) : Z :=
  if m =? 2 then (if is_leap y then 29 else 28)
  else if (m =? 4) || (m =? 6) || (m =? 9) || (m =? 11) then 30
  else 31.

(** The regular expressions [strptime] has for the directives of the
    format, as alternatives of one-character items. *)

(** [%Y]: [\d\d\d\d] *)
Definition directive_Y : list (list cclass) := [[D; D; D; D]].

(** [%m]: [1[0-2]|0[1-9]|[1-9]] *)
Definition directive_m : list (list cclass) :=
  [[Lit "1"; Range "0" "2"]; [Lit "0"; Range "1" "9"]; [Range "1" "9"]].

(** [%d]: [3[0-1]|[1-2]\d|0[1-9]|[1-9]| [1-9]] *)
Definition directive_d : list (list cclass) :=
  [[Lit "3"; Range "0" "1"]; [Range "1" "2"; D]; [Lit "0"; Range "1" "9"];
   [Range "1" "9"]; [Lit " "; Range "1" "9"]].

(** [%H]: [2[0-3]|[0-1]\d|\d] *)
Definition directive_H : list (list cclass) :=
  [[Lit "2"; Range "0" "3"]; [Range "0" "1"; D]; [D]].

(** [%M]: [[0-5]\d|\d] *)
Definition directive_M : list (list cclass) := [[Range "0" "5"; D]; [D]].

(** [%S]: [6[0-1]|[0-5]\d|\d] *)
Definition directive_S : list (list cclass) :=
  [[Lit "6"; Range "0" "1"]; [Range "0" "5"; D]; [D]].

(** [%z], as far as a text that ends after four digits can match it:
    [[+-]\d\d:?[0-5]\d], without the colon; the seconds that may follow and
    the letter Z are left out. *)
Definition directive_z : list (list cclass) :=
  [[AnyOf "+-"; D; D; Range "0" "5"; D]].

(** The groups of a match of the format. *)
Record groups : Type := mk_groups {
  g_Y : text; g_m : text; g_d : text;
  g_H : text; g_M : text; g_S : text;
  g_f : text; g_z : text
}.

(** The match of the regular expression made from the format
    ["%Y-%m-%d %H:%M:%S.%f%z"]: the directives, the literal characters
    between them, [\s+] for the blank of the format and [[0-9]{1,6}] for
    [%f].  The result is the groups and the text left over. *)
Definition format_match (s : text) : option (groups * text) :=
  first_match directive_Y s (fun Y s =>
  first_match [[Lit "-"]] s (fun _ s =>
  first_match directive_m s (fun m s =>
  first_match [[Lit "-"]] s (fun _ s =>
  first_match directive_d s (fun d s =>
  greedy Sp 1 (List.length s) [] s (fun _ s =>
  first_match directive_H s (fun H s =>
  first_match [[Lit ":"]] s (fun _ s =>
  first_match directive_M s (fun M s =>
  first_match [[Lit ":"]] s (fun _ s =>
  first_match directive_S s (fun S s =>
  first_match [[Lit "."]] s (fun _ s =>
  greedy (Range "0" "9") 1 6 [] s (fun f s =>
  first_match directive_z s (fun z s =>
  Some (mk_groups Y m d H M S f z, s))))))))))))))).

(** [datetime.strptime(s, "%Y-%m-%d %H:%M:%S.%f%z")].  Every failure is a
    [ValueError]: no match of the format, text left over after the match,
    a date that does not exist (year 0, a day past the end of the month),
    a second above 59, an offset of 24 hours or more. *)
Definition strptime (s : text) : result datetime :=
  match format_match s with
  | None => Raise ValueError
  | Some (g, left_over) =>
      let y := int_of_digits (g_Y g) in
      let mo := int_of_digits (g_m g) in
      let d := int_of_digits (g_d g) in
      let h := int_of_digits (g_H g) in
      let mi := int_of_digits (g_M g) in
      let sec := int_of_digits (g_S g) in
      (* s += "0" * (6 - len(s)); fraction = int(s) *)
      let fraction :=
        int_of_digits (g_f g ++ replicate (6 - List.length (g_f g)) (chr "0")) in
      (* hours = int(z[1:3]); minutes = int(z[3:5]) *)
      let hours := int_of_digits (take 2 (drop 1 (g_z g))) in
      let minutes := int_of_digits (take 2 (drop 3 (g_z g))) in
      let gmtoff := hours * 3600 + minutes * 60 in
      let gmtoff := if match g_z g with
                       | c :: _ => (c =? chr "-")%N
                       | [] => false
                       end
                    then - gmtoff else gmtoff in
      if match left_over with [] => true | _ => false end
         && (1 <=? y) && (y <=? 9999) && (1 <=? mo) && (mo <=? 12)
         && (1 <=? d) && (d <=? days_in_month y mo)
         && (h <=? 23) && (mi <=? 59) && (sec <=? 59)
         && (-86400 <? gmtoff) && (gmtoff <? 86400)
      then Ok (mk_datetime y mo d h mi sec fraction gmtoff)
      else Raise ValueError
  end.

Definition parse_timestamp (timestamp_str : text) : result datetime :=
  let ts := replace_UTC timestamp_str in
  match re_match ts with
  | None => Raise ValueError
  | Some (date_time_part, g2, tz_part) =>
      let fraction_part := take 6 g2 in
      let new_timestamp_str :=
        date_time_part ++ str "." ++ fraction_part ++ tz_part in
      strptime new_timestamp_str
  end.

(** The shape the specification names,
    ["YYYY-MM-DD HH:MM:SS.<fractional> +HHMM UTC"], as a check of its own,
    with the digits 0 to 9: the date and time, a dot, one digit or more,
    one blank, the offset, and the marker [" UTC"] closing the text. *)
Definition ascii_digits (p : list cclass) : list cclass :=
  map (fun k => match k with D => Range "0" "9" | _ => k end) p.

Definition exact_shape (s : text) : bool :=
  match match_classes (ascii_digits date_time_classes ++ [Lit "."]) s with
  | None => false
  | Some (_, r1) =>
      match greedy (Range "0" "9") 1 (List.length r1) [] r1 (fun _ r2 =>
              match match_classes
                      (Lit " " :: ascii_digits tz_classes
                       ++ [Lit " "; Lit "U"; Lit "T"; Lit "C"]) r2 with
              | Some (_, []) => Some tt
              | _ => None
              end) with
      | Some _ => true
      | None => false
      end
  end.

(** [m] is matched, character by character, by the items [p]. *)
Fixpoint all_match (p : list cclass) (m : text) : bool :=
  match p, m with
  | [], [] => true
  | k :: p', c :: m' => cclass_matches k c && all_match p' m'
  | _, _ => false
  end.

Definition all_digits (m : text) : bool := forallb is_digit m.

(** No character of [m] is the letter U. *)
Definition no_U (m : text) : bool := forallb (fun c => negb (c =? chr "U")%N) m.

(** The texts the regular expression of [parse_timestamp] matches, read
    off the pattern: the date and time, a dot, one digit or more, one
    white-space character, a plus sign and four digits, and nothing more
    but for one closing newline.  A digit is any decimal digit of Unicode,
    a white-space character any of Unicode's. *)
Definition stripped_shape (ts : text) : Prop :=
  exists d f w z e,
    ts = d ++ chr "." :: f ++ w :: z ++ e
    /\ all_match date_time_classes d = true
    /\ f <> [] /\ all_digits f = true
    /\ is_space w = true
    /\ all_match tz_classes z = true
    /\ (e = [] \/ e = [newline]).

End Timestamp.

Import Timestamp.

(** ** Configuration *)

(** The module-level constants of the collector.  The flush interval
    (10 seconds) and the statistics interval (60 seconds) are literals of
    the loop and appear as such below. *)
Record config : Type := mk_config {
  SAVE_NO_IMO_VESSELS : bool;
  BATCH_SIZE : Z;
  MAX_DB_RETRIES : nat
}.

Definition default_config : config :=
  {| SAVE_NO_IMO_VESSELS := false; BATCH_SIZE := 100; MAX_DB_RETRIES := 3 |}.

(** ** GeoFilter: [is_point_in_north_sea] *)

(** [north_sea_shape.contains(Point(longitude, latitude))]: one boolean per
    feature of the loaded boundary, or an exception of the geometry
    library.  The arguments are longitude, then latitude. *)
Definition geoshape : Type := Q -> Q -> result (list bool).

Definition any (l : list bool) : bool := existsb id l.

(** [try: body  except Exception as e: handler] on a computation that has
    already run. *)
Definition try_except {A} (body : result A) (handler : exn -> result A) : result A :=
  match body with
  | Ok a => Ok a
  | Raise e => handler e
  end.

Definition is_point_in_north_sea
    (latitude longitude : option Q) (north_sea_shape : geoshape) : result bool :=
  match latitude, longitude with
  | Some lat, Some lon =>
      try_except
        (match north_sea_shape lon lat with
         | Ok bs => Ok (any bs)
         | Raise e => Raise e
         end)
        (fun _ => Ok false)
  | _, _ => Ok false
  end.

(** ** Rows, tables and the connection *)

(** What [strftime("%Y-%m-%d %H:%M:%S.%f")] prints: the seven fields of the
    instant, in order; the offset is not printed. *)
Definition strftime (dt : datetime) : list Z :=
  [year dt; month dt; day dt; hour dt; minute dt; second dt; microsecond dt].

(** [(imo_number, mmsi, name, ship_type, length, width, max_draught)] *)
Record ship_row : Type := mk_ship_row {
  s_imo_number : Z;
  s_mmsi : option Z;
  s_name : option string;
  s_ship_type : option Z;
  s_length : option Z;
  s_width : option Z;
  s_max_draught : option Q
}.

(** A row of [ship_static_data_temp]. *)
Record static_row : Type := mk_static_row {
  t_imo_number : Z;
  t_mmsi : option Z;
  t_name : option string;
  t_ship_type : option Z;
  t_length : option Z;
  t_width : option Z;
  t_max_draught : option Q;
  t_destination : option string;
  t_timestamp_ais : list Z;
  t_latitude : Q;
  t_longitude : Q
}.

(** A row of [ship_data]. *)
Record position_row : Type := mk_position_row {
  p_imo_number : Z;
  p_timestamp_ais : list Z;
  p_latitude : Q;
  p_longitude : Q;
  p_destination : option string;
  p_sog : option Q;
  p_cog : option Q;
  p_navigational_status_code : option Z;
  p_rate_of_turn : option Z;
  p_true_heading : option Z
}.

(** A row of [unknown_ships]. *)
Record unknown_row : Type := mk_unknown_row {
  u_imo_number : Z;
  u_mmsi : option Z;
  u_name : option string;
  u_ship_type : option Z;
  u_length : option Z;
  u_width : option Z;
  u_max_draught : option Q;
  u_destination : option string;
  u_timestamp_ais : list Z;
  u_latitude : Q;
  u_longitude : Q;
  u_sog : option Q;
  u_cog : option Q;
  u_navigational_status_code : option Z;
  u_rate_of_turn : option Z;
  u_true_heading : option Z
}.

(** The four tables.  [ships] has [imo_number] as its primary key; the
    list keeps the rows in the order they were first inserted. *)
Record db : Type := mk_db {
  ships : list ship_row;
  ship_static_data_temp : list static_row;
  ship_data : list position_row;
  unknown_ships : list unknown_row
}.

Inductive table : Type := Ships | ShipStaticDataTemp | ShipData | UnknownShips.

(** Calls made on the connection and its cursor, most recent last. *)
Inductive db_call : Type :=
  | SelectImoByMmsi (mmsi : Z)
  | SelectRecentDestination (imo : Z)
  | ExecuteMany (t : table) (rows : nat)
  | Commit
  | Rollback
  | Connect.

(** A connection with [autocommit = False]: [committed] is what the store
    holds, [view] is what the open transaction sees. *)
Record connection : Type := mk_connection {
  committed : db;
  view : db;
  calls : list db_call
}.

Definition call (c : connection) (k : db_call) : connection :=
  {| committed := committed c; view := view c; calls := calls c ++ [k] |}.

(** [conn.commit()] *)
Definition commit (c : connection) : connection :=
  {| committed := view c; view := view c; calls := calls c ++ [Commit] |}.

(** [conn.rollback()] *)
Definition rollback (c : connection) : connection :=
  {| committed := committed c; view := committed c; calls := calls c ++ [Rollback] |}.

(** [psycopg2.connect(...)] replacing a connection: the open transaction of
    the old one is gone. *)
Definition reconnect (c : connection) : connection :=
  {| committed := committed c; view := committed c; calls := calls c ++ [Connect] |}.

(** [INSERT INTO ships ... ON CONFLICT (imo_number) DO UPDATE SET name,
    ship_type, length, width, max_draught = EXCLUDED...] for one row. *)
Definition conflict_update (old new : ship_row) : ship_row :=
  {| s_imo_number := s_imo_number old;
     s_mmsi := s_mmsi old;
     s_name := s_name new;
     s_ship_type := s_ship_type new;
     s_length := s_length new;
     s_width := s_width new;
     s_max_draught := s_max_draught new |}.

Definition upsert_ship (t : list ship_row) (r : ship_row) : list ship_row :=
  if existsb (fun x => s_imo_number x =? s_imo_number r) t
  then map (fun x => if s_imo_number x =? s_imo_number r
                     then conflict_update x r else x) t
  else t ++ [r].

(** [cursor.executemany] of the upsert: one statement per row, in order. *)
Definition upsert_ships (t : list ship_row) (rows : list ship_row) : list ship_row :=
  fold_left upsert_ship rows t.

(** What cannot be read off the program text: the region boundary, the
    order in which the store scans [ships] for a query without [ORDER BY],
    and the answer of the destination query, which depends on the store's
    clock ([NOW()]). *)
Record world : Type := mk_world {
  north_sea_shape : geoshape;
  scan : list ship_row -> list ship_row;
  select_recent_destination : db -> Z -> option string
}.

(** Errors the store raises while one message is handled: a [SELECT] that
    fails, an [executemany] on a table that fails, a [commit] that fails.
    [Some op] is a [psycopg2.Error], with [op] telling an
    [OperationalError].  Creating a cursor is taken to succeed; a failed
    [SELECT] is caught inside the function that issues it, which then
    returns [None]. *)
Record faults : Type := mk_faults {
  select_error : bool;
  executemany_error : table -> option bool;
  commit_error : option bool
}.

Definition no_faults : faults :=
  {| select_error := false; executemany_error := fun _ => None; commit_error := None |}.

(** Python's truth value of an optional integer. *)
Definition truthy (x : option Z) : bool :=
  match x with Some v => negb (v =? 0) | None => false end.

(** [SELECT imo_number FROM ships WHERE mmsi = %s LIMIT 1] followed by
    [fetchone()]: the first matching row in scan order. *)
Definition select_imo_by_mmsi (w : world) (d : db) (mmsi : Z) : option Z :=
  match filter (fun x => s_mmsi x = Some mmsi) (scan w (ships d)) with
  | r :: _ => Some (s_imo_number r)
  | [] => None
  end.

Definition find_imo_by_mmsi (w : world) (ft : faults) (c : connection) (mmsi : option Z)
  : option Z * connection :=
  match mmsi with
  | Some m =>
      if negb (truthy mmsi) then (None, c)
      else if select_error ft then (None, call c (SelectImoByMmsi m))
      else (select_imo_by_mmsi w (view c) m, call c (SelectImoByMmsi m))
  | None => (None, c)
  end.

Definition get_recent_destination (w : world) (ft : faults) (c : connection) (imo_number : Z)
  : option string * connection :=
  if imo_number =? 0 then (None, c)
  else if select_error ft then (None, call c (SelectRecentDestination imo_number))
  else (select_recent_destination w (view c) imo_number,
        call c (SelectRecentDestination imo_number)).

(** ** Feed messages *)

(** A key of a decoded JSON object: not there, there with [null], or there
    with a value of the expected type. *)
Inductive field (A : Type) : Type :=
  | Missing
  | Null
  | Value (a : A).
Arguments Missing {A}.
Arguments Null {A}.
Arguments Value {A} a.

(** [d.get(k)] *)
Definition get {A} (f : field A) : option A :=
  match f with Value a => Some a | _ => None end.

(** [d.get(k, default)] *)
Definition get_default {A} (f : field A) (default : A) : option A :=
  match f with Missing => Some default | Null => None | Value a => Some a end.

Record MetaData : Type := mk_MetaData {
  MMSI : field Z;
  latitude : field Q;
  longitude : field Q;
  time_utc : field text
}.

Record ShipStaticData : Type := mk_ShipStaticData {
  ImoNumber : field Z;
  Name : field string;
  Type_ : field Z;
  Dimension : field (gmap string (option Z));
  MaximumStaticDraught : field Q;
  Destination : field string
}.

Record PositionReport : Type := mk_PositionReport {
  Sog : field Q;
  Cog : field Q;
  NavigationalStatus : field Z;
  RateOfTurn : field Z;
  TrueHeading : field Z
}.

(** [message["MessageType"]] with [message["Message"][...]]. *)
Inductive payload : Type :=
  | StaticPayload (ship_data : ShipStaticData)
  | PositionPayload (position_data : PositionReport)
  | OtherPayload.

Inductive message : Type :=
  | NoMessageType
  | Message (metadata : MetaData) (body : payload).

(** ** Loop state *)

Record counters : Type := mk_counters {
  collected_count : Z;
  filtered_count : Z;
  last_minute_count : Z;
  last_minute_filtered : Z;
  static_data_count : Z;
  position_data_count : Z;
  no_imo_filtered_count : Z;
  last_minute_no_imo_filtered : Z;
  start_time : Q
}.

Record batches : Type := mk_batches {
  ships_batch : list ship_row;
  static_data_batch : list static_row;
  position_data_batch : list position_row;
  unknown_data_batch : list unknown_row
}.

Record state : Type := mk_state {
  conn : connection;
  mmsi_to_imo : gmap Z Z;
  stats : counters;
  unique_vessels : gset Z;
  unique_vessels_with_imo : gset Z;
  pending : batches;
  last_commit_time : Q
}.

Definition set_conn (s : state) (c : connection) : state :=
  mk_state c (mmsi_to_imo s) (stats s) (unique_vessels s)
           (unique_vessels_with_imo s) (pending s) (last_commit_time s).

Definition set_mmsi_to_imo (s : state) (m : gmap Z Z) : state :=
  mk_state (conn s) m (stats s) (unique_vessels s)
           (unique_vessels_with_imo s) (pending s) (last_commit_time s).

Definition set_stats (s : state) (k : counters) : state :=
  mk_state (conn s) (mmsi_to_imo s) k (unique_vessels s)
           (unique_vessels_with_imo s) (pending s) (last_commit_time s).

Definition set_unique_vessels (s : state) (u : gset Z) : state :=
  mk_state (conn s) (mmsi_to_imo s) (stats s) u
           (unique_vessels_with_imo s) (pending s) (last_commit_time s).

Definition set_unique_vessels_with_imo (s : state) (u : gset Z) : state :=
  mk_state (conn s) (mmsi_to_imo s) (stats s) (unique_vessels s)
           u (pending s) (last_commit_time s).

Definition set_pending (s : state) (b : batches) : state :=
  mk_state (conn s) (mmsi_to_imo s) (stats s) (unique_vessels s)
           (unique_vessels_with_imo s) b (last_commit_time s).

Definition set_last_commit_time (s : state) (t : Q) : state :=
  mk_state (conn s) (mmsi_to_imo s) (stats s) (unique_vessels s)
           (unique_vessels_with_imo s) (pending s) t.

(** [filtered_count += 1; last_minute_filtered += 1] *)
Definition count_filtered (k : counters) : counters :=
  mk_counters (collected_count k) (filtered_count k + 1) (last_minute_count k)
              (last_minute_filtered k + 1) (static_data_count k)
              (position_data_count k) (no_imo_filtered_count k)
              (last_minute_no_imo_filtered k) (start_time k).

(** [no_imo_filtered_count += 1; last_minute_no_imo_filtered += 1] *)
Definition count_no_imo_filtered (k : counters) : counters :=
  mk_counters (collected_count k) (filtered_count k) (last_minute_count k)
              (last_minute_filtered k) (static_data_count k)
              (position_data_count k) (no_imo_filtered_count k + 1)
              (last_minute_no_imo_filtered k + 1) (start_time k).

(** [static_data_count += 1] *)
Definition count_static (k : counters) : counters :=
  mk_counters (collected_count k) (filtered_count k) (last_minute_count k)
              (last_minute_filtered k) (static_data_count k + 1)
              (position_data_count k) (no_imo_filtered_count k)
              (last_minute_no_imo_filtered k) (start_time k).

(** [position_data_count += 1] *)
Definition count_position (k : counters) : counters :=
  mk_counters (collected_count k) (filtered_count k) (last_minute_count k)
              (last_minute_filtered k) (static_data_count k)
              (position_data_count k + 1) (no_imo_filtered_count k)
              (last_minute_no_imo_filtered k) (start_time k).

(** [collected_count += 1] *)
Definition count_collected (k : counters) : counters :=
  mk_counters (collected_count k + 1) (filtered_count k) (last_minute_count k)
              (last_minute_filtered k) (static_data_count k)
              (position_data_count k) (no_imo_filtered_count k)
              (last_minute_no_imo_filtered k) (start_time k).

(** [last_minute_count += 1] *)
Definition count_last_minute (k : counters) : counters :=
  mk_counters (collected_count k) (filtered_count k) (last_minute_count k + 1)
              (last_minute_filtered k) (static_data_count k)
              (position_data_count k) (no_imo_filtered_count k)
              (last_minute_no_imo_filtered k) (start_time k).

(** The end of the once-a-minute report: the interval counters restart. *)
Definition reset_minute (k : counters) (current_time : Q) : counters :=
  mk_counters (collected_count k) (filtered_count k) 0 0 (static_data_count k)
              (position_data_count k) (no_imo_filtered_count k) 0 current_time.

Definition append_ship (b : batches) (r : ship_row) : batches :=
  mk_batches (ships_batch b ++ [r]) (static_data_batch b)
             (position_data_batch b) (unknown_data_batch b).

Definition append_static (b : batches) (r : static_row) : batches :=
  mk_batches (ships_batch b) (static_data_batch b ++ [r])
             (position_data_batch b) (unknown_data_batch b).

Definition append_position (b : batches) (r : position_row) : batches :=
  mk_batches (ships_batch b) (static_data_batch b)
             (position_data_batch b ++ [r]) (unknown_data_batch b).

Definition append_unknown (b : batches) (r : unknown_row) : batches :=
  mk_batches (ships_batch b) (static_data_batch b)
             (position_data_batch b) (unknown_data_batch b ++ [r]).

Definition empty_batches : batches := mk_batches [] [] [] [].

(** How one pass through the body of the receive loop ends: it reaches the
    end of the body, it hits a [continue], or an exception leaves the
    body. *)
Inductive flow : Type :=
  | Next (s : state)
  | Continue (s : state)
  | Escape (e : exn) (s : state).

(** ** MessageClassifier: static data *)

(** [dimension.get(k)] on the [Dimension] object. *)
Definition dict_get (d : gmap string (option Z)) (k : string) : option Z :=
  match d !! k with
  | Some (Some v) => Some v
  | _ => None
  end.

Definition add_opt (x y : option Z) : option Z :=
  match x, y with
  | Some a, Some b => Some (a + b)
  | _, _ => None
  end.

(** Length and width from [ship_data.get("Dimension", {})] (lines 576-591
    of [connect_ais_stream]). *)
Definition compute_dimensions (f : field (gmap string (option Z)))
  : option Z * option Z :=
  match get_default f ∅ with
  | Some dimension =>
      if decide (dimension = ∅) then (None, None)
      else
        let a := dict_get dimension "A" in
        let b := dict_get dimension "B" in
        let c := dict_get dimension "C" in
        let d := dict_get dimension "D" in
        (add_opt a b, add_opt c d)
  | None => (None, None)
  end.

(** [raw_imo_number is not None and raw_imo_number != 0] *)
Definition valid_imo (raw_imo_number : option Z) : bool := truthy raw_imo_number.

(** The branch for [ShipStaticData] (lines 569-644). *)
Definition handle_static (cfg : config) (s : state) (mmsi : option Z)
    (lat lon : Q) (timestamp_ais : list Z) (ship_data : ShipStaticData) : state :=
  let raw_imo_number := get (ImoNumber ship_data) in
  let name := get_default (Name ship_data) "Unknown" in
  let ship_type := get (Type_ ship_data) in
  let '(length, width) := compute_dimensions (Dimension ship_data) in
  let max_draught := get (MaximumStaticDraught ship_data) in
  let destination := get_default (Destination ship_data) "Unknown" in
  (* Track unique vessels *)
  let s1 :=
    match mmsi with
    | Some m =>
        if truthy mmsi then
          let s' := set_unique_vessels s ({[m]} ∪ unique_vessels s) in
          if valid_imo raw_imo_number
          then set_unique_vessels_with_imo s' ({[m]} ∪ unique_vessels_with_imo s')
          else s'
        else s
    | None => s
    end in
  (* Store MMSI to IMO mapping for position reports *)
  let s2 :=
    match raw_imo_number, mmsi with
    | Some imo, Some m =>
        if valid_imo raw_imo_number
        then set_mmsi_to_imo s1 (<[m := imo]> (mmsi_to_imo s1))
        else s1
    | _, _ => s1
    end in
  let s3 :=
    match raw_imo_number with
    | Some imo_number =>
        if valid_imo raw_imo_number then
          let b1 := append_ship (pending s2)
                      (mk_ship_row imo_number mmsi name ship_type length width max_draught) in
          let b2 := append_static b1
                      (mk_static_row imo_number mmsi name ship_type length width
                         max_draught destination timestamp_ais lat lon) in
          set_stats (set_pending s2 b2) (count_static (stats s2))
        else
          (* raw_imo_number == 0 *)
          if SAVE_NO_IMO_VESSELS cfg then
            set_pending s2
              (append_unknown (pending s2)
                 (mk_unknown_row 0 mmsi name ship_type length width max_draught
                    destination timestamp_ais lat lon None None None None None))
          else set_stats s2 (count_no_imo_filtered (stats s2))
    | None =>
        if SAVE_NO_IMO_VESSELS cfg then
          set_pending s2
            (append_unknown (pending s2)
               (mk_unknown_row (-1) mmsi name ship_type length width max_draught
                  destination timestamp_ais lat lon None None None None None))
        else set_stats s2 (count_no_imo_filtered (stats s2))
    end in
  set_stats s3 (count_collected (stats s3)).

(** ** IdentityResolver and position reports *)

(** [mmsi_to_imo.get(mmsi)], then the store on a miss, with the write back
    into the mapping (lines 660-672). *)
Definition resolve (w : world) (ft : faults) (s : state) (mmsi : option Z)
  : option Z * state :=
  let imo_number := mmsi ≫= (fun m => mmsi_to_imo s !! m) in
  match imo_number, mmsi with
  | None, Some m =>
      let '(found, c) := find_imo_by_mmsi w ft (conn s) mmsi in
      let s1 := set_conn s c in
      match found with
      | Some imo =>
          let s2 := set_mmsi_to_imo s1 (<[m := imo]> (mmsi_to_imo s1)) in
          (Some imo, set_unique_vessels_with_imo s2 ({[m]} ∪ unique_vessels_with_imo s2))
      | None => (None, s1)
      end
  | Some imo, Some m =>
      (Some imo, set_unique_vessels_with_imo s ({[m]} ∪ unique_vessels_with_imo s))
  | _, None => (imo_number, s)
  end.

(** The branch for [PositionReport] (lines 646-694). *)
Definition handle_position (cfg : config) (w : world) (ft : faults) (s : state)
    (mmsi : option Z) (lat lon : Q) (timestamp_ais : list Z)
    (position_data : PositionReport) : state :=
  let sog := get (Sog position_data) in
  let cog := get (Cog position_data) in
  let navigational_status_code := get (NavigationalStatus position_data) in
  let rate_of_turn := get (RateOfTurn position_data) in
  let true_heading := get (TrueHeading position_data) in
  let s1 :=
    match mmsi with
    | Some m => if truthy mmsi
                then set_unique_vessels s ({[m]} ∪ unique_vessels s) else s
    | None => s
    end in
  let '(imo_number, s2) := resolve w ft s1 mmsi in
  let s3 :=
    match imo_number with
    | Some imo =>
        let '(destination, c) := get_recent_destination w ft (conn s2) imo in
        let s' := set_conn s2 c in
        set_stats
          (set_pending s'
             (append_position (pending s')
                (mk_position_row imo timestamp_ais lat lon destination sog cog
                   navigational_status_code rate_of_turn true_heading)))
          (count_position (stats s'))
    | None =>
        if SAVE_NO_IMO_VESSELS cfg then
          set_pending s2
            (append_unknown (pending s2)
               (mk_unknown_row (-1) mmsi None None None None None None
                  timestamp_ais lat lon sog cog navigational_status_code
                  rate_of_turn true_heading))
        else set_stats s2 (count_no_imo_filtered (stats s2))
    end in
  set_stats s3 (count_collected (stats s3)).

(** ** The body of the receive loop up to the flush check *)

(** The body of the loop from the decoded message to the end of the
    branches (lines 540-694).  The connection is taken to be open
    ([conn.closed] false) when a message arrives, and the decoded message to
    hold [MetaData] and the object of its type. *)
Definition handle_message (cfg : config) (w : world) (ft : faults)
    (s : state) (msg : message) : flow :=
  match msg with
  | NoMessageType => Continue s
  | Message metadata body =>
      let mmsi := get (MMSI metadata) in
      match get (latitude metadata), get (longitude metadata) with
      | Some lat, Some lon =>
          match is_point_in_north_sea (Some lat) (Some lon) (north_sea_shape w) with
          | Raise e => Escape e s
          | Ok false => Continue (set_stats s (count_filtered (stats s)))
          | Ok true =>
              match get_default (time_utc metadata) (str "") with
              | None => Escape OtherException s
              | Some timestamp_ais_raw =>
                  match parse_timestamp timestamp_ais_raw with
                  | Raise ValueError => Continue s
                  | Raise e => Escape e s
                  | Ok timestamp_ais_dt =>
                      let timestamp_ais := strftime timestamp_ais_dt in
                      match body with
                      | StaticPayload ship_data =>
                          Next (handle_static cfg s mmsi lat lon timestamp_ais ship_data)
                      | PositionPayload position_data =>
                          Next (handle_position cfg w ft s mmsi lat lon
                                  timestamp_ais position_data)
                      | OtherPayload => Next s
                      end
                  end
              end
          end
      | _, _ => Continue s
      end
  end.

(** ** BatchAccumulator and PersistenceWriter *)

Definition batch_len {A} (l : list A) : Z := Z.of_nat (List.length l).

(** [len(ships_batch) + len(static_data_batch) + len(position_data_batch)
    + len(unknown_data_batch)] *)
Definition pending_count (b : batches) : Z :=
  batch_len (ships_batch b) + batch_len (static_data_batch b)
  + batch_len (position_data_batch b) + batch_len (unknown_data_batch b).

(** The condition that guards the flush (lines 698-699). *)
Definition flush_due (cfg : config) (s : state) (current_time : Q) : bool :=
  (BATCH_SIZE cfg <=? pending_count (pending s))
  || Qle_bool 10 (current_time - last_commit_time s).

Definition write_ships (d : db) (rows : list ship_row) : db :=
  mk_db (upsert_ships (ships d) rows) (ship_static_data_temp d)
        (ship_data d) (unknown_ships d).

Definition write_static (d : db) (rows : list static_row) : db :=
  mk_db (ships d) (ship_static_data_temp d ++ rows) (ship_data d) (unknown_ships d).

Definition write_position (d : db) (rows : list position_row) : db :=
  mk_db (ships d) (ship_static_data_temp d) (ship_data d ++ rows) (unknown_ships d).

Definition write_unknown (d : db) (rows : list unknown_row) : db :=
  mk_db (ships d) (ship_static_data_temp d) (ship_data d) (unknown_ships d ++ rows).

(** [if rows: cursor.executemany(statement, rows)] inside the open
    transaction. *)
Definition executemany {R} (ft : faults) (t : table) (write : db -> list R -> db)
    (rows : list R) (c : connection) : result connection :=
  match rows with
  | [] => Ok c
  | _ =>
      match executemany_error ft t with
      | Some op => Raise (Psycopg2Error op)
      | None =>
          Ok {| committed := committed c;
                view := write (view c) rows;
                calls := calls c ++ [ExecuteMany t (List.length rows)] |}
      end
  end.

(** [conn.commit()], which can fail too. *)
Definition try_commit (ft : faults) (c : connection) : result connection :=
  match commit_error ft with
  | Some op => Raise (Psycopg2Error op)
  | None => Ok (commit c)
  end.

(** Statements that change the loop state and may raise; the state reached
    when the exception is raised is kept, as the assignments made so far
    are. *)
Definition prog (A : Type) : Type := state -> result A * state.

Definition ret {A} (a : A) : prog A := fun s => (Ok a, s).

Definition bind {A B} (m : prog A) (k : A -> prog B) : prog B :=
  fun s =>
    match m s with
    | (Ok a, s') => k a s'
    | (Raise e, s') => (Raise e, s')
    end.

Declare Scope prog_scope.
Delimit Scope prog_scope with prog.
Notation "m ;; k" := (bind m (fun _ => k))
  (at level 100, k at level 200, right associativity) : prog_scope.

(** One [if batch: executemany(...); batch = []] of the flush. *)
Definition flush_batch {R} (ft : faults) (t : table) (write : db -> list R -> db)
    (rows : batches -> list R) (clear : batches -> batches) : prog unit :=
  fun s =>
    match rows (pending s) with
    | [] => (Ok tt, s)
    | _ =>
        match executemany ft t write (rows (pending s)) (conn s) with
        | Raise e => (Raise e, s)
        | Ok c => (Ok tt, set_pending (set_conn s c) (clear (pending s)))
        end
    end.

Definition clear_ships (b : batches) : batches :=
  mk_batches [] (static_data_batch b) (position_data_batch b) (unknown_data_batch b).

Definition clear_static (b : batches) : batches :=
  mk_batches (ships_batch b) [] (position_data_batch b) (unknown_data_batch b).

Definition clear_position (b : batches) : batches :=
  mk_batches (ships_batch b) (static_data_batch b) [] (unknown_data_batch b).

Definition clear_unknown (b : batches) : batches :=
  mk_batches (ships_batch b) (static_data_batch b) (position_data_batch b) [].

Definition commit_stmt (ft : faults) : prog unit :=
  fun s =>
    match try_commit ft (conn s) with
    | Raise e => (Raise e, s)
    | Ok c => (Ok tt, set_conn s c)
    end.

(** The [try] block of the flush in the receive loop (lines 702-760). *)
Definition flush_try (ft : faults) (current_time : Q) : prog unit :=
  (flush_batch ft Ships write_ships ships_batch clear_ships ;;
   flush_batch ft ShipStaticDataTemp write_static static_data_batch clear_static ;;
   flush_batch ft ShipData write_position position_data_batch clear_position ;;
   flush_batch ft UnknownShips write_unknown unknown_data_batch clear_unknown ;;
   commit_stmt ft ;;
   (fun s => (Ok tt, set_last_commit_time s current_time)))%prog.

(** The flush with its [except psycopg2.Error] handler (lines 762-771):
    roll back, and reconnect after an [OperationalError].  The rollback and
    the reconnection are taken to succeed. *)
Definition flush (ft : faults) (s : state) (current_time : Q) : state :=
  match flush_try ft current_time s with
  | (Ok _, s') => s'
  | (Raise (Psycopg2Error op), s') =>
      let s'' := set_conn s' (rollback (conn s')) in
      if op then set_conn s'' (reconnect (conn s'')) else s''
  | (Raise _, s') => s'
  end.

(** [last_minute_count += 1] and the once-a-minute report (lines
    773-802). *)
Definition report_stats (s : state) (current_time : Q) : state :=
  let k := count_last_minute (stats s) in
  if Qle_bool 60 (current_time - start_time k)
  then set_stats s (reset_minute k current_time)
  else set_stats s k.

(** One pass through the body of [async for message_json in websocket]. *)
Definition process_message (cfg : config) (w : world) (ft : faults)
    (s : state) (msg : message) (current_time : Q) : flow :=
  match handle_message cfg w ft s msg with
  | Next s1 =>
      let s2 := if flush_due cfg s1 current_time
                then flush ft s1 current_time else s1 in
      Next (report_stats s2 current_time)
  | other => other
  end.

(** [process_pending_batches]: the four writes and the commit in one [try],
    a rollback on any exception.  The lists are arguments and are not
    changed here.  The rollback itself raises when the session is lost
    ([rollback_error] is then the error, as in [faults]); that exception
    leaves the function, and the transaction is gone with the session. *)
Definition process_pending_batches (ft : faults) (rollback_error : option bool)
    (c : connection) (b : batches) : result unit * connection :=
  let attempt :=
    match executemany ft Ships write_ships (ships_batch b) c with
    | Raise e => Raise e
    | Ok c1 =>
    match executemany ft ShipStaticDataTemp write_static (static_data_batch b) c1 with
    | Raise e => Raise e
    | Ok c2 =>
    match executemany ft ShipData write_position (position_data_batch b) c2 with
    | Raise e => Raise e
    | Ok c3 =>
    match executemany ft UnknownShips write_unknown (unknown_data_batch b) c3 with
    | Raise e => Raise e
    | Ok c4 => try_commit ft c4
    end end end end in
  match attempt with
  | Ok c' => (Ok tt, c')
  | Raise _ =>
      match rollback_error with
      | None => (Ok tt, rollback c)
      | Some op => (Raise (Psycopg2Error op), rollback c)
      end
  end.

Definition nonempty {A} (l : list A) : bool :=
  match l with [] => false | _ => true end.

(** The handler of [ConnectionClosedError] in the outer loop (lines
    821-842); [conn_closed] is [conn.closed], and the result is the
    [connected] flag and the state.  The four lists are emptied after
    [process_pending_batches] has returned, and kept when it raised or was
    not called. *)
Definition on_connection_closed (ft : faults) (rollback_error : option bool)
    (conn_closed : bool) (connected : bool) (s : state) : bool * state :=
  if connected then
    let b := pending s in
    if nonempty (ships_batch b) || nonempty (static_data_batch b)
       || nonempty (position_data_batch b) || nonempty (unknown_data_batch b)
    then
      if conn_closed then (false, s)
      else
        match process_pending_batches ft rollback_error (conn s) b with
        | (Ok _, c) => (false, set_pending (set_conn s c) empty_batches)
        | (Raise _, c) => (false, set_conn s c)
        end
    else (false, s)
  else (connected, s).

(** ** Start-up *)

Inductive startup_event : Type :=
  | ConnectAttempt (attempt : nat)
  | LogError (text : string)
  | Sleep (seconds : Z).

Inductive startup : Type :=
  | Connected (log : list startup_event)
  | Returned (log : list startup_event)
  | LoopEnded (log : list startup_event).

(** [for attempt in range(MAX_DB_RETRIES)] at the head of
    [connect_ais_stream] (lines 457-469); [connect_ok attempt] tells
    whether [psycopg2.connect] succeeds on that attempt. *)
Fixpoint initial_connection (cfg : config) (connect_ok : nat -> bool)
    (attempts : list nat) (log : list startup_event) : startup :=
  match attempts with
  | [] => LoopEnded log
  | attempt :: rest =>
      if connect_ok attempt then Connected (log ++ [ConnectAttempt attempt])
      else
        let log1 := log ++ [ConnectAttempt attempt;
                            LogError "Database connection attempt failed"] in
        if (attempt =? MAX_DB_RETRIES cfg - 1)%nat
        then Returned (log1 ++ [LogError "Maximum database connection attempts reached. Exiting."])
        else initial_connection cfg connect_ok rest
               (log1 ++ [Sleep (2 ^ Z.of_nat attempt)])
  end.

Definition connect_ais_stream_startup (cfg : config) (connect_ok : nat -> bool)
  : startup :=
  initial_connection cfg connect_ok (seq 0 (MAX_DB_RETRIES cfg)) [].

(** What the start-up depends on outside the program. *)
Record startup_world : Type := mk_startup_world {
  migrate_connect_ok : bool;
  shapefile_exists : bool;
  shapefile_loads : bool;
  connect_ok : nat -> bool
}.

(** How the process goes on: it ends with an exit status, or it is in the
    receive loop, which has no exit. *)
Inductive process_end : Type :=
  | Exit (status : Z)
  | ReceiveLoop.

(** The status of an interpreter whose script ran to its end. *)
Definition script_end : Z := 0.

(** The [__main__] block (lines 907-923).  Every branch that ends does so
    by reaching the end of the script: [connect_ais_stream] returns, or
    [except Exception] logs the error; no branch calls [exit].  Once
    connected, the collector loads the boundary again, as the test load
    did, and enters [while True]. *)
Definition main (cfg : config) (sw : startup_world) : process_end * list startup_event :=
  if negb (migrate_connect_ok sw) then
    (* migrate_database connects outside its own try *)
    (Exit script_end, [LogError "Failed to start AIS Data Collector"])
  else if shapefile_exists sw then
    if negb (shapefile_loads sw) then
      (Exit script_end, [LogError "Failed to load North Sea shapefile";
                         LogError "Failed to start AIS Data Collector"])
    else
      match connect_ais_stream_startup cfg (connect_ok sw) with
      | Connected log => (ReceiveLoop, log)
      | Returned log => (Exit script_end, log)
      | LoopEnded log =>
          (* conn is still None: conn.cursor() raises *)
          (Exit script_end, log ++ [LogError "Failed to start AIS Data Collector"])
      end
  else
    (Exit script_end, [LogError "North Sea shapefile not found";
                       LogError "Cannot start AIS Data Collector without the North Sea shapefile"]).

(** ** Notions used to state the properties *)

(** The operand [k] of a static message's [Dimension]: present when the
    message has the object and the object has a number under [k]. *)
Definition dimension_operand (f : field (gmap string (option Z))) (k : string)
  : option Z :=
  match get f with
  | Some dimension => dict_get dimension k
  | None => None
  end.

(** The message has a type and a position, the position lies in the region,
    and the timestamp parses. *)
Definition passes_filters (w : world) (msg : message) : bool :=
  match msg with
  | NoMessageType => false
  | Message metadata _ =>
      match get (latitude metadata), get (longitude metadata) with
      | Some lat, Some lon =>
          match north_sea_shape w lon lat with
          | Ok bs => any bs
          | Raise _ => false
          end
          && match get_default (time_utc metadata) (str "") with
             | Some raw => is_Ok (parse_timestamp raw)
             | None => false
             end
      | _, _ => false
      end
  end.

(** [SELECT * FROM ships WHERE imo_number = imo] *)
Definition rows_with_imo (t : list ship_row) (imo : Z) : list ship_row :=
  filter (fun x => s_imo_number x = imo) t.

(** The primary key of [ships]. *)
Definition primary_key (t : list ship_row) : Prop :=
  forall imo, (List.length (rows_with_imo t imo) <= 1)%nat.

(** The IMO of the row inserted last among those with this MMSI. *)
Definition most_recent_match (t : list ship_row) (mmsi : Z) : option Z :=
  s_imo_number <$> last (filter (fun x => s_mmsi x = Some mmsi) t).

Definition is_select_imo (k : db_call) : bool :=
  match k with SelectImoByMmsi _ => true | _ => false end.

(** How many times the store was asked for an IMO. *)
Definition store_queries (c : connection) : nat :=
  List.length (List.filter is_select_imo (calls c)).

Definition ends_transaction (k : db_call) : bool :=
  match k with Commit | Rollback => true | _ => false end.

(** How many transactions were ended, by [commit] or by [rollback]: one per
    flush. *)
Definition flushes (c : connection) : nat :=
  List.length (List.filter ends_transaction (calls c)).

Definition state_of (f : flow) : state :=
  match f with Next s | Continue s | Escape _ s => s end.

(** A position observation with this IMO was appended, and nothing else
    happened to the other two outcomes' data. *)
Definition position_appended (s s1 : state) (imo : Z) : Prop :=
  exists row,
    position_data_batch (pending s1) = position_data_batch (pending s) ++ [row]
    /\ p_imo_number row = imo
    /\ unknown_data_batch (pending s1) = unknown_data_batch (pending s)
    /\ no_imo_filtered_count (stats s1) = no_imo_filtered_count (stats s).

Definition unidentified_appended (s s1 : state) (mmsi : option Z) : Prop :=
  exists row,
    unknown_data_batch (pending s1) = unknown_data_batch (pending s) ++ [row]
    /\ u_mmsi row = mmsi /\ u_imo_number row = -1
    /\ position_data_batch (pending s1) = position_data_batch (pending s)
    /\ no_imo_filtered_count (stats s1) = no_imo_filtered_count (stats s).

Definition discarded_and_counted (s s1 : state) : Prop :=
  pending s1 = pending s
  /\ no_imo_filtered_count (stats s1) = no_imo_filtered_count (stats s) + 1.

(** The connection attempts and the pauses of a start-up log. *)
Definition attempts_made (log : list startup_event) : list nat :=
  omap (fun e => match e with ConnectAttempt a => Some a | _ => None end) log.

Definition pauses (log : list startup_event) : list Z :=
  omap (fun e => match e with Sleep z => Some z | _ => None end) log.

(** The store after the four pending lists are written to it. *)
Definition apply_all (d : db) (b : batches) : db :=
  write_unknown
    (write_position
       (write_static (write_ships d (ships_batch b)) (static_data_batch b))
       (position_data_batch b))
    (unknown_data_batch b).

(** What a step of the flush leaves alone, whether it succeeds or raises. *)
Definition step_frame (s s' : state) : Prop :=
  committed (conn s') = committed (conn s)
  /\ flushes (conn s') = flushes (conn s)
  /\ last_commit_time s' = last_commit_time s.

(** ** Sample data *)

(** A boundary of one feature, the rectangle of the subscription's bounding
    box; a store that scans [ships] in insertion order and answers the
    destination query with the latest static row of the vessel. *)
Definition sample_world : world :=
  {| north_sea_shape := fun lon lat =>
       Ok [Qle_bool 50 lat && Qle_bool lat 61.5
           && Qle_bool (-5) lon && Qle_bool lon 13];
     scan := fun t => t;
     select_recent_destination := fun d imo =>
       last (filter (fun x => t_imo_number x = imo) (ship_static_data_temp d))
       ≫= t_destination |}.

Definition empty_db : db := mk_db [] [] [] [].

Definition zero_counters : counters := mk_counters 0 0 0 0 0 0 0 0 0.

(** A loop state over the store [d] with an empty mapping, empty lists and
    counters at zero: the state after a start-up in which
    [load_mmsi_to_imo_mapping] found no row or failed (it then returns the
    empty dictionary). *)
Definition initial_state (d : db) : state :=
  {| conn := mk_connection d d [];
     mmsi_to_imo := ∅;
     stats := zero_counters;
     unique_vessels := ∅;
     unique_vessels_with_imo := ∅;
     pending := empty_batches;
     last_commit_time := 0 |}.

Definition sample_metadata (mmsi : Z) (lat lon : Q) : MetaData :=
  mk_MetaData (Value mmsi) (Value lat) (Value lon)
              (Value (str "2024-01-02 03:04:05.123456789 +0000 UTC")).

Definition sample_position : PositionReport :=
  mk_PositionReport (Value 12.3%Q) (Value 90%Q) (Value 0) (Value 0) (Value 90).

Definition sample_static (imo : field Z) : ShipStaticData :=
  mk_ShipStaticData imo (Value "EVER GIVEN") (Value 70)
    (Value {["A" := Some 100; "B" := Some 50; "C" := Some 10; "D" := Some 10]})
    (Value 14.5%Q) (Value "ROTTERDAM").

(** Two registry rows that share an MMSI. *)
Definition shared_mmsi_db : db :=
  mk_db [mk_ship_row 9000001 (Some 244000001) (Some "FIRST") None None None None;
         mk_ship_row 9000002 (Some 244000001) (Some "SECOND") None None None None]
        [] [] [].

(** A start-up in which the migration connects, the boundary file loads and
    no later connection attempt succeeds. *)
Definition store_unreachable : startup_world :=
  {| migrate_connect_ok := true; shapefile_exists := true;
     shapefile_loads := true; connect_ok := fun _ => false |}.

Definition metadata_without_latitude : MetaData :=
  mk_MetaData (Value 230000001) Missing (Value 4%Q)
              (Value (str "2024-01-02 03:04:05.123456789 +0000 UTC")).

(** A batch size of three, as in the test the specification suggests. *)
Definition small_batches : config :=
  {| SAVE_NO_IMO_VESSELS := false; BATCH_SIZE := 3; MAX_DB_RETRIES := 3 |}.

Definition sample_position_row : position_row :=
  mk_position_row 9123456 [2024; 1; 2; 3; 4; 5; 123456] 53 4 None
                  (Some 12.3%Q) None None None None.

Definition sample_ship_row : ship_row :=
  mk_ship_row 9123456 (Some 230000001) (Some "EVER GIVEN") (Some 70)
              (Some 150) (Some 20) (Some 14.5%Q).

Definition two_positions_pending : state :=
  set_pending (initial_state empty_db)
    (mk_batches [] [] [sample_position_row; sample_position_row] []).

Definition ship_and_position_pending : state :=
  set_pending (initial_state empty_db)
    (mk_batches [sample_ship_row] [] [sample_position_row] []).

(** The insert into [ship_data] is refused (a value out of the range of its
    column, say); the connection stays up. *)
Definition position_write_fails : faults :=
  {| select_error := false;
     executemany_error := fun t => match t with ShipData => Some false | _ => None end;
     commit_error := None |}.

(** ** More of the collector *)

(** [load_mmsi_to_imo_mapping] (lines 368-389): the rows of
    [SELECT mmsi, imo_number FROM ships WHERE mmsi IS NOT NULL], in the
    order the store returns them, entered into a fresh dictionary when both
    numbers are truthy; an exception of the query is caught and the
    dictionary built so far, which is empty, is returned. *)
Definition load_mmsi_to_imo_mapping (w : world) (ft : faults) (c : connection)
  : gmap Z Z :=
  if select_error ft then ∅
  else
    fold_left
      (fun mmsi_to_imo row =>
         match s_mmsi row with
         | Some mmsi =>
             if truthy (Some mmsi) && truthy (Some (s_imo_number row))
             then <[mmsi := s_imo_number row]> mmsi_to_imo
             else mmsi_to_imo
         | None => mmsi_to_imo
         end)
      (scan w (ships (view c))) ∅.

(** The loop state [connect_ais_stream] builds before its first connection
    to the feed (lines 471-505); the clock is read once for [start_time]
    and once for [last_commit_time]. *)
Definition startup_state (w : world) (ft : faults) (c : connection)
    (start last_commit : Q) : state :=
  {| conn := c;
     mmsi_to_imo := load_mmsi_to_imo_mapping w ft c;
     stats := mk_counters 0 0 0 0 0 0 0 0 start;
     unique_vessels := ∅;
     unique_vessels_with_imo := ∅;
     pending := empty_batches;
     last_commit_time := last_commit |}.

Definition min_retry_delay : Z := 1.
Definition max_retry_delay : Z := 60.

(** [min(max_retry_delay, min_retry_delay * (2 ** (retry_attempts - 1)))]:
    the wait before a reconnection, before the jitter factor is applied
    (line 511). *)
Definition retry_delay (retry_attempts : Z) : Z :=
  Z.min max_retry_delay (min_retry_delay * 2 ^ (retry_attempts - 1)).

(** One pass of the outer [while True] up to the connection (lines 508-528):
    the wait, if any, and [retry_attempts] after the attempt, which is reset
    when the connection and the subscription succeed. *)
Definition connect_round (retry_attempts : Z) (connects : bool) : option Z * Z :=
  let wait := if 0 <? retry_attempts then Some (retry_delay retry_attempts) else None in
  let retry_attempts := retry_attempts + 1 in
  (wait, if connects then 0 else retry_attempts).

(** The waits of successive passes. *)
Fixpoint connect_rounds (retry_attempts : Z) (outcomes : list bool) : list (option Z) :=
  match outcomes with
  | [] => []
  | connects :: rest =>
      let '(wait, retry_attempts') := connect_round retry_attempts connects in
      wait :: connect_rounds retry_attempts' rest
  end.

(** A message as it arrives: the store errors met while it is handled, the
    message, and the clock read at the flush check. *)
Record arrival : Type := mk_arrival {
  a_faults : faults;
  a_message : message;
  a_time : Q
}.

(** The receive loop over the messages of one or more feed connections.  The
    state is the set of local variables of [connect_ais_stream], which
    outlive an exception that ends a connection. *)
Fixpoint run (cfg : config) (w : world) (s : state) (arrivals : list arrival) : state :=
  match arrivals with
  | [] => s
  | a :: rest =>
      run cfg w
        (state_of (process_message cfg w (a_faults a) s (a_message a) (a_time a)))
        rest
  end.

(** ** Notions used to state the further properties *)

(** No write and no commit fails. *)
Definition store_healthy (ft : faults) : Prop :=
  (forall t, executemany_error ft t = None) /\ commit_error ft = None.

(** No write waits for a commit: the connection sees what the store holds.
    (A [SELECT] opens a transaction too, as [autocommit] is off; it holds
    no write and is not counted here.) *)
Definition no_uncommitted_write (s : state) : Prop :=
  view (conn s) = committed (conn s).

(** Stored rows followed by pending rows, for the three tables that are
    appended to. *)
Definition static_log (s : state) : list static_row :=
  ship_static_data_temp (committed (conn s)) ++ static_data_batch (pending s).

Definition position_log (s : state) : list position_row :=
  ship_data (committed (conn s)) ++ position_data_batch (pending s).

Definition unknown_log (s : state) : list unknown_row :=
  unknown_ships (committed (conn s)) ++ unknown_data_batch (pending s).

(** The parts of the state the flush does not touch. *)
Definition same_bookkeeping (s s' : state) : Prop :=
  mmsi_to_imo s' = mmsi_to_imo s
  /\ stats s' = stats s
  /\ unique_vessels s' = unique_vessels s
  /\ unique_vessels_with_imo s' = unique_vessels_with_imo s.

(** Every collected message is counted once as static, as position or as
    filtered for want of an IMO. *)
Definition counters_balanced (k : counters) : Prop :=
  collected_count k
  = static_data_count k + position_data_count k + no_imo_filtered_count k.

(** Every vessel counted as identified, but for MMSI 0, is counted as
    seen. *)
Definition identified_are_seen (s : state) : Prop :=
  forall m, m <> 0 -> m ∈ unique_vessels_with_imo s -> m ∈ unique_vessels s.

(** A scan of [ships] returns rows of the table. *)
Definition scan_sound (w : world) : Prop :=
  forall (t : list ship_row) (r : ship_row), r ∈ scan w t -> r ∈ t.

(** No registry row, static record or position record is under IMO 0. *)
Definition db_without_zero_imo (d : db) : Prop :=
  Forall (fun r => s_imo_number r <> 0) (ships d)
  /\ Forall (fun r => t_imo_number r <> 0) (ship_static_data_temp d)
  /\ Forall (fun r => p_imo_number r <> 0) (ship_data d).

Definition batches_without_zero_imo (b : batches) : Prop :=
  Forall (fun r => s_imo_number r <> 0) (ships_batch b)
  /\ Forall (fun r => t_imo_number r <> 0) (static_data_batch b)
  /\ Forall (fun r => p_imo_number r <> 0) (position_data_batch b).

(** IMO 0 is nowhere but in [unknown_ships]: not in the mapping, not in
    the three other tables, stored or seen by the open transaction, and not
    in the lists pending for them. *)
Definition no_zero_imo (s : state) : Prop :=
  (forall m imo, mmsi_to_imo s !! m = Some imo -> imo <> 0)
  /\ db_without_zero_imo (committed (conn s))
  /\ db_without_zero_imo (view (conn s))
  /\ batches_without_zero_imo (pending s).

(** The registry once the pending upserts are written to it. *)
Definition registry (s : state) : list ship_row :=
  upsert_ships (ships (committed (conn s))) (ships_batch (pending s)).

(** The values the loop reads from a static message for the registry
    (lines 571-594), as the row for IMO [imo]. *)
Definition registry_row (metadata : MetaData) (ship_data : ShipStaticData) (imo : Z)
  : ship_row :=
  mk_ship_row imo (get (MMSI metadata))
    (get_default (Name ship_data) "Unknown") (get (Type_ ship_data))
    (fst (compute_dimensions (Dimension ship_data)))
    (snd (compute_dimensions (Dimension ship_data)))
    (get (MaximumStaticDraught ship_data)).

(** The arrival [a] is a static message that passes the filters and gives
    the IMO [imo], and [r] holds its values. *)
Definition static_message_of (w : world) (imo : Z) (a : arrival) (r : ship_row) : Prop :=
  exists metadata ship_data,
    a_message a = Message metadata (StaticPayload ship_data)
    /\ passes_filters w (a_message a) = true
    /\ get (ImoNumber ship_data) = Some imo
    /\ r = registry_row metadata ship_data imo.

(** The arrival [a] is not a static message that gives the MMSI [m] a
    valid IMO other than [imo]. *)
Definition keeps_identity (m imo : Z) (a : arrival) : Prop :=
  match a_message a with
  | Message metadata (StaticPayload ship_data) =>
      get (MMSI metadata) = Some m ->
      valid_imo (get (ImoNumber ship_data)) = true ->
      get (ImoNumber ship_data) = Some imo
  | _ => True
  end.

(** ** Schema migration: [migrate_database] *)

(** [s.startswith(p)] *)
Fixpoint starts_with (p s : string) : bool :=
  match p, s with
  | EmptyString, _ => true
  | String a p', String b s' => Ascii.eqb a b && starts_with p' s'
  | String _ _, EmptyString => false
  end.

(** [p in s] *)
Fixpoint contains (p s : string) : bool :=
  starts_with p s
  || match s with
     | EmptyString => false
     | String _ s' => contains p s'
     end.

(** [s.split(p)[0]] for a non-empty [p]: the text before the first
    occurrence of [p], or all of [s]. *)
Fixpoint before (p s : string) : string :=
  if starts_with p s then EmptyString
  else match s with
       | EmptyString => EmptyString
       | String c s' => String c (before p s')
       end.

Fixpoint lstrip (s : string) : string :=
  match s with
  | EmptyString => EmptyString
  | String c s' => if is_space (chr c) then lstrip s' else s
  end.

Fixpoint rstrip (s : string) : string :=
  match s with
  | EmptyString => EmptyString
  | String c s' =>
      match rstrip s' with
      | EmptyString => if is_space (chr c) then EmptyString else String c EmptyString
      | r => String c r
      end
  end.

(** [s.strip()] *)
Definition strip (s : string) : string := rstrip (lstrip s).

(** [s.replace(p, "")] for a non-empty [p]; [skip] counts the characters of
    an occurrence still to be passed over. *)
Fixpoint remove_all_from (p : string) (skip : nat) (s : string) : string :=
  match s with
  | EmptyString => EmptyString
  | String c s' =>
      match skip with
      | S k => remove_all_from p k s'
      | O =>
          if starts_with p s then remove_all_from p (String.length p - 1) s'
          else String c (remove_all_from p 0 s')
      end
  end.

Definition remove_all (p s : string) : string := remove_all_from p 0 s.

(** The type given to [ALTER TABLE ... ADD COLUMN] (lines 283-291). *)
Definition clean_type (col_type : string) : string :=
  let clean_type := strip (before "DEFAULT" col_type) in
  let clean_type :=
    if contains "PRIMARY KEY" clean_type
    then strip (remove_all "PRIMARY KEY" clean_type) else clean_type in
  let clean_type :=
    if contains "REFERENCES" clean_type
    then strip (before "REFERENCES" clean_type) else clean_type in
  if contains "SERIAL" clean_type then "INTEGER" else clean_type.

(** The required schema (lines 161-220), in the order of the dictionary. *)
Definition table_schemas : list (string * list (string * string)) :=
  [("ships",
    [("imo_number", "BIGINT PRIMARY KEY"); ("mmsi", "BIGINT"); ("name", "TEXT");
     ("ship_type", "TEXT"); ("length", "INTEGER"); ("width", "INTEGER");
     ("max_draught", "NUMERIC(5,2)")]);
   ("ship_data",
    [("id", "SERIAL PRIMARY KEY");
     ("imo_number", "BIGINT REFERENCES ships(imo_number)");
     ("timestamp_collected", "TIMESTAMP DEFAULT NOW()");
     ("timestamp_ais", "TIMESTAMP"); ("latitude", "NUMERIC(10,6)");
     ("longitude", "NUMERIC(10,6)"); ("destination", "TEXT");
     ("sog", "NUMERIC(5,2)"); ("cog", "NUMERIC(5,2)");
     ("navigational_status_code", "INTEGER"); ("rate_of_turn", "NUMERIC(5,2)");
     ("true_heading", "INTEGER")]);
   ("unknown_ships",
    [("id", "SERIAL PRIMARY KEY"); ("imo_number", "BIGINT"); ("mmsi", "BIGINT");
     ("name", "TEXT"); ("ship_type", "TEXT"); ("length", "INTEGER");
     ("width", "INTEGER"); ("max_draught", "NUMERIC(5,2)");
     ("destination", "TEXT"); ("timestamp_collected", "TIMESTAMP DEFAULT NOW()");
     ("timestamp_ais", "TIMESTAMP"); ("latitude", "NUMERIC(10,6)");
     ("longitude", "NUMERIC(10,6)"); ("sog", "NUMERIC(5,2)");
     ("cog", "NUMERIC(5,2)"); ("navigational_status_code", "INTEGER");
     ("rate_of_turn", "NUMERIC(5,2)"); ("true_heading", "INTEGER")]);
   ("ship_static_data_temp",
    [("id", "SERIAL PRIMARY KEY"); ("imo_number", "BIGINT"); ("mmsi", "BIGINT");
     ("name", "TEXT"); ("ship_type", "TEXT"); ("length", "INTEGER");
     ("width", "INTEGER"); ("max_draught", "NUMERIC(5,2)");
     ("destination", "TEXT"); ("timestamp_collected", "TIMESTAMP DEFAULT NOW()");
     ("timestamp_ais", "TIMESTAMP"); ("latitude", "NUMERIC(10,6)");
     ("longitude", "NUMERIC(10,6)")])].

(** [s.split(p, 1)[1]] for a non-empty [p] that occurs in [s]: the text
    after the first occurrence of [p]. *)
Fixpoint after (p s : string) : string :=
  if starts_with p s then String.substring (String.length p) (String.length s) s
  else match s with
       | EmptyString => EmptyString
       | String _ s' => after p s'
       end.

(** The indexes on [ship_static_data_temp], in the order they are made,
    with the columns they are on. *)
Definition static_data_indexes : list (string * list string) :=
  [("idx_ship_static_data_temp_imo_number", ["imo_number"]);
   ("idx_ship_static_data_temp_timestamp_ais", ["timestamp_ais"]);
   ("idx_ship_static_data_temp_imo_ts", ["imo_number"; "timestamp_ais"])].

(** What the migration reads and changes in the store.  Names written
    without a schema are taken to resolve to schema [public], as they do
    with the search path the store starts with.  For [public]: the columns
    of each table with the text of their type, the table each index is on
    (an index name is used once in a schema), and the columns of each
    table that have a primary key or a unique constraint of their own.
    For the other schemas, which the statements do not touch: per table
    name, the names of the columns and of the indexes of the tables of
    that name; the queries on [information_schema.columns] and
    [pg_indexes] name no schema and return them too. *)
Record catalog : Type := mk_catalog {
  cat_columns : gmap string (gmap string string);
  cat_indexes : gmap string string;
  cat_keys : gmap string (gset string);
  other_columns : gmap string (gset string);
  other_indexes : gmap string (gset string)
}.

(** [SELECT table_name FROM information_schema.tables
     WHERE table_schema = 'public'] *)
Definition public_tables (cat : catalog) : gset string := dom (cat_columns cat).

Definition columns_of (cat : catalog) (t : string) : gmap string string :=
  default ∅ (cat_columns cat !! t).

Definition indexes_of (cat : catalog) (t : string) : gset string :=
  dom (filter (fun index => index.2 = t) (cat_indexes cat)).

Definition keys_of (cat : catalog) (t : string) : gset string :=
  default ∅ (cat_keys cat !! t).

(** [SELECT column_name FROM information_schema.columns WHERE table_name = t] *)
Definition existing_columns (cat : catalog) (t : string) : gset string :=
  dom (columns_of cat t) ∪ default ∅ (other_columns cat !! t).

(** [SELECT indexname FROM pg_indexes WHERE tablename = t] *)
Definition existing_indexes (cat : catalog) (t : string) : gset string :=
  indexes_of cat t ∪ default ∅ (other_indexes cat !! t).

(** A table or an index of [public] has this name. *)
Definition relation_exists (cat : catalog) (name : string) : bool :=
  bool_decide (name ∈ public_tables cat)
  || bool_decide (is_Some (cat_indexes cat !! name)).

(** The table and column a column type refers to with
    [REFERENCES table(column)]. *)
Definition references_of (col_type : string) : option (string * string) :=
  if contains "REFERENCES" col_type then
    let target := after "REFERENCES" col_type in
    Some (strip (before "(" target), strip (before ")" (after "(" target)))
  else None.

(** Every foreign key of the columns refers to a column of a table of
    [public] that has a primary key or a unique constraint. *)
Definition references_hold (cat : catalog) (columns : list (string * string)) : bool :=
  forallb (fun col : string * string =>
             match references_of col.2 with
             | Some (t, c) => bool_decide (c ∈ keys_of cat t)
             | None => true
             end) columns.

(** The columns declared with [PRIMARY KEY] or [UNIQUE]. *)
Definition key_columns (columns : list (string * string)) : gset string :=
  list_to_set
    (map fst (List.filter (fun col : string * string =>
                             contains "PRIMARY KEY" col.2 || contains "UNIQUE" col.2)
                columns)).

(** The statements raise as the store makes them raise for what the
    catalog tells; the error is a [psycopg2.Error] that leaves the session
    up. *)
Definition statement_error : exn := Psycopg2Error false.

(** [CREATE TABLE t (columns)]: the name must be free and the foreign keys
    must hold.  The index of a primary key and the sequence of a [SERIAL]
    column are not recorded: the store gives them names that clash with
    nothing, and no statement of the migration names them or asks for
    them. *)
Definition create_table (cat : catalog) (t : string) (columns : list (string * string))
  : result catalog :=
  if relation_exists cat t then Raise statement_error
  else if references_hold cat columns then
    Ok (mk_catalog (<[t := list_to_map columns]> (cat_columns cat))
                   (cat_indexes cat)
                   (<[t := key_columns columns]> (cat_keys cat))
                   (other_columns cat) (other_indexes cat))
  else Raise statement_error.

(** [CREATE INDEX name ON t (on)]: the name must be free, and the table
    and the columns must exist. *)
Definition create_index (cat : catalog) (t name : string) (on : list string)
  : result catalog :=
  if relation_exists cat name then Raise statement_error
  else if bool_decide (t ∈ public_tables cat)
          && forallb (fun c => bool_decide (c ∈ dom (columns_of cat t))) on then
    Ok (mk_catalog (cat_columns cat) (<[name := t]> (cat_indexes cat))
                   (cat_keys cat) (other_columns cat) (other_indexes cat))
  else Raise statement_error.

(** [ALTER TABLE t ADD COLUMN c ty]: the table must exist and have no
    column of that name. *)
Definition add_column (cat : catalog) (t c ty : string) : result catalog :=
  if bool_decide (t ∈ public_tables cat)
     && negb (bool_decide (c ∈ dom (columns_of cat t))) then
    Ok (mk_catalog (<[t := <[c := ty]> (columns_of cat t)]> (cat_columns cat))
                   (cat_indexes cat) (cat_keys cat)
                   (other_columns cat) (other_indexes cat))
  else Raise statement_error.

(** A loop whose body may raise: the exception ends it. *)
Fixpoint for_each {S A : Type} (body : S -> A -> result S) (l : list A) (s : S)
  : result S :=
  match l with
  | [] => Ok s
  | x :: l' =>
      match body s x with
      | Ok s' => for_each body l' s'
      | Raise e => Raise e
      end
  end.

(** One turn of the first loop (lines 232-267). *)
Definition create_if_missing (existing_tables : gset string) (cat : catalog)
    (entry : string * list (string * string)) : result catalog :=
  let '(table_name, columns) := entry in
  if decide (table_name ∈ existing_tables) then Ok cat
  else
    match create_table cat table_name columns with
    | Raise e => Raise e
    | Ok cat =>
        if String.eqb table_name "ship_static_data_temp"
        then for_each (fun cat index => create_index cat table_name index.1 index.2)
               static_data_indexes cat
        else Ok cat
    end.

(** The inner loop over the columns of an existing table (lines 273-299). *)
Definition add_missing_columns (cat : catalog) (table_name : string)
    (columns : list (string * string)) : result catalog :=
  let existing_columns := existing_columns cat table_name in
  for_each
    (fun cat col =>
       if decide (fst col ∈ existing_columns) then Ok cat
       else add_column cat table_name (fst col) (clean_type (snd col)))
    columns cat.

(** The three index checks (lines 301-331). *)
Definition add_missing_indexes (cat : catalog) : result catalog :=
  let existing_indexes := existing_indexes cat "ship_static_data_temp" in
  for_each
    (fun cat index =>
       if decide (index.1 ∈ existing_indexes) then Ok cat
       else create_index cat "ship_static_data_temp" index.1 index.2)
    static_data_indexes cat.

(** One turn of the second loop (lines 270-331). *)
Definition complete_if_existing (existing_tables : gset string) (cat : catalog)
    (entry : string * list (string * string)) : result catalog :=
  let '(table_name, columns) := entry in
  if decide (table_name ∈ existing_tables) then
    match add_missing_columns cat table_name columns with
    | Raise e => Raise e
    | Ok cat =>
        if String.eqb table_name "ship_static_data_temp"
        then add_missing_indexes cat else Ok cat
    end
  else Ok cat.

(** The statements of the [try] block of [migrate_database] (lines
    223-331); the result is the catalog they leave when none raises. *)
Definition migrate_statements (cat : catalog) : result catalog :=
  let existing_tables := public_tables cat in
  match for_each (create_if_missing existing_tables) table_schemas cat with
  | Raise e => Raise e
  | Ok cat => for_each (complete_if_existing existing_tables) table_schemas cat
  end.

(** [migrate_database] once connected (lines 222-340): the statements and
    the commit, or, when a statement or the commit raises, the rollback,
    which leaves the store as it was; the exception is logged and not
    raised again.  [fails] stands for a failure that the catalog does not
    tell: a lost session, a missing privilege, a type the store does not
    have. *)
Definition migrate_database (fails : bool) (cat : catalog) : catalog :=
  if fails then cat
  else match migrate_statements cat with
       | Ok cat' => cat'
       | Raise _ => cat
       end.



(** The store has every table and column of the required schema, in
    [public], and the three indexes. *)
Definition schema_complete (cat : catalog) : Prop :=
  Forall (fun entry : string * list (string * string) =>
            is_Some (cat_columns cat !! entry.1)
            /\ Forall (fun col : string * string =>
                         is_Some (columns_of cat entry.1 !! col.1)) entry.2)
         table_schemas
  /\ Forall (fun index : string * list string =>
               index.1 ∈ indexes_of cat "ship_static_data_temp")
            static_data_indexes.

#[global] Instance schema_complete_dec (cat : catalog) : Decision (schema_complete cat).
Proof. unfold schema_complete. apply _. Defined.

(** No table of another schema hides what a table of [public] lacks: it
    has no column that a required table there is without, and no index
    that [ship_static_data_temp] there is without. *)
Definition nothing_hidden (cat : catalog) : Prop :=
  (forall t columns c ty,
     (t, columns) ∈ table_schemas -> (c, ty) ∈ columns ->
     is_Some (cat_columns cat !! t) ->
     c ∈ default ∅ (other_columns cat !! t) -> is_Some (columns_of cat t !! c))
  /\ (forall index,
        index ∈ static_data_indexes ->
        is_Some (cat_columns cat !! "ship_static_data_temp") ->
        index.1 ∈ default ∅ (other_indexes cat !! "ship_static_data_temp") ->
        index.1 ∈ indexes_of cat "ship_static_data_temp").

(** [cat'] has all that [cat] has: its tables, their columns with their
    types, their keys and its indexes; the indexes it has more are on
    [ship_static_data_temp]; the other schemas are as they were. *)
Definition catalog_extends (cat cat' : catalog) : Prop :=
  (forall t, is_Some (cat_columns cat !! t) -> is_Some (cat_columns cat' !! t))
  /\ (forall t, columns_of cat t ⊆ columns_of cat' t)
  /\ cat_indexes cat ⊆ cat_indexes cat'
  /\ (forall name t, cat_indexes cat' !! name = Some t ->
        cat_indexes cat !! name = Some t \/ t = "ship_static_data_temp")
  /\ (forall t, is_Some (cat_columns cat !! t) ->
        cat_keys cat' !! t = cat_keys cat !! t)
  /\ other_columns cat' = other_columns cat
  /\ other_indexes cat' = other_indexes cat.

(** The migration finds nothing to do: every required table is in
    [public], every required column is among the columns it is shown for
    the table, and so is every index. *)
Definition settled (cat : catalog) : Prop :=
  (forall t columns, (t, columns) ∈ table_schemas ->
     t ∈ public_tables cat
     /\ forall col, col ∈ columns -> col.1 ∈ existing_columns cat t)
  /\ forall index, index ∈ static_data_indexes ->
       index.1 ∈ existing_indexes cat "ship_static_data_temp".

(** The words [clean_type] is meant to take out of a column type. *)
Definition constraint_words : list string :=
  ["DEFAULT"; "PRIMARY KEY"; "REFERENCES"; "SERIAL"].

(** An old [ships] table without dimensions, as a store to migrate. *)
Definition old_catalog : catalog :=
  mk_catalog {["ships" := {["imo_number" := "BIGINT PRIMARY KEY";
                            "mmsi" := "BIGINT"; "name" := "TEXT"]}]}
             {["ships_pkey" := "ships"]}
             {["ships" := {["imo_number"]}]} ∅ ∅.

(** A [ships] table whose [imo_number] has no key, and no [ship_data]. *)
Definition keyless_catalog : catalog :=
  mk_catalog {["ships" := {["imo_number" := "BIGINT"; "mmsi" := "BIGINT"]}]}
             ∅ ∅ ∅ ∅.

(** A [ship_data] table without [id] in [public], and a table of the same
    name with a column [id] in another schema. *)
Definition shadowed_catalog : catalog :=
  mk_catalog {["ship_data" := {["latitude" := "NUMERIC(10,6)"]}]}
             ∅ ∅ {["ship_data" := {["id"]}]} ∅.

(** * Properties *)

(** ** The timestamp parser *)

Section TimestampFacts.

Lemma match_classes_sound p : forall s m r,
  match_classes p s = Some (m, r) -> s = m ++ r /\ all_match p m = true.
Proof.
  induction p as [|k p IH]; intros s m r; cbn [match_classes].
  - intros [= <- <-]. split; reflexivity.
  - destruct s as [|c s]; [discriminate|].
    destruct (cclass_matches k c) eqn:Hk; [|discriminate].
    destruct (match_classes p s) as [[m' r']|] eqn:Hm; [|discriminate].
    intros [= <- <-]. destruct (IH _ _ _ Hm) as [-> Hall].
    split; [reflexivity|]. cbn [all_match]. rewrite Hk. exact Hall.
Qed.

Lemma match_classes_complete p : forall m r,
  all_match p m = true -> match_classes p (m ++ r) = Some (m, r).
Proof.
  induction p as [|k p IH]; intros m r; destruct m as [|c m];
    cbn [all_match match_classes app]; try discriminate; try reflexivity.
  intros [Hk Hall]%andb_prop. rewrite Hk, (IH _ _ Hall). reflexivity.
Qed.

Lemma all_match_length p : forall m,
  all_match p m = true -> List.length m = List.length p.
Proof.
  induction p as [|k p IH]; intros [|c m]; cbn [all_match]; try discriminate;
    [reflexivity|].
  intros [_ Hm]%andb_prop. cbn [List.length]. f_equal. exact (IH _ Hm).
Qed.

(** What a match of a greedy repetition is made of. *)
Lemma greedy_sound {A} k lo (rest : text -> text -> option A) a :
  forall n m s,
    greedy k lo n m s rest = Some a ->
    exists m' r,
      s = m' ++ r /\ forallb (cclass_matches k) m' = true
      /\ (lo <= List.length (m ++ m'))%nat
      /\ rest (m ++ m') r = Some a.
Proof.
  assert (Hstop : forall m s,
            (if (lo <=? List.length m)%nat then rest m s else None) = Some a ->
            exists m' r,
              s = m' ++ r /\ forallb (cclass_matches k) m' = true
              /\ (lo <= List.length (m ++ m'))%nat
              /\ rest (m ++ m') r = Some a).
  { intros m s H. destruct (Nat.leb_spec lo (List.length m)); [|discriminate].
    exists [], s. rewrite app_nil_r. auto. }
  induction n as [|n IH]; intros m s; cbn [greedy]; [destruct s; apply Hstop|].
  destruct s as [|c s]; [apply Hstop|].
  destruct (cclass_matches k c) eqn:Hc; [|apply Hstop].
  destruct (greedy k lo n (m ++ [c]) s rest) as [a'|] eqn:Hg; [|apply Hstop].
  intros [= ->]. destruct (IH _ _ Hg) as (m' & r & -> & Hall & Hlen & Hrest).
  exists (c :: m'), r. rewrite <- app_assoc in Hlen, Hrest.
  cbn [forallb]. rewrite Hc. auto.
Qed.

(** The longest run is tried first. *)
Lemma greedy_longest {A} k lo (rest : text -> text -> option A) a r :
  match r with [] => True | c :: _ => cclass_matches k c = false end ->
  forall f n m,
    forallb (cclass_matches k) f = true ->
    (List.length f <= n)%nat -> (lo <= List.length (m ++ f))%nat ->
    rest (m ++ f) r = Some a ->
    greedy k lo n m (f ++ r) rest = Some a.
Proof.
  intros Hr. induction f as [|c f IH]; intros n m Hf Hn Hlo Hrest.
  - rewrite app_nil_r in Hlo, Hrest. cbn [app].
    apply Nat.leb_le in Hlo.
    destruct n as [|n]; cbn [greedy]; rewrite Hlo; [destruct r; exact Hrest|].
    destruct r as [|c r]; [exact Hrest|]. rewrite Hr. exact Hrest.
  - cbn [forallb] in Hf. apply andb_prop in Hf as [Hc Hf].
    destruct n as [|n]; [cbn in Hn; lia|]. cbn [app greedy]. rewrite Hc.
    rewrite (IH n (m ++ [c])); [reflexivity|exact Hf|cbn in Hn; lia| |];
      rewrite <- app_assoc; assumption.
Qed.

(** Below 256 the decimal digits are the ten of ASCII; above, a full-width
    two is one as well. *)
Lemma decimal_latin1 c :
  (c < 256)%N -> is_digit c = ((48 <=? c)%N && (c <=? 57)%N).
Proof.
  intros Hc.
  assert (forallb (fun n => Bool.eqb (is_digit (N.of_nat n))
                              ((48 <=? N.of_nat n)%N && (N.of_nat n <=? 57)%N))
            (seq 0 256) = true) as H by (vm_compute; reflexivity).
  rewrite forallb_forall in H. specialize (H (N.to_nat c)).
  rewrite N2Nat.id in H. apply Bool.eqb_prop, H, in_seq. lia.
Qed.

Lemma decimal_full_width : decimal 65298 = Some 2.
Proof. reflexivity. Qed.

Lemma space_not_digit w : is_space w = true -> is_digit w = false.
Proof.
  unfold is_space. rewrite existsb_exists. intros (x & Hin & Heq).
  apply N.eqb_eq in Heq. subst x. unfold whitespace in Hin. cbn [In] in Hin.
  repeat (destruct Hin as [<- | Hin]; [vm_compute; reflexivity|]).
  destruct Hin.
Qed.

Lemma match_classes_one k c r :
  match_classes [k] (c :: r)
  = if cclass_matches k c then Some ([c], r) else None.
Proof. reflexivity. Qed.

Lemma match_one_sound k s m r :
  match_classes [k] s = Some (m, r) ->
  exists c, s = c :: r /\ m = [c] /\ cclass_matches k c = true.
Proof.
  destruct s as [|c s]; [discriminate|]. rewrite match_classes_one.
  destruct (cclass_matches k c) eqn:Hc; [|discriminate].
  intros [= <- <-]. eauto.
Qed.

Lemma re_match_sound ts g :
  re_match ts = Some g -> stripped_shape ts.
Proof.
  unfold re_match.
  destruct (match_classes date_time_classes ts) as [[g1 r1]|] eqn:H1; [|discriminate].
  destruct (match_classes [Lit "."] r1) as [[dot r2]|] eqn:H2; [|discriminate].
  intros Hg. apply greedy_sound in Hg as (g2 & r3 & -> & Hdigits & Hlen & Hrest).
  cbn [app] in Hlen, Hrest.
  destruct (match_classes [Sp] r3) as [[sp r4]|] eqn:H4; [|discriminate].
  destruct (match_classes tz_classes r4) as [[g3 r5]|] eqn:H5; [|discriminate].
  destruct (at_end r5) eqn:H6; [|discriminate].
  apply match_classes_sound in H1 as [-> A1].
  apply match_one_sound in H2 as (cd & -> & _ & Hcd).
  apply match_one_sound in H4 as (w & -> & _ & Hw).
  apply match_classes_sound in H5 as [-> A5].
  cbn [cclass_matches] in Hcd, Hw. apply N.eqb_eq in Hcd as <-.
  exists g1, g2, w, g3, r5. repeat split; try assumption.
  - intros ->. cbn in Hlen. lia.
  - destruct r5 as [|c [|? ?]]; cbn [at_end] in H6; try discriminate.
    + left; reflexivity.
    + right. apply N.eqb_eq in H6 as ->. reflexivity.
Qed.

Lemma re_match_groups d f w z e :
  all_match date_time_classes d = true ->
  f <> [] -> all_digits f = true ->
  is_space w = true ->
  all_match tz_classes z = true ->
  e = [] \/ e = [newline] ->
  re_match (d ++ chr "." :: f ++ w :: z ++ e) = Some (d, f, z).
Proof.
  intros Hd Hf Hfd Hw Hz He.
  unfold re_match. rewrite (match_classes_complete _ _ _ Hd).
  rewrite match_classes_one. cbn [cclass_matches]. rewrite N.eqb_refl.
  apply greedy_longest.
  - cbn [cclass_matches]. apply space_not_digit, Hw.
  - exact Hfd.
  - rewrite length_app. lia.
  - cbn [app]. destruct f; [congruence|cbn; lia].
  - cbn [app]. rewrite match_classes_one. cbn [cclass_matches]. rewrite Hw.
    rewrite (match_classes_complete _ _ _ Hz).
    destruct He as [-> | ->]; reflexivity.
Qed.

Lemma re_match_complete ts :
  stripped_shape ts -> exists g, re_match ts = Some g.
Proof.
  intros (d & f & w & z & e & -> & Hd & Hf & Hfd & Hw & Hz & He).
  eexists. apply re_match_groups; assumption.
Qed.

Lemma parse_timestamp_only_ValueError s e :
  parse_timestamp s = Raise e -> e = ValueError.
Proof.
  unfold parse_timestamp, strptime.
  destruct (re_match (replace_UTC s)) as [[[g1 g2] g3]|]; [|congruence].
  destruct (format_match _) as [[g left_over]|]; [|congruence].
  destruct (_ && _); congruence.
Qed.

(** Texts that end with the marker and have no other letter U lose the
    marker and nothing else. *)

Lemma replace_UTC_step c1 c2 c3 c4 r4 :
  replace_UTC (c1 :: c2 :: c3 :: c4 :: r4)
  = if (c1 =? chr " ")%N && (c2 =? chr "U")%N && (c3 =? chr "T")%N
       && (c4 =? chr "C")%N
    then replace_UTC r4
    else c1 :: replace_UTC (c2 :: c3 :: c4 :: r4).
Proof. reflexivity. Qed.

Lemma replace_UTC_marker body :
  no_U body = true -> replace_UTC (body ++ str " UTC") = body.
Proof.
  induction body as [|c1 body IH]; [reflexivity|].
  unfold no_U in *. cbn [forallb]. intros [Hc Hb]%andb_prop. specialize (IH Hb).
  cbn [app]. destruct body as [|c2 body].
  - change ([] ++ str " UTC") with [chr " "; chr "U"; chr "T"; chr "C"] in *.
    rewrite replace_UTC_step. change (chr " " =? chr "U")%N with false.
    rewrite andb_false_r. cbn [andb]. f_equal; try exact IH.
  - cbn [app] in *.
    assert (H2 : (c2 =? chr "U")%N = false).
    { cbn [forallb] in Hb. apply andb_prop in Hb as [Hb _].
      destruct (c2 =? chr "U")%N; [discriminate|reflexivity]. }
    destruct (body ++ str " UTC") as [|c3 [|c4 r]] eqn:Hr.
    + change (replace_UTC [c1; c2]) with (c1 :: replace_UTC [c2]).
      f_equal; try exact IH.
    + change (replace_UTC [c1; c2; c3]) with (c1 :: replace_UTC [c2; c3]).
      f_equal; try exact IH.
    + rewrite replace_UTC_step, H2, andb_false_r. cbn [andb]. f_equal; try exact IH.
Qed.

Lemma all_match_no_U p : forall m,
  forallb (fun k => negb (cclass_matches k (chr "U"))) p = true ->
  all_match p m = true -> no_U m = true.
Proof.
  unfold no_U.
  induction p as [|k p IH]; intros [|c m]; cbn [forallb all_match];
    try discriminate; try reflexivity.
  intros [Hk Hp]%andb_prop [Hc Hm]%andb_prop.
  rewrite (IH _ Hp Hm), andb_true_r.
  destruct (N.eqb_spec c (chr "U")) as [->|]; [|reflexivity].
  rewrite Hc in Hk. discriminate.
Qed.

Lemma all_digits_no_U f : all_digits f = true -> no_U f = true.
Proof.
  unfold all_digits, no_U.
  induction f as [|c f IH]; [reflexivity|]. cbn [forallb].
  intros [Hc Hf]%andb_prop. rewrite (IH Hf), andb_true_r.
  destruct (N.eqb_spec c (chr "U")) as [->|]; [discriminate|reflexivity].
Qed.

End TimestampFacts.

(** C5 (counterexample): a text without the closing [UTC] marker is not of
    the shape the specification names, and yet it is parsed to an instant;
    so is a text whose year is written with full-width digits. *)
Lemma parse_timestamp_accepts_unmarked :
  exact_shape (str "2024-01-02 03:04:05.123456 +0000 UTC") = true
  /\ exact_shape (str "2024-01-02 03:04:05.123456 +0000") = false
  /\ parse_timestamp (str "2024-01-02 03:04:05.123456 +0000")
     = Ok (mk_datetime 2024 1 2 3 4 5 123456 0)
  /\ exact_shape ([65298; 65296; 65298; 65300]%N
                  ++ str "-01-02 03:04:05.5 +0000 UTC") = false
  /\ parse_timestamp ([65298; 65296; 65298; 65300]%N
                      ++ str "-01-02 03:04:05.5 +0000 UTC")
     = Ok (mk_datetime 2024 1 2 3 4 5 500000 0).
Proof. repeat split; vm_compute; reflexivity. Qed.

(** C5 (amended): the two texts of the specification parse to the same
    instant, the fraction being cut to six digits; a text that, once every
    [" UTC"] is removed, is not of the shape of the regular expression
    (digits being the decimal digits of Unicode, the blank before the
    offset any white-space character) fails with [ValueError], as does the
    text without an offset; and no other exception is ever raised. *)
Theorem parse_timestamp_truncates_and_rejects :
  (parse_timestamp (str "2024-01-02 03:04:05.123456789 +0000 UTC")
   = Ok (mk_datetime 2024 1 2 3 4 5 123456 0)
   /\ parse_timestamp (str "2024-01-02 03:04:05.123456 +0000 UTC")
      = Ok (mk_datetime 2024 1 2 3 4 5 123456 0))
  /\ (forall s, ~ stripped_shape (replace_UTC s) ->
                parse_timestamp s = Raise ValueError)
  /\ parse_timestamp (str "2024-01-02 03:04:05.123456 UTC") = Raise ValueError
  /\ (forall s e, parse_timestamp s = Raise e -> e = ValueError).
Proof.
  split; [split; vm_compute; reflexivity|].
  split.
  - intros s Hs. unfold parse_timestamp.
    destruct (re_match (replace_UTC s)) as [g|] eqn:Hg; [|reflexivity].
    exfalso. apply Hs. exact (re_match_sound _ _ Hg).
  - split; [vm_compute; reflexivity|]. exact parse_timestamp_only_ValueError.
Qed.

Lemma parse_timestamp_rejects_witness :
  ~ stripped_shape (replace_UTC (str "03:04:05.123456 +0000 UTC"))
  /\ parse_timestamp (str "03:04:05.123456 +0000 UTC") = Raise ValueError.
Proof.
  assert (H : ~ stripped_shape (replace_UTC (str "03:04:05.123456 +0000 UTC"))).
  { intros Hs. apply re_match_complete in Hs as [g Hg].
    vm_compute in Hg. discriminate Hg. }
  split; [exact H|].
  exact (proj1 (proj2 parse_timestamp_truncates_and_rejects) _ H).
Defined.

(** ** The region check *)

(** C10: the region check never raises: it always returns a boolean, which
    is [False] when a coordinate is absent and when the geometry test
    raises; in the loop, a geometry error makes the message count as out of
    the region and the pass end with [continue]. *)
Theorem is_point_in_north_sea_never_raises
    (lat_opt lon_opt : option Q) (shape : geoshape) :
  (exists b, is_point_in_north_sea lat_opt lon_opt shape = Ok b)
  /\ (lat_opt = None \/ lon_opt = None ->
      is_point_in_north_sea lat_opt lon_opt shape = Ok false)
  /\ (forall lat lon e,
        lat_opt = Some lat -> lon_opt = Some lon -> shape lon lat = Raise e ->
        is_point_in_north_sea lat_opt lon_opt shape = Ok false)
  /\ (forall cfg w ft s mmsi lat lon t e body,
        lat_opt = Some lat -> lon_opt = Some lon ->
        north_sea_shape w = shape -> shape lon lat = Raise e ->
        handle_message cfg w ft s
          (Message (mk_MetaData mmsi (Value lat) (Value lon) t) body)
        = Continue (set_stats s (count_filtered (stats s)))).
Proof.
  repeat split.
  - unfold is_point_in_north_sea, try_except.
    destruct lat_opt as [lat|], lon_opt as [lon|]; eauto.
    destruct (shape lon lat); eauto.
  - intros [-> | ->]; [reflexivity|]. destruct lat_opt; reflexivity.
  - intros lat lon e -> -> He. unfold is_point_in_north_sea, try_except.
    rewrite He. reflexivity.
  - intros cfg w ft s mmsi lat lon t e body -> -> Hw He.
    unfold handle_message, is_point_in_north_sea, try_except. cbn [get latitude longitude].
    rewrite Hw, He. reflexivity.
Qed.

Lemma is_point_in_north_sea_never_raises_witness :
  is_point_in_north_sea (Some 1%Q) (Some 2%Q) (fun _ _ => Raise OtherException)
  = Ok false.
Proof.
  exact (proj1 (proj2 (proj2
           (is_point_in_north_sea_never_raises (Some 1%Q) (Some 2%Q)
              (fun _ _ => Raise OtherException))))
           1%Q 2%Q OtherException eq_refl eq_refl eq_refl).
Defined.

(** ** Dimensions of a static message *)

Lemma dict_get_empty k : dict_get ∅ k = None.
Proof. unfold dict_get. rewrite lookup_empty. reflexivity. Qed.

Lemma compute_dimensions_operands f :
  compute_dimensions f
  = (add_opt (dimension_operand f "A") (dimension_operand f "B"),
     add_opt (dimension_operand f "C") (dimension_operand f "D")).
Proof.
  unfold compute_dimensions, dimension_operand.
  destruct f as [| |d]; cbn [get get_default].
  - destruct (decide (∅ = ∅)) as [_|Hne]; [reflexivity|congruence].
  - reflexivity.
  - destruct (decide (d = ∅)) as [->|_]; [|reflexivity].
    rewrite !dict_get_empty. reflexivity.
Qed.

(** C6: the length of a static message is A + B when both operands are
    present and is absent when either is missing; the width is C + D in the
    same way; and these are the values the rows of a static message with a
    valid IMO carry. *)
Theorem static_dimensions (f : field (gmap string (option Z))) :
  let length := fst (compute_dimensions f) in
  let width := snd (compute_dimensions f) in
  (forall a b, dimension_operand f "A" = Some a -> dimension_operand f "B" = Some b ->
               length = Some (a + b))
  /\ (dimension_operand f "A" = None \/ dimension_operand f "B" = None ->
      length = None)
  /\ (forall c d, dimension_operand f "C" = Some c -> dimension_operand f "D" = Some d ->
                  width = Some (c + d))
  /\ (dimension_operand f "C" = None \/ dimension_operand f "D" = None ->
      width = None)
  /\ (forall cfg s mmsi lat lon ts imo name type draught dest,
        imo <> 0 ->
        let s' := handle_static cfg s mmsi lat lon ts
                    (mk_ShipStaticData (Value imo) name type f draught dest) in
        exists r t,
          ships_batch (pending s') = ships_batch (pending s) ++ [r]
          /\ static_data_batch (pending s') = static_data_batch (pending s) ++ [t]
          /\ s_length r = length /\ s_width r = width
          /\ t_length t = length /\ t_width t = width).
Proof.
  cbv zeta. rewrite compute_dimensions_operands. cbn [fst snd].
  repeat split.
  - intros a b -> ->. reflexivity.
  - intros [-> | ->]; [reflexivity|].
    destruct (dimension_operand f "A"); reflexivity.
  - intros c d -> ->. reflexivity.
  - intros [-> | ->]; [reflexivity|].
    destruct (dimension_operand f "C"); reflexivity.
  - intros cfg s mmsi lat lon ts imo name type draught dest Himo.
    unfold handle_static. rewrite compute_dimensions_operands.
    cbn [get ImoNumber Dimension valid_imo truthy].
    apply Z.eqb_neq in Himo. rewrite Himo. cbn [negb].
    eexists _, _.
    destruct mmsi as [m|]; [destruct (truthy (Some m))|];
      cbn; repeat split; reflexivity.
Qed.

Lemma static_dimensions_witness :
  fst (compute_dimensions (Value {["A" := Some 100; "B" := Some 50;
                                   "C" := Some 10; "D" := Some 10]}))
  = Some 150.
Proof.
  exact (proj1 (static_dimensions
                  (Value {["A" := Some 100; "B" := Some 50;
                           "C" := Some 10; "D" := Some 10]}))
           100 50 eq_refl eq_refl).
Defined.

(** ** The vessel registry *)

Section Registry.

Implicit Types (t : list ship_row) (r : ship_row) (i j : Z).

Lemma rows_with_imo_cons x t i :
  rows_with_imo (x :: t) i
  = if decide (s_imo_number x = i) then x :: rows_with_imo t i
    else rows_with_imo t i.
Proof. reflexivity. Qed.

Lemma rows_with_imo_app t1 t2 i :
  rows_with_imo (t1 ++ t2) i = rows_with_imo t1 i ++ rows_with_imo t2 i.
Proof. apply filter_app. Qed.

Lemma no_conflict_no_rows t i :
  existsb (fun x => s_imo_number x =? i) t = false -> rows_with_imo t i = [].
Proof.
  induction t as [|x t IH]; [reflexivity|]. cbn [existsb].
  intros [Hx Ht]%orb_false_elim. rewrite rows_with_imo_cons.
  apply Z.eqb_neq in Hx. destruct (decide (s_imo_number x = i)); [contradiction|].
  exact (IH Ht).
Qed.

Lemma conflict_some_row t i :
  existsb (fun x => s_imo_number x =? i) t = true -> rows_with_imo t i <> [].
Proof.
  induction t as [|x t IH]; [discriminate|]. cbn [existsb].
  rewrite rows_with_imo_cons. destruct (decide (s_imo_number x = i)) as [|Hne].
  - discriminate.
  - apply Z.eqb_neq in Hne. rewrite Hne. exact IH.
Qed.

Lemma rows_after_update t r j :
  rows_with_imo
    (map (fun x => if s_imo_number x =? s_imo_number r
                   then conflict_update x r else x) t) j
  = if decide (j = s_imo_number r)
    then map (fun x => conflict_update x r) (rows_with_imo t j)
    else rows_with_imo t j.
Proof.
  induction t as [|x t IH]; [destruct (decide _); reflexivity|].
  cbn [map]. rewrite !rows_with_imo_cons, IH.
  destruct (Z.eqb_spec (s_imo_number x) (s_imo_number r)) as [Heq|Hne];
    cbn [conflict_update s_imo_number];
    destruct (decide (j = s_imo_number r)) as [->|Hj];
    destruct (decide (s_imo_number x = _)); try congruence; reflexivity.
Qed.

Lemma rows_upsert_same t r :
  rows_with_imo (upsert_ship t r) (s_imo_number r)
  = match rows_with_imo t (s_imo_number r) with
    | [] => [r]
    | l => map (fun x => conflict_update x r) l
    end.
Proof.
  unfold upsert_ship.
  destruct (existsb _ t) eqn:He.
  - rewrite rows_after_update. destruct (decide _); [|congruence].
    apply conflict_some_row in He.
    destruct (rows_with_imo t (s_imo_number r)); [congruence|reflexivity].
  - rewrite rows_with_imo_app, (no_conflict_no_rows _ _ He).
    rewrite rows_with_imo_cons. destruct (decide _); [reflexivity|congruence].
Qed.

Lemma rows_upsert_other t r j :
  j <> s_imo_number r ->
  rows_with_imo (upsert_ship t r) j = rows_with_imo t j.
Proof.
  intros Hj. unfold upsert_ship. destruct (existsb _ t).
  - rewrite rows_after_update. destruct (decide _); [congruence|reflexivity].
  - rewrite rows_with_imo_app, rows_with_imo_cons.
    destruct (decide _); [congruence|]. apply app_nil_r.
Qed.

Lemma upsert_keeps_primary_key t r :
  primary_key t -> primary_key (upsert_ship t r).
Proof.
  intros Hpk j. destruct (decide (j = s_imo_number r)) as [->|Hj].
  - rewrite rows_upsert_same. specialize (Hpk (s_imo_number r)).
    destruct (rows_with_imo t (s_imo_number r)) as [|x l]; [cbn; lia|].
    rewrite length_map. exact Hpk.
  - rewrite (rows_upsert_other _ _ _ Hj). apply Hpk.
Qed.

Lemma upsert_ships_keeps_primary_key rows : forall t,
  primary_key t -> primary_key (upsert_ships t rows).
Proof.
  induction rows as [|x rows IH]; intros t Hpk; [exact Hpk|].
  apply IH, upsert_keeps_primary_key, Hpk.
Qed.

(** Rows with one IMO, upserted one after the other into a registry that
    respects its primary key, leave exactly one row for that IMO; its name,
    type, length, width and draught are those of the last row, and its MMSI
    is the one the registry had for that IMO before, or the one of the
    first row when the registry had none. *)
Lemma upsert_ships_last_write_wins (msgs : list ship_row) : forall t (m : ship_row) i,
  primary_key t ->
  (forall x, x ∈ msgs -> s_imo_number x = i) ->
  s_imo_number m = i ->
  exists row,
    rows_with_imo (upsert_ships t (msgs ++ [m])) i = [row]
    /\ s_name row = s_name m
    /\ s_ship_type row = s_ship_type m
    /\ s_length row = s_length m
    /\ s_width row = s_width m
    /\ s_max_draught row = s_max_draught m
    /\ s_mmsi row = match rows_with_imo t i with
                    | old :: _ => s_mmsi old
                    | [] => s_mmsi (hd m msgs)
                    end.
Proof.
  induction msgs as [|x msgs IH]; intros t m i Hpk Hall Hm.
  - change (upsert_ships t ([] ++ [m])) with (upsert_ship t m).
    cbn [hd]. subst i. rewrite (rows_upsert_same t m).
    specialize (Hpk (s_imo_number m)).
    destruct (rows_with_imo t (s_imo_number m)) as [|old [|? ?]];
      [exists m | exists (conflict_update old m) | cbn in Hpk; lia];
      repeat split; reflexivity.
  - assert (Hx : s_imo_number x = i) by (apply Hall; left).
    change (upsert_ships t ((x :: msgs) ++ [m]))
      with (upsert_ships (upsert_ship t x) (msgs ++ [m])).
    destruct (IH (upsert_ship t x) m i) as (row & Hrow & Hn & Hty & Hl & Hw & Hd & Hmm).
    + apply upsert_keeps_primary_key, Hpk.
    + intros y Hy. apply Hall. right. exact Hy.
    + exact Hm.
    + exists row. repeat split; try assumption.
      rewrite Hmm, <- Hx, (rows_upsert_same t x).
      specialize (Hpk (s_imo_number x)).
      destruct (rows_with_imo t (s_imo_number x)) as [|old [|? ?]];
        [reflexivity | reflexivity | cbn in Hpk; lia].
Qed.

End Registry.

(** ** The identity cache *)

Section Resolve.

Variable w : world.
Hypothesis scan_permutes : forall t, scan w t ≡ₚ t.

Lemma select_imo_by_mmsi_row d m imo :
  select_imo_by_mmsi w d m = Some imo ->
  exists row, row ∈ ships d /\ s_mmsi row = Some m /\ s_imo_number row = imo.
Proof.
  unfold select_imo_by_mmsi.
  destruct (filter _ (scan w (ships d))) as [|r l] eqn:Hf; [discriminate|].
  intros [= <-]. exists r.
  assert (Hr : r ∈ filter (fun x => s_mmsi x = Some m) (scan w (ships d)))
    by (rewrite Hf; left).
  apply list_elem_of_filter in Hr as [Hm Hin].
  rewrite (scan_permutes (ships d)) in Hin. auto.
Qed.

Lemma select_imo_by_mmsi_miss d m :
  (forall row, row ∈ ships d -> s_mmsi row <> Some m) ->
  select_imo_by_mmsi w d m = None.
Proof.
  intros Hnone. destruct (select_imo_by_mmsi w d m) as [imo|] eqn:Hs; [|reflexivity].
  apply select_imo_by_mmsi_row in Hs as (row & Hin & Hm & _).
  destruct (Hnone row Hin Hm).
Qed.

Lemma store_queries_call c k :
  store_queries (call c k)
  = (store_queries c + if is_select_imo k then 1 else 0)%nat.
Proof.
  unfold store_queries, call. cbn [calls].
  rewrite List.filter_app, List.length_app. cbn [List.filter].
  destruct (is_select_imo k); reflexivity.
Qed.

Lemma resolve_on_miss ft s m :
  mmsi_to_imo s !! m = None ->
  resolve w ft s (Some m)
  = let '(found, c) := find_imo_by_mmsi w ft (conn s) (Some m) in
    match found with
    | Some imo =>
        (Some imo,
         set_unique_vessels_with_imo
           (set_mmsi_to_imo (set_conn s c) (<[m := imo]> (mmsi_to_imo s)))
           ({[m]} ∪ unique_vessels_with_imo s))
    | None => (None, set_conn s c)
    end.
Proof.
  intros Hmiss. unfold resolve. cbn [mbind option_bind]. rewrite Hmiss.
  destruct (find_imo_by_mmsi w ft (conn s) (Some m)) as [[imo|] c]; reflexivity.
Qed.

Lemma filter_first {A} (P : A -> Prop) `{forall x, Decision (P x)} (l : list A) x rest :
  filter P l = x :: rest ->
  exists before after,
    l = before ++ x :: after /\ P x /\ forall y, y ∈ before -> ~ P y.
Proof.
  induction l as [|y l IH]; [discriminate|].
  rewrite filter_cons. destruct (decide (P y)) as [Hy|Hy].
  - intros [= -> _]. exists [], l. repeat split; [exact Hy|].
    intros z Hz. apply elem_of_nil in Hz. destruct Hz.
  - intros Hf. destruct (IH Hf) as (before & after & -> & Hx & Hbefore).
    exists (y :: before), after. repeat split; [exact Hx|].
    intros z [-> | Hz]%elem_of_cons; [exact Hy|exact (Hbefore z Hz)].
Qed.

Lemma select_imo_by_mmsi_first d m row :
  row ∈ ships d -> s_mmsi row = Some m ->
  exists before first after,
    scan w (ships d) = before ++ first :: after
    /\ s_mmsi first = Some m
    /\ (forall x, x ∈ before -> s_mmsi x <> Some m)
    /\ select_imo_by_mmsi w d m = Some (s_imo_number first).
Proof.
  intros Hin Hm. unfold select_imo_by_mmsi.
  destruct (filter (fun x => s_mmsi x = Some m) (scan w (ships d))) as [|first l] eqn:Hf.
  - exfalso. rewrite <- (scan_permutes (ships d)) in Hin.
    assert (row ∈ filter (fun x => s_mmsi x = Some m) (scan w (ships d))) as Hrow
      by (apply list_elem_of_filter; auto).
    rewrite Hf in Hrow. apply elem_of_nil in Hrow. destruct Hrow.
  - destruct (filter_first _ _ _ _ Hf) as (before & after & Hscan & Hfirst & Hbefore).
    exists before, first, after. auto.
Qed.

(** C7 (amended): with no entry for the MMSI in the mapping, [resolve] asks
    the store at most once.  For an MMSI other than 0 and a query that does
    not fail, the answer is the IMO of the first row with that MMSI in the
    store's scan order, whenever the registry has such a row, and absent
    when it has none; for MMSI 0, for which no query is made, and for a
    query that fails, the answer is absent.  An IMO that is returned is
    written into the mapping, so that a second call returns the same IMO
    and leaves the connection untouched; an absent result leaves the
    mapping as it was. *)
Theorem resolve_caches (ft ft' : faults) (s : state) (m : Z) :
  mmsi_to_imo s !! m = None ->
  let r := resolve w ft s (Some m) in
  (store_queries (conn (snd r)) <= store_queries (conn s) + 1)%nat
  /\ (forall imo, fst r = Some imo ->
        (exists row, row ∈ ships (view (conn s))
                     /\ s_mmsi row = Some m /\ s_imo_number row = imo)
        /\ mmsi_to_imo (snd r) !! m = Some imo
        /\ fst (resolve w ft' (snd r) (Some m)) = Some imo
        /\ conn (snd (resolve w ft' (snd r) (Some m))) = conn (snd r))
  /\ ((forall row, row ∈ ships (view (conn s)) -> s_mmsi row <> Some m) ->
      fst r = None)
  /\ (fst r = None -> mmsi_to_imo (snd r) = mmsi_to_imo s)
  /\ (m <> 0 -> select_error ft = false ->
      forall row, row ∈ ships (view (conn s)) -> s_mmsi row = Some m ->
      exists before first after,
        scan w (ships (view (conn s))) = before ++ first :: after
        /\ s_mmsi first = Some m
        /\ (forall x, x ∈ before -> s_mmsi x <> Some m)
        /\ fst r = Some (s_imo_number first))
  /\ (m = 0 -> fst r = None /\ conn (snd r) = conn s)
  /\ (select_error ft = true -> fst r = None).
Proof.
  intros Hmiss. cbv zeta. rewrite (resolve_on_miss ft s m Hmiss).
  unfold find_imo_by_mmsi. cbn [truthy].
  destruct (Z.eqb_spec m 0) as [Hm0|Hm0]; cbn [negb].
  { cbn. repeat split; try lia; try discriminate; try contradiction. }
  destruct (select_error ft) eqn:Herr.
  { cbn [fst snd set_conn conn mmsi_to_imo]. rewrite store_queries_call. cbn.
    repeat split; try lia; try discriminate; try contradiction. }
  destruct (select_imo_by_mmsi w (view (conn s)) m) as [imo|] eqn:Hsel.
  - cbn [fst snd set_conn set_mmsi_to_imo set_unique_vessels_with_imo conn mmsi_to_imo].
    rewrite store_queries_call. cbn [is_select_imo].
    split; [lia|]. split; [|split; [|split; [discriminate|split; [|split]]]].
    + intros imo' [= <-]. split; [exact (select_imo_by_mmsi_row _ _ _ Hsel)|].
      split; [apply lookup_insert_eq|].
      unfold resolve.
      cbn [mbind option_bind mmsi_to_imo set_unique_vessels_with_imo
           set_mmsi_to_imo set_conn].
      rewrite lookup_insert_eq. split; reflexivity.
    + intros Hnone. rewrite (select_imo_by_mmsi_miss _ _ Hnone) in Hsel.
      discriminate.
    + intros _ _ row Hin Hrow.
      destruct (select_imo_by_mmsi_first _ _ _ Hin Hrow)
        as (before & first & after & H1 & H2 & H3 & H4).
      exists before, first, after. rewrite <- H4, Hsel. auto.
    + contradiction.
    + discriminate.
  - cbn [fst snd set_conn conn mmsi_to_imo]. rewrite store_queries_call. cbn.
    split; [lia|]. split; [discriminate|]. split; [reflexivity|].
    split; [reflexivity|]. split; [|split; [contradiction|discriminate]].
    intros _ _ row Hin Hrow.
    destruct (select_imo_by_mmsi_first _ _ _ Hin Hrow)
      as (before & first & after & _ & _ & _ & H4).
    rewrite Hsel in H4. discriminate.
Qed.

End Resolve.

Lemma resolve_caches_witness :
  fst (resolve sample_world no_faults (initial_state shared_mmsi_db) (Some 244000001))
  = Some 9000001
  /\ (store_queries
        (conn (snd (resolve sample_world no_faults (initial_state shared_mmsi_db)
                      (Some 244000001%Z)))) <= 0 + 1)%nat.
Proof.
  split; [reflexivity|].
  exact (proj1 (resolve_caches sample_world (fun t => Permutation_refl t)
                  no_faults no_faults (initial_state shared_mmsi_db) 244000001
                  eq_refl)).
Defined.

(** C7 (counterexample): two registry rows share an MMSI; the store, which
    scans in insertion order, answers with the IMO of the first, and the
    row inserted last has another IMO. *)
Lemma resolve_not_most_recent :
  fst (resolve sample_world no_faults (initial_state shared_mmsi_db) (Some 244000001))
  = Some 9000001
  /\ most_recent_match (ships (view (conn (initial_state shared_mmsi_db)))) 244000001
     = Some 9000002.
Proof. split; reflexivity. Qed.

(** ** Messages that pass the filters *)

Lemma passes_filters_next cfg w ft s metadata body :
  passes_filters w (Message metadata body) = true ->
  exists lat lon dt,
    get (latitude metadata) = Some lat
    /\ get (longitude metadata) = Some lon
    /\ handle_message cfg w ft s (Message metadata body)
       = Next (match body with
               | StaticPayload ship_data =>
                   handle_static cfg s (get (MMSI metadata)) lat lon (strftime dt) ship_data
               | PositionPayload position_data =>
                   handle_position cfg w ft s (get (MMSI metadata)) lat lon
                     (strftime dt) position_data
               | OtherPayload => s
               end).
Proof.
  unfold passes_filters, handle_message, is_point_in_north_sea, try_except.
  destruct (get (latitude metadata)) as [lat|]; [|discriminate].
  destruct (get (longitude metadata)) as [lon|]; [|discriminate].
  destruct (north_sea_shape w lon lat) as [bs|e]; [|discriminate].
  destruct (any bs); [|discriminate]. cbn [andb].
  destruct (get_default (time_utc metadata) (str "")) as [raw|]; [|discriminate].
  destruct (parse_timestamp raw) as [dt|e]; [|discriminate].
  intros _. exists lat, lon, dt. destruct body; auto.
Qed.

Lemma fails_filters_skips cfg w ft s msg :
  passes_filters w msg = false ->
  (exists s', handle_message cfg w ft s msg = Continue s'
              /\ conn s' = conn s /\ pending s' = pending s)
  \/ (exists e, handle_message cfg w ft s msg = Escape e s).
Proof.
  unfold passes_filters, handle_message, is_point_in_north_sea, try_except.
  destruct msg as [|metadata body]; [left; eauto|].
  destruct (get (latitude metadata)) as [lat|]; [|left; eauto].
  destruct (get (longitude metadata)) as [lon|]; [|left; eauto].
  destruct (north_sea_shape w lon lat) as [bs|e]; [|left; eauto].
  destruct (any bs); [|left; eauto]. cbn [andb].
  destruct (get_default (time_utc metadata) (str "")) as [raw|]; [|right; eauto].
  destruct (parse_timestamp raw) as [dt|e] eqn:Hp; [discriminate|].
  intros _. apply parse_timestamp_only_ValueError in Hp as ->. left; eauto.
Qed.

Lemma resolve_frame w ft s mmsi :
  pending (snd (resolve w ft s mmsi)) = pending s
  /\ stats (snd (resolve w ft s mmsi)) = stats s.
Proof.
  unfold resolve. destruct mmsi as [m|]; cbn [mbind option_bind]; [|auto].
  destruct (mmsi_to_imo s !! m); [auto|].
  destruct (find_imo_by_mmsi w ft (conn s) (Some m)) as [[imo|] c]; auto.
Qed.

Lemma resolve_unique_vessels w ft s u mmsi :
  fst (resolve w ft (set_unique_vessels s u) mmsi) = fst (resolve w ft s mmsi).
Proof.
  unfold resolve. destruct mmsi as [m|]; cbn [mbind option_bind]; [|reflexivity].
  cbn [set_unique_vessels mmsi_to_imo conn].
  destruct (mmsi_to_imo s !! m); [reflexivity|].
  destruct (find_imo_by_mmsi w ft (conn s) (Some m)) as [[imo|] c]; reflexivity.
Qed.

Section PositionReports.

Variables (cfg : config) (w : world) (ft : faults).

Lemma append_not_same {A} (l : list A) (x : A) : l ++ [x] <> l.
Proof.
  intros H. apply (f_equal List.length) in H. rewrite List.length_app in H.
  cbn in H. lia.
Qed.

Lemma handle_position_effect s mmsi lat lon ts position_data :
  let s1 := handle_position cfg w ft s mmsi lat lon ts position_data in
  match fst (resolve w ft s mmsi) with
  | Some imo => position_appended s s1 imo
  | None =>
      if SAVE_NO_IMO_VESSELS cfg then unidentified_appended s s1 mmsi
      else discarded_and_counted s s1
  end.
Proof.
  cbv zeta. unfold handle_position.
  set (s0 := match mmsi with
             | Some m => if truthy mmsi
                         then set_unique_vessels s ({[m]} ∪ unique_vessels s) else s
             | None => s
             end).
  assert (Hres : fst (resolve w ft s0 mmsi) = fst (resolve w ft s mmsi)).
  { unfold s0. destruct mmsi as [m|]; [|reflexivity].
    destruct (truthy (Some m)); [apply resolve_unique_vessels|reflexivity]. }
  assert (Hp0 : pending s0 = pending s /\ stats s0 = stats s).
  { unfold s0. destruct mmsi as [m|]; [|auto]. destruct (truthy (Some m)); auto. }
  destruct Hp0 as [E1 E2].
  destruct (resolve_frame w ft s0 mmsi) as [Hp Hs].
  rewrite <- Hres.
  destruct (resolve w ft s0 mmsi) as [[imo|] s2]; cbn [fst snd] in *.
  - destruct (get_recent_destination w ft (conn s2) imo) as [destination c].
    eexists. cbn. rewrite ?Hp, ?Hs, ?E1, ?E2. repeat split; reflexivity.
  - destruct (SAVE_NO_IMO_VESSELS cfg).
    + eexists. cbn. rewrite ?Hp, ?Hs, ?E1, ?E2. repeat split; reflexivity.
    + split; cbn; rewrite ?Hp, ?Hs, ?E1, ?E2; reflexivity.
Qed.

(** C2: a position report that passes the region filter and whose timestamp
    parses has exactly one of three outcomes: a position observation with
    the resolved IMO is appended; or the IMO is unresolved, the retention
    switch is on and an unidentified observation is appended; or the IMO is
    unresolved, the switch is off, nothing is appended and the no-IMO
    counter goes up by one. *)
Theorem position_report_outcome (s : state) (metadata : MetaData)
    (position_data : PositionReport) :
  passes_filters w (Message metadata (PositionPayload position_data)) = true ->
  exists s1,
    handle_message cfg w ft s (Message metadata (PositionPayload position_data))
    = Next s1
    /\ let mmsi := get (MMSI metadata) in
       let resolved := fst (resolve w ft s mmsi) in
       let A := exists imo, resolved = Some imo /\ position_appended s s1 imo in
       let B := resolved = None /\ SAVE_NO_IMO_VESSELS cfg = true
                /\ unidentified_appended s s1 mmsi in
       let C := resolved = None /\ SAVE_NO_IMO_VESSELS cfg = false
                /\ discarded_and_counted s s1 in
       (A /\ ~ unidentified_appended s s1 mmsi /\ ~ discarded_and_counted s s1)
       \/ (B /\ (forall imo, ~ position_appended s s1 imo)
             /\ ~ discarded_and_counted s s1)
       \/ (C /\ (forall imo, ~ position_appended s s1 imo)
             /\ ~ unidentified_appended s s1 mmsi).
Proof.
  intros Hpass.
  destruct (passes_filters_next cfg w ft s _ _ Hpass) as (lat & lon & dt & _ & _ & ->).
  eexists. split; [reflexivity|]. cbv zeta.
  pose proof (handle_position_effect s (get (MMSI metadata)) lat lon
                (strftime dt) position_data) as Heff.
  cbv zeta in Heff.
  set (s1 := handle_position cfg w ft s (get (MMSI metadata)) lat lon
               (strftime dt) position_data) in *.
  destruct (fst (resolve w ft s (get (MMSI metadata)))) as [imo|].
  - left. split; [exists imo; auto|].
    destruct Heff as (row & Hpos & _ & Hunk & Hcnt). split.
    + intros (row' & Hunk' & _). rewrite Hunk in Hunk'.
      symmetry in Hunk'. exact (append_not_same _ _ Hunk').
    + intros [_ Hcnt']. rewrite Hcnt in Hcnt'. lia.
  - right. destruct (SAVE_NO_IMO_VESSELS cfg).
    + left. split; [auto|].
      destruct Heff as (row & Hunk & _ & _ & Hpos & Hcnt). split.
      * intros imo (row' & Hpos' & _). rewrite Hpos in Hpos'.
        symmetry in Hpos'. exact (append_not_same _ _ Hpos').
      * intros [_ Hcnt']. rewrite Hcnt in Hcnt'. lia.
    + right. split; [auto|].
      destruct Heff as [Hpend Hcnt]. split.
      * intros imo (row' & Hpos' & _). rewrite Hpend in Hpos'.
        symmetry in Hpos'. exact (append_not_same _ _ Hpos').
      * intros (row' & Hunk' & _). rewrite Hpend in Hunk'.
        symmetry in Hunk'. exact (append_not_same _ _ Hunk').
Qed.

End PositionReports.

Lemma position_report_outcome_witness :
  exists s1,
    handle_message default_config sample_world no_faults (initial_state empty_db)
      (Message (sample_metadata 230000001 53 4) (PositionPayload sample_position))
    = Next s1
    /\ discarded_and_counted (initial_state empty_db) s1.
Proof.
  destruct (position_report_outcome default_config sample_world no_faults
              (initial_state empty_db) (sample_metadata 230000001 53 4)
              sample_position)
    as (s1 & Hs1 & Hcases).
  - vm_compute. reflexivity.
  - exists s1. split; [exact Hs1|].
    destruct Hcases as [[(imo & Himo & _) _] | [[(_ & Hsave & _) _] | [(_ & _ & HC) _]]].
    + vm_compute in Himo. discriminate Himo.
    + discriminate Hsave.
    + exact HC.
Defined.

(** ** Absent coordinates *)

(** C8 (counterexample): a message without a latitude ends the pass with the
    state as it was; the filtered counter is not incremented, and it is
    for a position outside the region. *)
Lemma absent_position_not_counted :
  process_message default_config sample_world no_faults (initial_state empty_db)
    (Message metadata_without_latitude (PositionPayload sample_position)) 1
  = Continue (initial_state empty_db)
  /\ filtered_count (stats (initial_state empty_db)) = 0
  /\ filtered_count
       (stats (state_of
          (process_message default_config sample_world no_faults (initial_state empty_db)
             (Message (sample_metadata 230000001 40 4) (PositionPayload sample_position)) 1)))
     = 1.
Proof. repeat split. Qed.

(** ** Start-up *)

Section Startup.

Variable cfg : config.
Variable ok : nat -> bool.

Lemma attempts_made_app l1 l2 :
  attempts_made (l1 ++ l2) = attempts_made l1 ++ attempts_made l2.
Proof. apply omap_app. Qed.

Lemma pauses_app l1 l2 : pauses (l1 ++ l2) = pauses l1 ++ pauses l2.
Proof. apply omap_app. Qed.

Lemma initial_connection_cons attempt rest log :
  initial_connection cfg ok (attempt :: rest) log
  = if ok attempt then Connected (log ++ [ConnectAttempt attempt])
    else
      if (attempt =? MAX_DB_RETRIES cfg - 1)%nat
      then Returned
             ((log ++ [ConnectAttempt attempt;
                       LogError "Database connection attempt failed"])
              ++ [LogError "Maximum database connection attempts reached. Exiting."])
      else initial_connection cfg ok rest
             ((log ++ [ConnectAttempt attempt;
                       LogError "Database connection attempt failed"])
              ++ [Sleep (2 ^ Z.of_nat attempt)]).
Proof. reflexivity. Qed.

Lemma initial_connection_all_fail : forall n k log,
  (forall a, (k <= a < k + S n)%nat -> ok a = false) ->
  MAX_DB_RETRIES cfg = (k + S n)%nat ->
  exists log',
    initial_connection cfg ok (seq k (S n)) log
    = Returned (log ++ log'
                ++ [LogError "Maximum database connection attempts reached. Exiting."])
    /\ attempts_made log' = seq k (S n)
    /\ pauses log' = map (fun a => 2 ^ Z.of_nat a) (seq k n).
Proof.
  induction n as [|n IH]; intros k log Hfail Hmax.
  - change (seq k 1) with [k]. rewrite initial_connection_cons, Hfail by lia.
    replace (k =? MAX_DB_RETRIES cfg - 1)%nat with true
      by (symmetry; apply Nat.eqb_eq; lia).
    eexists [_; _]. rewrite <- !app_assoc. split; [reflexivity|]. split; reflexivity.
  - change (seq k (S (S n))) with (k :: seq (S k) (S n)).
    rewrite initial_connection_cons, Hfail by lia.
    replace (k =? MAX_DB_RETRIES cfg - 1)%nat with false
      by (symmetry; apply Nat.eqb_neq; lia).
    destruct (IH (S k)
                ((log ++ [ConnectAttempt k; LogError "Database connection attempt failed"])
                 ++ [Sleep (2 ^ Z.of_nat k)]))
      as (log' & Heq & Hat & Hpa).
    + intros a Ha. apply Hfail. lia.
    + lia.
    + rewrite Heq.
      exists ([ConnectAttempt k; LogError "Database connection attempt failed";
               Sleep (2 ^ Z.of_nat k)] ++ log').
      split; [rewrite <- !app_assoc; reflexivity|].
      rewrite attempts_made_app, pauses_app, Hat, Hpa. split; reflexivity.
Qed.

Lemma initial_connection_success : forall n k log a,
  (k <= a < k + n)%nat -> (k + n <= MAX_DB_RETRIES cfg)%nat ->
  ok a = true -> (forall b, (k <= b < a)%nat -> ok b = false) ->
  exists log',
    initial_connection cfg ok (seq k n) log = Connected (log ++ log')
    /\ attempts_made log' = seq k (S a - k)
    /\ pauses log' = map (fun b => 2 ^ Z.of_nat b) (seq k (a - k)).
Proof.
  induction n as [|n IH]; intros k log a Ha Hmax Hok Hbefore; [lia|].
  change (seq k (S n)) with (k :: seq (S k) n). rewrite initial_connection_cons.
  destruct (decide (a = k)) as [->|Hne].
  - rewrite Hok. exists [ConnectAttempt k]. split; [reflexivity|].
    replace (S k - k)%nat with 1%nat by lia.
    replace (k - k)%nat with 0%nat by lia. split; reflexivity.
  - rewrite Hbefore by lia.
    replace (k =? MAX_DB_RETRIES cfg - 1)%nat with false
      by (symmetry; apply Nat.eqb_neq; lia).
    destruct (IH (S k)
                ((log ++ [ConnectAttempt k; LogError "Database connection attempt failed"])
                 ++ [Sleep (2 ^ Z.of_nat k)]) a)
      as (log' & Heq & Hat & Hpa); try lia; try assumption.
    + intros b Hb. apply Hbefore. lia.
    + rewrite Heq.
      exists ([ConnectAttempt k; LogError "Database connection attempt failed";
               Sleep (2 ^ Z.of_nat k)] ++ log').
      split; [rewrite <- !app_assoc; reflexivity|].
      rewrite attempts_made_app, pauses_app, Hat, Hpa.
      replace (S a - k)%nat with (S (S a - S k)) by lia.
      replace (a - k)%nat with (S (a - S k)) by lia. split; reflexivity.
Qed.

End Startup.

(** C9 (counterexample): with the store unreachable on each of the three
    attempts, the process ends with status 0. *)
Lemma startup_failure_exits_zero :
  (forall a, connect_ok store_unreachable a = false)
  /\ fst (main default_config store_unreachable) = Exit 0
  /\ attempts_made (snd (main default_config store_unreachable)) = [0; 1; 2]%nat
  /\ pauses (snd (main default_config store_unreachable)) = [1; 2].
Proof. repeat split. Qed.

(** C9 (amended): once the migration step has connected and the boundary
    file has loaded, the connection of the collector is attempted up to
    [MAX_DB_RETRIES] times, with pauses of 1, 2, 4, ... seconds between
    attempts; the first success enters the receive loop; when every
    attempt fails the cause is logged, [connect_ais_stream] returns and the
    process ends, with exit status 0.  A connection failure in the
    migration step is not retried: it is logged and the process ends with
    status 0 as well. *)
Theorem startup_retries (cfg : config) (sw : startup_world) :
  (migrate_connect_ok sw = true -> shapefile_exists sw = true ->
   shapefile_loads sw = true -> (1 <= MAX_DB_RETRIES cfg)%nat ->
   (forall a, (a < MAX_DB_RETRIES cfg)%nat -> connect_ok sw a = false) ->
   exists log,
     main cfg sw = (Exit 0, log)
     /\ attempts_made log = seq 0 (MAX_DB_RETRIES cfg)
     /\ pauses log = map (fun a => 2 ^ Z.of_nat a) (seq 0 (MAX_DB_RETRIES cfg - 1))
     /\ last log = Some (LogError "Maximum database connection attempts reached. Exiting."))
  /\ (forall a,
        migrate_connect_ok sw = true -> shapefile_exists sw = true ->
        shapefile_loads sw = true -> (a < MAX_DB_RETRIES cfg)%nat ->
        connect_ok sw a = true -> (forall b, (b < a)%nat -> connect_ok sw b = false) ->
        exists log,
          main cfg sw = (ReceiveLoop, log)
          /\ attempts_made log = seq 0 (S a)
          /\ pauses log = map (fun b => 2 ^ Z.of_nat b) (seq 0 a))
  /\ (migrate_connect_ok sw = false ->
      fst (main cfg sw) = Exit 0 /\ attempts_made (snd (main cfg sw)) = []).
Proof.
  split; [|split].
  - intros Hm He Hl Hmax Hfail. unfold main, connect_ais_stream_startup.
    rewrite Hm, He, Hl. cbn [negb].
    destruct (MAX_DB_RETRIES cfg) as [|n] eqn:Hn; [lia|].
    destruct (initial_connection_all_fail cfg (connect_ok sw) n 0 [])
      as (log' & Heq & Hat & Hpa).
    + intros a Ha. apply Hfail. lia.
    + exact Hn.
    + rewrite Heq. eexists. split; [reflexivity|].
      cbn [app]. rewrite attempts_made_app, pauses_app, Hat, Hpa, last_snoc.
      replace (S n - 1)%nat with n by lia.
      cbn. rewrite !app_nil_r. repeat split; reflexivity.
  - intros a Hm He Hl Ha Hok Hbefore. unfold main, connect_ais_stream_startup.
    rewrite Hm, He, Hl. cbn [negb].
    destruct (initial_connection_success cfg (connect_ok sw)
                (MAX_DB_RETRIES cfg) 0 [] a)
      as (log' & Heq & Hat & Hpa); try lia; try assumption.
    + intros b Hb. apply Hbefore. lia.
    + rewrite Heq. exists log'. split; [reflexivity|].
      rewrite Hat, Hpa. replace (S a - 0)%nat with (S a) by lia.
      replace (a - 0)%nat with a by lia. split; reflexivity.
  - intros Hm. unfold main. rewrite Hm. split; reflexivity.
Qed.

Lemma startup_retries_witness :
  exists log,
    main default_config store_unreachable = (Exit 0, log)
    /\ attempts_made log = [0; 1; 2]%nat
    /\ pauses log = [1; 2].
Proof.
  destruct (proj1 (startup_retries default_config store_unreachable))
    as (log & Hmain & Hat & Hpa & _);
    try reflexivity.
  - cbn. lia.
  - exists log. repeat split; assumption.
Defined.

(** ** The flush *)

Section Flush.

Variable ft : faults.

Lemma flushes_app_call c k :
  List.length (List.filter ends_transaction (calls c ++ [k]))
  = (flushes c + if ends_transaction k then 1 else 0)%nat.
Proof.
  unfold flushes. rewrite List.filter_app, List.length_app. cbn [List.filter].
  destruct (ends_transaction k); reflexivity.
Qed.

Lemma flushes_call c k :
  flushes (call c k) = (flushes c + if ends_transaction k then 1 else 0)%nat.
Proof. apply flushes_app_call. Qed.

Lemma flushes_rollback c : flushes (rollback c) = S (flushes c).
Proof. unfold flushes at 1, rollback. cbn [calls]. rewrite flushes_app_call. cbn. lia. Qed.

Lemma flushes_commit c : flushes (commit c) = S (flushes c).
Proof. unfold flushes at 1, commit. cbn [calls]. rewrite flushes_app_call. cbn. lia. Qed.

Lemma flushes_reconnect c : flushes (reconnect c) = flushes c.
Proof. unfold flushes at 1, reconnect. cbn [calls]. rewrite flushes_app_call. cbn. lia. Qed.

Lemma step_frame_refl s : step_frame s s.
Proof. repeat split. Qed.

Lemma step_frame_trans s1 s2 s3 :
  step_frame s1 s2 -> step_frame s2 s3 -> step_frame s1 s3.
Proof. unfold step_frame. intros (-> & -> & ->) (-> & -> & ->). repeat split. Qed.

Lemma flush_batch_frame {R} t (write : db -> list R -> db) rows clear s r s' :
  flush_batch ft t write rows clear s = (r, s') ->
  step_frame s s' /\ (forall e, r = Raise e -> exists op, e = Psycopg2Error op).
Proof.
  unfold flush_batch, executemany.
  destruct (rows (pending s)) as [|x l].
  - intros [= <- <-]. split; [apply step_frame_refl|discriminate].
  - destruct (executemany_error ft t) as [op|].
    + intros [= <- <-]. split; [apply step_frame_refl|]. intros e [= <-]. eauto.
    + intros [= <- <-]. split; [|discriminate].
      repeat split. cbn [conn set_pending set_conn]. unfold flushes at 1. cbn [calls].
      rewrite flushes_app_call. cbn. lia.
Qed.

Lemma db_eta d :
  mk_db (ships d) (ship_static_data_temp d) (ship_data d) (unknown_ships d) = d.
Proof. destruct d; reflexivity. Qed.

Ltac flush_batch_ok :=
  unfold flush_batch, executemany;
  let s := match goal with |- context [pending ?s] => s end in
  destruct s as [c mp k u ui [sb tb pb ub] lt];
  cbn [pending conn ships_batch static_data_batch position_data_batch unknown_data_batch];
  match goal with
  | |- context [match ?l with [] => _ | _ :: _ => _ end] => destruct l
  end;
  [ intros [= <-]; cbn;
    unfold write_ships, write_static, write_position, write_unknown;
    cbn; rewrite ?app_nil_r, ?db_eta; repeat split; reflexivity
  | match goal with
    | |- context [executemany_error ft ?t] => destruct (executemany_error ft t)
    end;
    [discriminate | intros [= <-]; repeat split; reflexivity] ].

Lemma flush_ships_ok s s' :
  flush_batch ft Ships write_ships ships_batch clear_ships s = (Ok tt, s') ->
  view (conn s') = write_ships (view (conn s)) (ships_batch (pending s))
  /\ pending s' = clear_ships (pending s).
Proof. flush_batch_ok. Qed.

Lemma flush_static_ok s s' :
  flush_batch ft ShipStaticDataTemp write_static static_data_batch clear_static s
  = (Ok tt, s') ->
  view (conn s') = write_static (view (conn s)) (static_data_batch (pending s))
  /\ pending s' = clear_static (pending s).
Proof. flush_batch_ok. Qed.

Lemma flush_position_ok s s' :
  flush_batch ft ShipData write_position position_data_batch clear_position s
  = (Ok tt, s') ->
  view (conn s') = write_position (view (conn s)) (position_data_batch (pending s))
  /\ pending s' = clear_position (pending s).
Proof. flush_batch_ok. Qed.

Lemma flush_unknown_ok s s' :
  flush_batch ft UnknownShips write_unknown unknown_data_batch clear_unknown s
  = (Ok tt, s') ->
  view (conn s') = write_unknown (view (conn s)) (unknown_data_batch (pending s))
  /\ pending s' = clear_unknown (pending s).
Proof. flush_batch_ok. Qed.

Lemma flush_try_result now s :
  match flush_try ft now s with
  | (Ok _, s') =>
      committed (conn s') = apply_all (view (conn s)) (pending s)
      /\ pending s' = empty_batches
      /\ last_commit_time s' = now
      /\ flushes (conn s') = S (flushes (conn s))
  | (Raise e, s') => step_frame s s' /\ exists op, e = Psycopg2Error op
  end.
Proof.
  unfold flush_try, bind.
  destruct (flush_batch ft Ships _ _ _ s) as [[[]|e] s1] eqn:H1;
    [|destruct (flush_batch_frame _ _ _ _ _ _ _ H1) as [F1 E1]; eauto].
  destruct (flush_batch ft ShipStaticDataTemp _ _ _ s1) as [[[]|e] s2] eqn:H2;
    [|destruct (flush_batch_frame _ _ _ _ _ _ _ H1) as [F1 _];
      destruct (flush_batch_frame _ _ _ _ _ _ _ H2) as [F2 E2];
      split; [eapply step_frame_trans; eassumption|eauto]].
  destruct (flush_batch ft ShipData _ _ _ s2) as [[[]|e] s3] eqn:H3;
    [|destruct (flush_batch_frame _ _ _ _ _ _ _ H1) as [F1 _];
      destruct (flush_batch_frame _ _ _ _ _ _ _ H2) as [F2 _];
      destruct (flush_batch_frame _ _ _ _ _ _ _ H3) as [F3 E3];
      split; [eapply step_frame_trans; [eapply step_frame_trans|]; eassumption|eauto]].
  destruct (flush_batch ft UnknownShips _ _ _ s3) as [[[]|e] s4] eqn:H4;
    [|destruct (flush_batch_frame _ _ _ _ _ _ _ H1) as [F1 _];
      destruct (flush_batch_frame _ _ _ _ _ _ _ H2) as [F2 _];
      destruct (flush_batch_frame _ _ _ _ _ _ _ H3) as [F3 _];
      destruct (flush_batch_frame _ _ _ _ _ _ _ H4) as [F4 E4];
      split; [do 2 (eapply step_frame_trans; [|eassumption]);
              eapply step_frame_trans; eassumption|eauto]].
  assert (F : step_frame s s4).
  { destruct (flush_batch_frame _ _ _ _ _ _ _ H1) as [F1 _];
    destruct (flush_batch_frame _ _ _ _ _ _ _ H2) as [F2 _];
    destruct (flush_batch_frame _ _ _ _ _ _ _ H3) as [F3 _];
    destruct (flush_batch_frame _ _ _ _ _ _ _ H4) as [F4 _].
    do 2 (eapply step_frame_trans; [|eassumption]).
    eapply step_frame_trans; eassumption. }
  unfold commit_stmt, try_commit.
  destruct (commit_error ft) as [op|]; [split; [exact F|eauto]|].
  apply flush_ships_ok in H1 as [V1 P1]. apply flush_static_ok in H2 as [V2 P2].
  apply flush_position_ok in H3 as [V3 P3]. apply flush_unknown_ok in H4 as [V4 P4].
  destruct F as (_ & Ffl & _).
  cbn [conn set_conn set_last_commit_time pending last_commit_time commit committed].
  split; [|split; [|split; [reflexivity|]]].
  - rewrite V4, V3, V2, V1, P3, P2, P1. reflexivity.
  - rewrite P4, P3, P2, P1. reflexivity.
  - rewrite <- Ffl. apply (flushes_commit (conn s4)).
Qed.

(** Each flush ends one transaction, by a commit or by a rollback. *)
Lemma flush_ends_one_transaction s now :
  flushes (conn (flush ft s now)) = S (flushes (conn s)).
Proof.
  unfold flush. pose proof (flush_try_result now s) as H.
  destruct (flush_try ft now s) as [[[]|e] s'].
  - apply H.
  - destruct H as [(_ & Hfl & _) [op ->]].
    destruct op; cbn [conn set_conn]; rewrite ?flushes_reconnect, flushes_rollback;
      cbn [conn set_conn]; rewrite Hfl; reflexivity.
Qed.

(** The store sees a flush whole or not at all: either nothing is committed,
    or the four lists are committed together and the lists are empty. *)
Lemma flush_atomic s now :
  let s' := flush ft s now in
  (committed (conn s') = committed (conn s)
   /\ view (conn s') = committed (conn s)
   /\ last_commit_time s' = last_commit_time s)
  \/ (committed (conn s') = apply_all (view (conn s)) (pending s)
      /\ pending s' = empty_batches
      /\ last_commit_time s' = now).
Proof.
  cbv zeta. unfold flush. pose proof (flush_try_result now s) as H.
  destruct (flush_try ft now s) as [[[]|e] s'].
  - right. destruct H as (? & ? & ? & _). auto.
  - left. destruct H as [(Hc & _ & Hl) [op ->]].
    destruct op; cbn; auto.
Qed.

End Flush.

(** ** When the flush happens *)

Section FlushCondition.

Variables (cfg : config) (w : world) (ft : faults).

Ltac state_cbn :=
  cbn [conn pending stats last_commit_time mmsi_to_imo
       set_conn set_pending set_stats set_mmsi_to_imo set_unique_vessels
       set_unique_vessels_with_imo set_last_commit_time fst snd].

Ltac count_pending :=
  unfold pending_count, batch_len, append_ship, append_static, append_position,
    append_unknown;
  cbn [ships_batch static_data_batch position_data_batch unknown_data_batch];
  rewrite ?List.length_app; cbn [List.length]; lia.

Lemma handle_static_frame s mmsi lat lon ts ship_data :
  let s1 := handle_static cfg s mmsi lat lon ts ship_data in
  conn s1 = conn s
  /\ last_commit_time s1 = last_commit_time s
  /\ pending_count (pending s) <= pending_count (pending s1)
     <= pending_count (pending s) + 2.
Proof.
  cbv zeta. unfold handle_static.
  destruct (compute_dimensions (Dimension ship_data)) as [len wid].
  destruct mmsi as [m|]; [destruct (truthy (Some m))|];
    destruct (get (ImoNumber ship_data)) as [imo|];
    try destruct (valid_imo (Some imo));
    destruct (SAVE_NO_IMO_VESSELS cfg);
    try change (valid_imo None) with false;
    state_cbn; (split; [reflexivity|split; [reflexivity|count_pending]]).
Qed.

Lemma resolve_conn_frame s mmsi :
  flushes (conn (snd (resolve w ft s mmsi))) = flushes (conn s)
  /\ last_commit_time (snd (resolve w ft s mmsi)) = last_commit_time s.
Proof.
  unfold resolve, find_imo_by_mmsi.
  destruct mmsi as [m|]; cbn [mbind option_bind]; [|auto].
  destruct (mmsi_to_imo s !! m); [auto|].
  destruct (truthy (Some m)); cbn [negb]; [|auto].
  destruct (select_error ft);
    [|destruct (select_imo_by_mmsi w (view (conn s)) m)];
    state_cbn; rewrite flushes_call; cbn [is_select_imo ends_transaction];
    split; first [lia|reflexivity].
Qed.

Lemma get_recent_destination_flushes c imo :
  flushes (snd (get_recent_destination w ft c imo)) = flushes c.
Proof.
  unfold get_recent_destination.
  destruct (imo =? 0); [reflexivity|].
  destruct (select_error ft); cbn [snd]; rewrite flushes_call; cbn; lia.
Qed.

Lemma handle_position_frame s mmsi lat lon ts position_data :
  let s1 := handle_position cfg w ft s mmsi lat lon ts position_data in
  flushes (conn s1) = flushes (conn s)
  /\ last_commit_time s1 = last_commit_time s
  /\ pending_count (pending s) <= pending_count (pending s1)
     <= pending_count (pending s) + 2.
Proof.
  cbv zeta. unfold handle_position.
  set (s0 := match mmsi with
             | Some m => if truthy mmsi
                         then set_unique_vessels s ({[m]} ∪ unique_vessels s) else s
             | None => s
             end).
  assert (H0 : conn s0 = conn s /\ last_commit_time s0 = last_commit_time s
               /\ pending s0 = pending s).
  { unfold s0. destruct mmsi as [m|]; [|auto]. destruct (truthy (Some m)); auto. }
  destruct H0 as (Hc0 & Hl0 & Hp0).
  destruct (resolve_conn_frame s0 mmsi) as [Hfl Hlt].
  destruct (resolve_frame w ft s0 mmsi) as [Hp _].
  rewrite Hc0 in Hfl. rewrite Hl0 in Hlt. rewrite Hp0 in Hp.
  destruct (resolve w ft s0 mmsi) as [[imo|] s2]; cbn [fst snd] in *.
  - pose proof (get_recent_destination_flushes (conn s2) imo) as Hd.
    destruct (get_recent_destination w ft (conn s2) imo) as [destination c].
    cbn [snd] in Hd. state_cbn. rewrite Hp.
    split; [lia|split; [exact Hlt|count_pending]].
  - destruct (SAVE_NO_IMO_VESSELS cfg); state_cbn; rewrite Hp;
      (split; [exact Hfl|split; [exact Hlt|count_pending]]).
Qed.

Lemma report_stats_conn s now : conn (report_stats s now) = conn s.
Proof. unfold report_stats. destruct (Qle_bool _ _); reflexivity. Qed.

Lemma report_stats_pending s now : pending (report_stats s now) = pending s.
Proof. unfold report_stats. destruct (Qle_bool _ _); reflexivity. Qed.

Lemma handle_message_frame s msg s1 :
  handle_message cfg w ft s msg = Next s1 ->
  flushes (conn s1) = flushes (conn s)
  /\ last_commit_time s1 = last_commit_time s
  /\ pending_count (pending s) <= pending_count (pending s1)
     <= pending_count (pending s) + 2.
Proof.
  destruct (passes_filters w msg) eqn:Hpass.
  - destruct msg as [|metadata body]; [discriminate|].
    destruct (passes_filters_next cfg w ft s _ _ Hpass) as (lat & lon & dt & _ & _ & ->).
    intros [= <-]. destruct body as [ship_data|position_data|].
    + destruct (handle_static_frame s (get (MMSI metadata)) lat lon (strftime dt) ship_data)
        as (-> & ? & ?). auto.
    + apply handle_position_frame.
    + repeat split; lia.
  - destruct (fails_filters_skips cfg w ft s msg Hpass)
      as [(s' & -> & _) | (e & ->)]; discriminate.
Qed.

(** C3 (counterexample): with pending records and twenty seconds since the
    last commit, a message without a latitude ends its pass with no flush;
    and with a batch size of 3 and two records pending, a static message
    with a valid IMO appends the third and the fourth record before any
    flush. *)
Lemma flush_not_after_every_message :
  (flush_due default_config two_positions_pending 20 = true
   /\ process_message default_config sample_world no_faults two_positions_pending
        (Message metadata_without_latitude (PositionPayload sample_position)) 20
      = Continue two_positions_pending)
  /\ (BATCH_SIZE small_batches = 3
      /\ pending_count (pending two_positions_pending) = 2
      /\ pending_count
           (pending (state_of
              (handle_message small_batches sample_world no_faults two_positions_pending
                 (Message (sample_metadata 230000001 53 4)
                    (StaticPayload (sample_static (Value 9123456)))))))
         = 4
      /\ flushes
           (conn (state_of
              (handle_message small_batches sample_world no_faults two_positions_pending
                 (Message (sample_metadata 230000001 53 4)
                    (StaticPayload (sample_static (Value 9123456)))))))
         = 0%nat).
Proof. repeat split. Qed.

(** C3 (amended): a message that passes the filters reaches the flush check
    with at most two records more than before (a static message with a
    valid IMO appends two at once); there a flush is made if and only if
    the combined pending count is at least the batch size or at least 10
    seconds have passed since the last commit.  A message that is discarded
    before (no type, no position, out of the region, bad timestamp) leaves
    the lists as they are and makes no flush. *)
Theorem flush_when_due (s : state) (msg : message) (now : Q) :
  (passes_filters w msg = true ->
   exists s1 s',
     handle_message cfg w ft s msg = Next s1
     /\ process_message cfg w ft s msg now = Next s'
     /\ flushes (conn s1) = flushes (conn s)
     /\ pending_count (pending s) <= pending_count (pending s1)
        <= pending_count (pending s) + 2
     /\ (BATCH_SIZE cfg <= pending_count (pending s1)
         \/ (10 <= now - last_commit_time s)%Q ->
         flushes (conn s') = S (flushes (conn s)))
     /\ (~ (BATCH_SIZE cfg <= pending_count (pending s1)
            \/ (10 <= now - last_commit_time s)%Q) ->
         flushes (conn s') = flushes (conn s) /\ pending s' = pending s1))
  /\ (passes_filters w msg = false ->
      flushes (conn (state_of (process_message cfg w ft s msg now)))
      = flushes (conn s)
      /\ pending (state_of (process_message cfg w ft s msg now)) = pending s).
Proof.
  split.
  - intros Hpass. destruct msg as [|metadata body]; [discriminate|].
    destruct (passes_filters_next cfg w ft s _ _ Hpass) as (lat & lon & dt & _ & _ & Hh).
    destruct (handle_message_frame _ _ _ Hh) as (Hfl & Hlt & Hcnt).
    unfold process_message. rewrite Hh.
    match type of Hh with _ = Next ?x => set (s1 := x) in * end.
    exists s1. eexists. split; [reflexivity|]. split; [reflexivity|].
    split; [exact Hfl|]. split; [exact Hcnt|].
    rewrite report_stats_conn, report_stats_pending.
    unfold flush_due. rewrite Hlt.
    destruct (Z.leb_spec (BATCH_SIZE cfg) (pending_count (pending s1))) as [Hsize|Hsize];
      cbn [orb].
    + split; [|intros Hn; exfalso; apply Hn; left; exact Hsize].
      intros _. rewrite flush_ends_one_transaction, Hfl. reflexivity.
    + destruct (Qle_bool 10 (now - last_commit_time s)) eqn:Htime.
      * split; [|intros Hn; exfalso; apply Hn; right;
                 apply Qle_bool_iff; exact Htime].
        intros _. rewrite flush_ends_one_transaction, Hfl. reflexivity.
      * split.
        -- intros [Hs | Ht]; [lia|]. apply Qle_bool_iff in Ht. congruence.
        -- intros _. split; [exact Hfl|reflexivity].
  - intros Hfail. unfold process_message.
    destruct (fails_filters_skips cfg w ft s msg Hfail)
      as [(s' & -> & Hc & Hp) | (e & ->)]; cbn [state_of].
    + rewrite Hc, Hp. split; reflexivity.
    + split; reflexivity.
Qed.

End FlushCondition.

Lemma flush_when_due_witness :
  exists s1 s',
    handle_message small_batches sample_world no_faults two_positions_pending
      (Message (sample_metadata 230000001 53 4) (PositionPayload sample_position))
    = Next s1
    /\ process_message small_batches sample_world no_faults two_positions_pending
         (Message (sample_metadata 230000001 53 4) (PositionPayload sample_position)) 1
       = Next s'
    /\ flushes (conn s') = 0%nat.
Proof.
  destruct (proj1 (flush_when_due small_batches sample_world no_faults
                     two_positions_pending
                     (Message (sample_metadata 230000001 53 4)
                        (PositionPayload sample_position)) 1))
    as (s1 & s' & H1 & H2 & _ & _ & _ & Hno).
  - vm_compute. reflexivity.
  - exists s1, s'. split; [exact H1|]. split; [exact H2|].
    apply Hno. injection H1 as <-. vm_compute. intros [Hc | Hc]; apply Hc; reflexivity.
Defined.

(** ** Records and a failed flush *)

(** C1 (the code at a failing input): a ship record and a position record
    are pending and the insert of the position record is refused.  The
    flush rolls the transaction back, so the store holds neither record,
    and the list of ship records is empty all the same: the ship record is
    neither stored nor pending.  On a lost connection
    [process_pending_batches] rolls back in the same way and the handler
    then empties the four lists. *)
Theorem failed_flush_loses_records :
  let s' := flush position_write_fails ship_and_position_pending 20 in
  committed (conn s') = empty_db
  /\ ships_batch (pending ship_and_position_pending) = [sample_ship_row]
  /\ ships_batch (pending s') = []
  /\ position_data_batch (pending s') = [sample_position_row]
  /\ committed (conn (snd (on_connection_closed position_write_fails None false true
                             ship_and_position_pending))) = empty_db
  /\ pending (snd (on_connection_closed position_write_fails None false true
                     ship_and_position_pending)) = empty_batches.
Proof. repeat split. Qed.

(** * Further properties *)

(** ** Digits past the sixth *)

Section Truncation.

(** The text [d.f z UTC] loses its marker and is matched with the groups
    [d], [f] and [z]. *)
Lemma parse_timestamp_of_parts d f z :
  all_match date_time_classes d = true ->
  f <> [] -> all_digits f = true ->
  all_match tz_classes z = true ->
  parse_timestamp (d ++ str "." ++ f ++ str " " ++ z ++ str " UTC")
  = strptime (d ++ str "." ++ take 6 f ++ z).
Proof.
  intros Hd Hf Hfd Hz. unfold parse_timestamp.
  replace (d ++ str "." ++ f ++ str " " ++ z ++ str " UTC")
    with ((d ++ str "." ++ f ++ str " " ++ z) ++ str " UTC")
    by (rewrite <- !app_assoc; reflexivity).
  rewrite replace_UTC_marker.
  - change (d ++ str "." ++ f ++ str " " ++ z)
      with (d ++ chr "." :: f ++ chr " " :: z).
    rewrite <- (app_nil_r z) at 1.
    rewrite (re_match_groups d f (chr " ") z [] Hd Hf Hfd eq_refl Hz
               (or_introl eq_refl)).
    reflexivity.
  - unfold no_U. rewrite !forallb_app.
    fold (no_U d) (no_U f) (no_U z).
    rewrite (all_match_no_U date_time_classes _ eq_refl Hd),
      (all_digits_no_U _ Hfd), (all_match_no_U tz_classes _ eq_refl Hz).
    reflexivity.
Qed.

(** X1: in a text of the documented form, digits of the fraction past the
    sixth do not matter: the text with six digits followed by any further
    digits parses to what the text with the six digits alone parses to,
    instant or error. *)
Theorem parse_timestamp_drops_digits_past_six (d f g z : text) :
  all_match date_time_classes d = true ->
  all_digits f = true -> List.length f = 6%nat ->
  all_digits g = true ->
  all_match tz_classes z = true ->
  parse_timestamp (d ++ str "." ++ (f ++ g) ++ str " " ++ z ++ str " UTC")
  = parse_timestamp (d ++ str "." ++ f ++ str " " ++ z ++ str " UTC").
Proof.
  intros Hd Hf Hlen Hg Hz.
  assert (Hne : f <> []) by (intros ->; discriminate Hlen).
  rewrite (parse_timestamp_of_parts d (f ++ g) z), (parse_timestamp_of_parts d f z);
    try assumption.
  - rewrite <- Hlen, take_app_length, firstn_all. reflexivity.
  - destruct f; [congruence|discriminate].
  - unfold all_digits in *. rewrite forallb_app, Hf, Hg. reflexivity.
Qed.

End Truncation.

Lemma parse_timestamp_drops_digits_past_six_witness :
  parse_timestamp (str "2024-01-02 03:04:05" ++ str "." ++ (str "123456" ++ str "789")
                   ++ str " " ++ str "+0130" ++ str " UTC")
  = parse_timestamp (str "2024-01-02 03:04:05" ++ str "." ++ str "123456"
                     ++ str " " ++ str "+0130" ++ str " UTC").
Proof.
  exact (parse_timestamp_drops_digits_past_six
           (str "2024-01-02 03:04:05") (str "123456") (str "789") (str "+0130")
           eq_refl eq_refl eq_refl eq_refl eq_refl).
Defined.

(** ** The mapping loaded at start-up *)

Section LoadMapping.

Variable w : world.
Hypothesis scan_permutes : forall t, scan w t ≡ₚ t.

Lemma load_fold_sound (l : list ship_row) : forall (m0 : gmap Z Z) k i,
  fold_left
    (fun mmsi_to_imo row =>
       match s_mmsi row with
       | Some mmsi =>
           if truthy (Some mmsi) && truthy (Some (s_imo_number row))
           then <[mmsi := s_imo_number row]> mmsi_to_imo
           else mmsi_to_imo
       | None => mmsi_to_imo
       end) l m0 !! k = Some i ->
  m0 !! k = Some i
  \/ (k <> 0 /\ i <> 0
      /\ exists row, row ∈ l /\ s_mmsi row = Some k /\ s_imo_number row = i).
Proof.
  induction l as [|r l IH]; intros m0 k i; cbn [fold_left]; [auto|].
  intros H. apply IH in H as [H | (Hk & Hi & row & Hin & Hm & Himo)].
  - destruct (s_mmsi r) as [mmsi|] eqn:Hr; [|auto].
    destruct (truthy (Some mmsi) && truthy (Some (s_imo_number r))) eqn:Ht; [|auto].
    destruct (decide (mmsi = k)) as [->|Hne].
    + rewrite lookup_insert_eq in H. injection H as <-.
      apply andb_prop in Ht as [Ht1 Ht2]. cbn [truthy] in Ht1, Ht2.
      apply negb_true_iff, Z.eqb_neq in Ht1. apply negb_true_iff, Z.eqb_neq in Ht2.
      right. repeat split; try assumption. exists r. split; [left|auto].
    + rewrite lookup_insert_ne in H by assumption. auto.
  - right. repeat split; try assumption. exists row. split; [right; exact Hin|auto].
Qed.

Lemma load_fold_keeps (l : list ship_row) : forall (m0 : gmap Z Z) k,
  is_Some (m0 !! k) ->
  is_Some
    (fold_left
       (fun mmsi_to_imo row =>
          match s_mmsi row with
          | Some mmsi =>
              if truthy (Some mmsi) && truthy (Some (s_imo_number row))
              then <[mmsi := s_imo_number row]> mmsi_to_imo
              else mmsi_to_imo
          | None => mmsi_to_imo
          end) l m0 !! k).
Proof.
  induction l as [|r l IH]; intros m0 k Hk; cbn [fold_left]; [exact Hk|].
  apply IH. destruct (s_mmsi r) as [mmsi|]; [|exact Hk].
  destruct (truthy (Some mmsi) && truthy (Some (s_imo_number r))); [|exact Hk].
  destruct (decide (mmsi = k)) as [->|Hne].
  - rewrite lookup_insert_eq. eauto.
  - rewrite lookup_insert_ne by assumption. exact Hk.
Qed.

Lemma load_fold_complete (l : list ship_row) : forall (m0 : gmap Z Z) row k,
  row ∈ l -> s_mmsi row = Some k -> k <> 0 -> s_imo_number row <> 0 ->
  is_Some
    (fold_left
       (fun mmsi_to_imo row =>
          match s_mmsi row with
          | Some mmsi =>
              if truthy (Some mmsi) && truthy (Some (s_imo_number row))
              then <[mmsi := s_imo_number row]> mmsi_to_imo
              else mmsi_to_imo
          | None => mmsi_to_imo
          end) l m0 !! k).
Proof.
  induction l as [|r l IH]; intros m0 row k Hin Hm Hk Hi.
  - inversion Hin.
  - cbn [fold_left]. apply elem_of_cons in Hin as [<- | Hin].
    + apply load_fold_keeps. rewrite Hm. cbn [truthy].
      apply Z.eqb_neq in Hk, Hi. rewrite Hk, Hi. cbn [negb andb].
      rewrite lookup_insert_eq. eauto.
    + eapply IH; eassumption.
Qed.

Lemma load_sound ft c m i :
  load_mmsi_to_imo_mapping w ft c !! m = Some i ->
  m <> 0 /\ i <> 0
  /\ exists row, row ∈ ships (view c)
                 /\ s_mmsi row = Some m /\ s_imo_number row = i.
Proof.
  unfold load_mmsi_to_imo_mapping. destruct (select_error ft).
  - rewrite lookup_empty. discriminate.
  - intros H. apply load_fold_sound in H as [H | (Hm & Hi & row & Hin & Hr)].
    + rewrite lookup_empty in H. discriminate.
    + rewrite (scan_permutes (ships (view c))) in Hin. eauto.
Qed.

Lemma load_complete ft c row m :
  select_error ft = false ->
  row ∈ ships (view c) -> s_mmsi row = Some m ->
  m <> 0 -> s_imo_number row <> 0 ->
  is_Some (load_mmsi_to_imo_mapping w ft c !! m).
Proof.
  unfold load_mmsi_to_imo_mapping. intros -> Hin Hm Hm0 Hi.
  eapply load_fold_complete; try eassumption.
  rewrite (scan_permutes (ships (view c))). exact Hin.
Qed.

(** X2: every entry of the mapping loaded at start-up is the MMSI and the
    IMO, both non-zero, of a registry row; every registry row with a
    non-zero MMSI and a non-zero IMO gives its MMSI an entry when the query
    succeeds; and a failed query gives the empty mapping. *)
Theorem load_mmsi_to_imo_mapping_entries (ft : faults) (c : connection) :
  (forall m i,
     load_mmsi_to_imo_mapping w ft c !! m = Some i ->
     m <> 0 /\ i <> 0
     /\ exists row, row ∈ ships (view c)
                    /\ s_mmsi row = Some m /\ s_imo_number row = i)
  /\ (select_error ft = false ->
      forall row m,
        row ∈ ships (view c) -> s_mmsi row = Some m ->
        m <> 0 -> s_imo_number row <> 0 ->
        is_Some (load_mmsi_to_imo_mapping w ft c !! m))
  /\ (select_error ft = true -> load_mmsi_to_imo_mapping w ft c = ∅).
Proof.
  split; [|split].
  - intros m i. apply load_sound.
  - intros Hsel row m. apply load_complete, Hsel.
  - unfold load_mmsi_to_imo_mapping. intros ->. reflexivity.
Qed.

(** X3: after start-up, a position report whose MMSI is that of a registry
    row with non-zero MMSI and IMO is resolved from the loaded mapping: the
    IMO is that of a registry row with this MMSI, and the store connection
    is not used. *)
Theorem resolve_after_load (ft ft' : faults) (c : connection) (t1 t2 : Q)
    (row : ship_row) (m : Z) :
  select_error ft = false ->
  row ∈ ships (view c) -> s_mmsi row = Some m ->
  m <> 0 -> s_imo_number row <> 0 ->
  let r := resolve w ft' (startup_state w ft c t1 t2) (Some m) in
  exists i,
    fst r = Some i
    /\ conn (snd r) = c
    /\ exists row', row' ∈ ships (view c)
                    /\ s_mmsi row' = Some m /\ s_imo_number row' = i.
Proof.
  intros Hsel Hin Hm Hm0 Hi. cbv zeta.
  destruct (load_complete ft c row m Hsel Hin Hm Hm0 Hi) as [i Hload].
  exists i. unfold resolve. cbn [mbind option_bind startup_state mmsi_to_imo].
  rewrite Hload. cbn [fst snd set_unique_vessels_with_imo conn].
  split; [reflexivity|]. split; [reflexivity|].
  apply (load_sound ft c m i Hload).
Qed.

End LoadMapping.

Lemma load_mmsi_to_imo_mapping_entries_witness :
  is_Some (load_mmsi_to_imo_mapping sample_world no_faults
             (mk_connection shared_mmsi_db shared_mmsi_db []) !! 244000001).
Proof.
  refine (proj1 (proj2 (load_mmsi_to_imo_mapping_entries sample_world
                          (fun t => Permutation_refl t) no_faults
                          (mk_connection shared_mmsi_db shared_mmsi_db [])))
            eq_refl
            (mk_ship_row 9000001 (Some 244000001) (Some "FIRST") None None None None)
            244000001 _ eq_refl _ _).
  - left.
  - discriminate.
  - discriminate.
Defined.

Lemma resolve_after_load_witness :
  exists i,
    fst (resolve sample_world no_faults
           (startup_state sample_world no_faults
              (mk_connection shared_mmsi_db shared_mmsi_db []) 0 0)
           (Some 244000001)) = Some i
    /\ conn (snd (resolve sample_world no_faults
                    (startup_state sample_world no_faults
                       (mk_connection shared_mmsi_db shared_mmsi_db []) 0 0)
                    (Some 244000001)))
       = mk_connection shared_mmsi_db shared_mmsi_db [].
Proof.
  destruct (resolve_after_load sample_world (fun t => Permutation_refl t)
              no_faults no_faults
              (mk_connection shared_mmsi_db shared_mmsi_db []) 0 0
              (mk_ship_row 9000001 (Some 244000001) (Some "FIRST") None None None None)
              244000001 eq_refl)
    as (i & Hi & Hc & _).
  - left.
  - reflexivity.
  - discriminate.
  - discriminate.
  - exists i. split; assumption.
Defined.

(** ** What the flush and the report leave alone *)

Section Bookkeeping.

Variable ft : faults.

Lemma same_bookkeeping_refl s : same_bookkeeping s s.
Proof. repeat split. Qed.

Lemma same_bookkeeping_trans s1 s2 s3 :
  same_bookkeeping s1 s2 -> same_bookkeeping s2 s3 -> same_bookkeeping s1 s3.
Proof.
  unfold same_bookkeeping. intros (-> & -> & -> & ->) (-> & -> & -> & ->).
  repeat split.
Qed.

Lemma flush_batch_bookkeeping {R} t (write : db -> list R -> db) rows clear s r s' :
  flush_batch ft t write rows clear s = (r, s') -> same_bookkeeping s s'.
Proof.
  unfold flush_batch, executemany.
  destruct (rows (pending s)); [intros [= <- <-]; apply same_bookkeeping_refl|].
  destruct (executemany_error ft t); intros [= <- <-]; repeat split.
Qed.

Lemma flush_try_bookkeeping now s r s' :
  flush_try ft now s = (r, s') -> same_bookkeeping s s'.
Proof.
  unfold flush_try, bind.
  destruct (flush_batch ft Ships _ _ _ s) as [[[]|e1] s1] eqn:H1;
    apply flush_batch_bookkeeping in H1; [|intros [= <- <-]; exact H1].
  destruct (flush_batch ft ShipStaticDataTemp _ _ _ s1) as [[[]|e2] s2] eqn:H2;
    apply flush_batch_bookkeeping in H2;
    pose proof (same_bookkeeping_trans _ _ _ H1 H2) as H12;
    [|intros [= <- <-]; exact H12].
  destruct (flush_batch ft ShipData _ _ _ s2) as [[[]|e3] s3] eqn:H3;
    apply flush_batch_bookkeeping in H3;
    pose proof (same_bookkeeping_trans _ _ _ H12 H3) as H13;
    [|intros [= <- <-]; exact H13].
  destruct (flush_batch ft UnknownShips _ _ _ s3) as [[[]|e4] s4] eqn:H4;
    apply flush_batch_bookkeeping in H4;
    pose proof (same_bookkeeping_trans _ _ _ H13 H4) as H14;
    [|intros [= <- <-]; exact H14].
  unfold commit_stmt, try_commit.
  destruct (commit_error ft); intros [= <- <-]; exact H14.
Qed.

Lemma flush_bookkeeping s now : same_bookkeeping s (flush ft s now).
Proof.
  unfold flush. destruct (flush_try ft now s) as [[u|e] s'] eqn:H;
    apply flush_try_bookkeeping in H; [exact H|].
  destruct e as [|[]|]; exact H.
Qed.

Lemma flush_try_ok_closed now s u s' :
  flush_try ft now s = (Ok u, s') -> view (conn s') = committed (conn s').
Proof.
  unfold flush_try, bind.
  destruct (flush_batch ft Ships _ _ _ s) as [[[]|e1] s1]; [|discriminate].
  destruct (flush_batch ft ShipStaticDataTemp _ _ _ s1) as [[[]|e2] s2]; [|discriminate].
  destruct (flush_batch ft ShipData _ _ _ s2) as [[[]|e3] s3]; [|discriminate].
  destruct (flush_batch ft UnknownShips _ _ _ s3) as [[[]|e4] s4]; [|discriminate].
  unfold commit_stmt, try_commit.
  destruct (commit_error ft); [discriminate|].
  intros H. injection H as _ <-. reflexivity.
Qed.

(** A flush leaves no transaction open. *)
Lemma flush_closes_transaction s now : no_uncommitted_write (flush ft s now).
Proof.
  unfold no_uncommitted_write, flush.
  destruct (flush_try ft now s) as [[u|e] s'] eqn:H.
  - exact (flush_try_ok_closed _ _ _ _ H).
  - pose proof (flush_try_result ft now s) as Hr. rewrite H in Hr.
    destruct Hr as [_ [op ->]]. destruct op; reflexivity.
Qed.

End Bookkeeping.

Lemma report_stats_frame s now :
  mmsi_to_imo (report_stats s now) = mmsi_to_imo s
  /\ unique_vessels (report_stats s now) = unique_vessels s
  /\ unique_vessels_with_imo (report_stats s now) = unique_vessels_with_imo s
  /\ last_commit_time (report_stats s now) = last_commit_time s.
Proof. unfold report_stats. destruct (Qle_bool _ _); repeat split. Qed.

Lemma report_stats_totals s now :
  let k := stats s in
  let k' := stats (report_stats s now) in
  collected_count k' = collected_count k
  /\ filtered_count k' = filtered_count k
  /\ static_data_count k' = static_data_count k
  /\ position_data_count k' = position_data_count k
  /\ no_imo_filtered_count k' = no_imo_filtered_count k.
Proof. unfold report_stats. destruct (Qle_bool _ _); repeat split. Qed.

(** The state a pass of the loop body ends in, in terms of the state the
    handler of the message ends in. *)
Lemma process_message_state cfg w ft s msg now :
  state_of (process_message cfg w ft s msg now)
  = match handle_message cfg w ft s msg with
    | Next s1 =>
        report_stats (if flush_due cfg s1 now then flush ft s1 now else s1) now
    | Continue s1 => s1
    | Escape _ s1 => s1
    end.
Proof. unfold process_message. destruct (handle_message cfg w ft s msg); reflexivity. Qed.

(** ** What the handlers do to the store and to the lists *)

Section Handlers.

Variables (cfg : config) (w : world) (ft : faults).

Ltac fields :=
  cbn [conn pending stats last_commit_time mmsi_to_imo unique_vessels
       unique_vessels_with_imo
       set_conn set_pending set_stats set_mmsi_to_imo set_unique_vessels
       set_unique_vessels_with_imo set_last_commit_time fst snd
       committed view call].

Lemma resolve_store s mmsi :
  committed (conn (snd (resolve w ft s mmsi))) = committed (conn s)
  /\ view (conn (snd (resolve w ft s mmsi))) = view (conn s).
Proof.
  unfold resolve, find_imo_by_mmsi.
  destruct mmsi as [m|]; cbn [mbind option_bind]; [|auto].
  destruct (mmsi_to_imo s !! m); [auto|].
  destruct (truthy (Some m)); cbn [negb]; [|auto].
  destruct (select_error ft);
    [|destruct (select_imo_by_mmsi w (view (conn s)) m)]; fields; auto.
Qed.

Lemma get_recent_destination_store c imo :
  committed (snd (get_recent_destination w ft c imo)) = committed c
  /\ view (snd (get_recent_destination w ft c imo)) = view c.
Proof.
  unfold get_recent_destination.
  destruct (imo =? 0); [auto|]. destruct (select_error ft); fields; auto.
Qed.

Lemma handle_position_store s mmsi lat lon ts position_data :
  let s1 := handle_position cfg w ft s mmsi lat lon ts position_data in
  committed (conn s1) = committed (conn s) /\ view (conn s1) = view (conn s).
Proof.
  cbv zeta. unfold handle_position.
  set (s0 := match mmsi with
             | Some m => if truthy mmsi
                         then set_unique_vessels s ({[m]} ∪ unique_vessels s) else s
             | None => s
             end).
  assert (Hc0 : conn s0 = conn s).
  { unfold s0. destruct mmsi as [m|]; [|auto]. destruct (truthy (Some m)); auto. }
  destruct (resolve_store s0 mmsi) as [Hc Hv]. rewrite Hc0 in Hc, Hv.
  destruct (resolve w ft s0 mmsi) as [[imo|] s2]; cbn [fst snd] in *.
  - destruct (get_recent_destination_store (conn s2) imo) as [Hc' Hv'].
    destruct (get_recent_destination w ft (conn s2) imo) as [destination c].
    cbn [snd] in *. fields. rewrite Hc', Hv'. auto.
  - destruct (SAVE_NO_IMO_VESSELS cfg); fields; auto.
Qed.

Lemma handle_static_conn s mmsi lat lon ts ship_data :
  conn (handle_static cfg s mmsi lat lon ts ship_data) = conn s.
Proof. apply (handle_static_frame cfg s mmsi lat lon ts ship_data). Qed.

(** No handler writes to the store. *)
Lemma handle_message_store s msg :
  let s1 := state_of (handle_message cfg w ft s msg) in
  committed (conn s1) = committed (conn s) /\ view (conn s1) = view (conn s).
Proof.
  cbv zeta. destruct (passes_filters w msg) eqn:Hpass.
  - destruct msg as [|metadata body]; [discriminate|].
    destruct (passes_filters_next cfg w ft s _ _ Hpass) as (lat & lon & dt & _ & _ & ->).
    cbn [state_of]. destruct body as [ship_data|position_data|]; [| |auto].
    + rewrite handle_static_conn. auto.
    + apply handle_position_store.
  - destruct (fails_filters_skips cfg w ft s msg Hpass)
      as [(s' & -> & Hc & _) | (e & ->)]; cbn [state_of]; [rewrite Hc|]; auto.
Qed.

Lemma handle_static_appends s mmsi lat lon ts ship_data :
  let s1 := handle_static cfg s mmsi lat lon ts ship_data in
  exists ls lu,
    static_data_batch (pending s1) = static_data_batch (pending s) ++ ls
    /\ position_data_batch (pending s1) = position_data_batch (pending s)
    /\ unknown_data_batch (pending s1) = unknown_data_batch (pending s) ++ lu
    /\ (List.length ls + List.length lu <= 1)%nat.
Proof.
  cbv zeta. unfold handle_static.
  destruct (compute_dimensions (Dimension ship_data)) as [len wid].
  destruct mmsi as [m|]; [destruct (truthy (Some m))|];
    destruct (get (ImoNumber ship_data)) as [imo|];
    try destruct (valid_imo (Some imo));
    destruct (SAVE_NO_IMO_VESSELS cfg);
    try change (valid_imo None) with false; fields;
    cbn [append_ship append_static append_unknown static_data_batch
         position_data_batch unknown_data_batch];
    first [ exists [], []; rewrite !app_nil_r; cbn; repeat split; lia
          | eexists [_], []; rewrite !app_nil_r; cbn; repeat split; lia
          | eexists [], [_]; rewrite !app_nil_r; cbn; repeat split; lia ].
Qed.

Lemma handle_position_appends s mmsi lat lon ts position_data :
  let s1 := handle_position cfg w ft s mmsi lat lon ts position_data in
  exists lp lu,
    static_data_batch (pending s1) = static_data_batch (pending s)
    /\ position_data_batch (pending s1) = position_data_batch (pending s) ++ lp
    /\ unknown_data_batch (pending s1) = unknown_data_batch (pending s) ++ lu
    /\ (List.length lp + List.length lu <= 1)%nat.
Proof.
  cbv zeta. unfold handle_position.
  set (s0 := match mmsi with
             | Some m => if truthy mmsi
                         then set_unique_vessels s ({[m]} ∪ unique_vessels s) else s
             | None => s
             end).
  assert (Hp0 : pending s0 = pending s).
  { unfold s0. destruct mmsi as [m|]; [|auto]. destruct (truthy (Some m)); auto. }
  destruct (resolve_frame w ft s0 mmsi) as [Hp _]. rewrite Hp0 in Hp.
  destruct (resolve w ft s0 mmsi) as [[imo|] s2]; cbn [fst snd] in *.
  - destruct (get_recent_destination w ft (conn s2) imo) as [destination c].
    fields. rewrite Hp. eexists [_], []. cbn. rewrite app_nil_r.
    repeat split; lia.
  - destruct (SAVE_NO_IMO_VESSELS cfg); fields; rewrite Hp.
    + eexists [], [_]. cbn. rewrite app_nil_r. repeat split; lia.
    + exists [], []. cbn. rewrite !app_nil_r. repeat split; lia.
Qed.

Lemma handle_message_appends s msg :
  let s1 := state_of (handle_message cfg w ft s msg) in
  exists ls lp lu,
    static_data_batch (pending s1) = static_data_batch (pending s) ++ ls
    /\ position_data_batch (pending s1) = position_data_batch (pending s) ++ lp
    /\ unknown_data_batch (pending s1) = unknown_data_batch (pending s) ++ lu
    /\ (List.length ls + List.length lp + List.length lu <= 1)%nat.
Proof.
  cbv zeta. destruct (passes_filters w msg) eqn:Hpass.
  - destruct msg as [|metadata body]; [discriminate|].
    destruct (passes_filters_next cfg w ft s _ _ Hpass) as (lat & lon & dt & _ & _ & ->).
    cbn [state_of]. destruct body as [ship_data|position_data|].
    + destruct (handle_static_appends s (get (MMSI metadata)) lat lon (strftime dt) ship_data)
        as (ls & lu & H1 & H2 & H3 & H4).
      exists ls, [], lu. rewrite app_nil_r. cbn [List.length]. repeat split; try assumption; lia.
    + destruct (handle_position_appends s (get (MMSI metadata)) lat lon (strftime dt)
                  position_data) as (lp & lu & H1 & H2 & H3 & H4).
      exists [], lp, lu. rewrite app_nil_r. cbn [List.length]. repeat split; try assumption; lia.
    + exists [], [], []. rewrite !app_nil_r. cbn. repeat split; lia.
  - destruct (fails_filters_skips cfg w ft s msg Hpass)
      as [(s' & -> & _ & Hp) | (e & ->)]; cbn [state_of]; [rewrite Hp|];
      exists [], [], []; rewrite !app_nil_r; cbn; repeat split; lia.
Qed.

End Handlers.

(** ** A static message, then a position report *)

Section StaticThenPosition.

Variables (cfg : config) (w : world).

Lemma handle_static_records s mmsi lat lon ts ship_data m imo :
  mmsi = Some m -> get (ImoNumber ship_data) = Some imo -> imo <> 0 ->
  mmsi_to_imo (handle_static cfg s mmsi lat lon ts ship_data) !! m = Some imo.
Proof.
  intros -> Himo Hne. unfold handle_static. rewrite Himo.
  destruct (compute_dimensions (Dimension ship_data)) as [len wid].
  cbn [valid_imo truthy]. apply Z.eqb_neq in Hne. rewrite Hne. cbn [negb].
  destruct (negb (m =? 0));
    cbn [mmsi_to_imo set_stats set_pending set_mmsi_to_imo set_unique_vessels
         set_unique_vessels_with_imo];
    apply lookup_insert_eq.
Qed.

Lemma process_message_keeps_mapping ft s msg now :
  mmsi_to_imo (state_of (process_message cfg w ft s msg now))
  = mmsi_to_imo (state_of (handle_message cfg w ft s msg)).
Proof.
  rewrite process_message_state.
  destruct (handle_message cfg w ft s msg) as [s1|s1|e s1]; cbn [state_of];
    [|reflexivity..].
  destruct (report_stats_frame
              (if flush_due cfg s1 now then flush ft s1 now else s1) now) as [-> _].
  destruct (flush_due cfg s1 now); [|reflexivity].
  apply (flush_bookkeeping ft s1 now).
Qed.

Lemma handle_position_from_memory ft s m imo lat lon ts position_data :
  mmsi_to_imo s !! m = Some imo ->
  store_queries (conn (handle_position cfg w ft s (Some m) lat lon ts position_data))
  = store_queries (conn s).
Proof.
  intros Hm. unfold handle_position, resolve.
  destruct (truthy (Some m));
    cbn [mbind option_bind mmsi_to_imo set_unique_vessels]; rewrite Hm;
    unfold get_recent_destination;
    cbn [conn set_unique_vessels set_unique_vessels_with_imo];
    (destruct (imo =? 0); [|destruct (select_error ft)]);
    cbn [conn set_conn set_pending set_stats];
    rewrite ?store_queries_call; cbn [is_select_imo]; lia.
Qed.

Lemma discarded_message_mapping ft s msg :
  passes_filters w msg = false ->
  mmsi_to_imo (state_of (handle_message cfg w ft s msg)) = mmsi_to_imo s.
Proof.
  unfold passes_filters, handle_message, is_point_in_north_sea, try_except.
  destruct msg as [|metadata body]; [auto|].
  destruct (get (latitude metadata)) as [lat|]; [|auto].
  destruct (get (longitude metadata)) as [lon|]; [|auto].
  destruct (north_sea_shape w lon lat) as [bs|e]; [|auto].
  destruct (any bs); [|auto]. cbn [andb].
  destruct (get_default (time_utc metadata) (str "")) as [raw|]; [|auto].
  destruct (parse_timestamp raw) as [dt|[]]; [discriminate|auto..].
Qed.

Lemma handle_static_keeps_entry s mmsi lat lon ts ship_data m imo :
  (mmsi = Some m -> valid_imo (get (ImoNumber ship_data)) = true ->
   get (ImoNumber ship_data) = Some imo) ->
  mmsi_to_imo s !! m = Some imo ->
  mmsi_to_imo (handle_static cfg s mmsi lat lon ts ship_data) !! m = Some imo.
Proof.
  intros Hkeep Hs. unfold handle_static.
  destruct (compute_dimensions (Dimension ship_data)) as [len wid].
  destruct mmsi as [m'|]; [destruct (truthy (Some m'))|];
    destruct (get (ImoNumber ship_data)) as [imo'|];
    try destruct (valid_imo (Some imo')) eqn:Hvalid;
    try change (valid_imo None) with false;
    destruct (SAVE_NO_IMO_VESSELS cfg);
    cbn [mmsi_to_imo set_stats set_pending set_mmsi_to_imo set_unique_vessels
         set_unique_vessels_with_imo];
    try exact Hs;
    (destruct (decide (m' = m)) as [->|Hne];
     [rewrite lookup_insert_eq; apply Hkeep; reflexivity
     |rewrite lookup_insert_ne by assumption; exact Hs]).
Qed.

Lemma resolve_keeps_entry ft s mmsi m imo :
  mmsi_to_imo s !! m = Some imo ->
  mmsi_to_imo (snd (resolve w ft s mmsi)) !! m = Some imo.
Proof.
  intros Hs. unfold resolve. destruct mmsi as [m'|]; cbn [mbind option_bind];
    [|exact Hs].
  destruct (mmsi_to_imo s !! m') as [imo'|] eqn:Hm'; [exact Hs|].
  destruct (find_imo_by_mmsi w ft (conn s) (Some m')) as [[found|] c];
    cbn [snd mmsi_to_imo set_conn set_mmsi_to_imo set_unique_vessels_with_imo];
    [|exact Hs].
  rewrite lookup_insert_ne; [exact Hs|]. intros ->. congruence.
Qed.

Lemma handle_position_keeps_entry ft s mmsi lat lon ts position_data m imo :
  mmsi_to_imo s !! m = Some imo ->
  mmsi_to_imo (handle_position cfg w ft s mmsi lat lon ts position_data) !! m
  = Some imo.
Proof.
  intros Hs. unfold handle_position.
  set (s0 := match mmsi with
             | Some m => if truthy mmsi
                         then set_unique_vessels s ({[m]} ∪ unique_vessels s) else s
             | None => s
             end).
  assert (Hs0 : mmsi_to_imo s0 !! m = Some imo).
  { unfold s0. destruct mmsi as [m'|]; [|exact Hs].
    destruct (truthy (Some m')); exact Hs. }
  pose proof (resolve_keeps_entry ft s0 mmsi m imo Hs0) as H2.
  destruct (resolve w ft s0 mmsi) as [[imo'|] s2]; cbn [fst snd] in *.
  - destruct (get_recent_destination w ft (conn s2) imo') as [destination c].
    exact H2.
  - destruct (SAVE_NO_IMO_VESSELS cfg); exact H2.
Qed.

Lemma process_message_keeps_entry a s m imo :
  keeps_identity m imo a ->
  mmsi_to_imo s !! m = Some imo ->
  mmsi_to_imo (state_of (process_message cfg w (a_faults a) s (a_message a) (a_time a)))
    !! m = Some imo.
Proof.
  intros Hkeep Hs. rewrite process_message_keeps_mapping.
  destruct (passes_filters w (a_message a)) eqn:Hpass.
  - unfold keeps_identity in Hkeep.
    destruct (a_message a) as [|metadata body]; [discriminate|].
    destruct (passes_filters_next cfg w (a_faults a) s _ _ Hpass)
      as (lat & lon & dt & _ & _ & ->).
    cbn [state_of]. destruct body as [ship_data|position_data|]; [| |exact Hs].
    + apply handle_static_keeps_entry; assumption.
    + apply handle_position_keeps_entry. exact Hs.
  - rewrite (discarded_message_mapping (a_faults a) s (a_message a) Hpass). exact Hs.
Qed.

Lemma run_keeps_entry m imo (arrivals : list arrival) : forall s,
  Forall (keeps_identity m imo) arrivals ->
  mmsi_to_imo s !! m = Some imo ->
  mmsi_to_imo (run cfg w s arrivals) !! m = Some imo.
Proof.
  induction arrivals as [|a arrivals IH]; intros s Hall Hs; [exact Hs|].
  apply Forall_cons in Hall as [Ha Hall]. cbn [run].
  apply IH; [exact Hall|]. apply process_message_keeps_entry; assumption.
Qed.

(** X4: once a static message with an MMSI and a valid IMO has been
    handled, whether or not a flush followed, and after any further
    messages among which no static message gives that MMSI another valid
    IMO, whatever store errors occur, a position report with that MMSI
    that passes the filters is stored as a position observation with that
    IMO, and the store is not asked for the IMO. *)
Theorem static_then_position (ft ft' : faults) (s : state)
    (metadata metadata' : MetaData) (ship_data : ShipStaticData)
    (position_data : PositionReport) (now : Q) (m imo : Z)
    (between : list arrival) :
  passes_filters w (Message metadata (StaticPayload ship_data)) = true ->
  get (MMSI metadata) = Some m ->
  get (ImoNumber ship_data) = Some imo -> imo <> 0 ->
  Forall (keeps_identity m imo) between ->
  passes_filters w (Message metadata' (PositionPayload position_data)) = true ->
  get (MMSI metadata') = Some m ->
  let s' := run cfg w
              (state_of (process_message cfg w ft s
                           (Message metadata (StaticPayload ship_data)) now))
              between in
  exists s1,
    handle_message cfg w ft' s' (Message metadata' (PositionPayload position_data))
    = Next s1
    /\ position_appended s' s1 imo
    /\ store_queries (conn s1) = store_queries (conn s').
Proof.
  intros Hpass Hm Himo Hne Hbetween Hpass' Hm'. cbv zeta.
  set (s' := run cfg w
               (state_of (process_message cfg w ft s
                            (Message metadata (StaticPayload ship_data)) now))
               between).
  assert (Hmap : mmsi_to_imo s' !! m = Some imo).
  { unfold s'. apply run_keeps_entry; [exact Hbetween|].
    rewrite process_message_keeps_mapping.
    destruct (passes_filters_next cfg w ft s _ _ Hpass) as (lat & lon & dt & _ & _ & ->).
    cbn [state_of]. apply handle_static_records; assumption. }
  destruct (passes_filters_next cfg w ft' s' _ _ Hpass') as (lat & lon & dt & _ & _ & ->).
  eexists. split; [reflexivity|]. rewrite Hm'. split.
  - pose proof (handle_position_effect cfg w ft' s' (Some m) lat lon (strftime dt)
                  position_data) as Heff.
    cbv zeta in Heff. unfold resolve at 1 in Heff.
    cbn [mbind option_bind] in Heff. rewrite Hmap in Heff. exact Heff.
  - apply handle_position_from_memory with (imo := imo). exact Hmap.
Qed.

End StaticThenPosition.

Lemma static_then_position_witness :
  exists s1,
    handle_message default_config sample_world no_faults
      (run default_config sample_world
         (state_of (process_message default_config sample_world no_faults
                      (initial_state empty_db)
                      (Message (sample_metadata 230000001 53 4)
                         (StaticPayload (sample_static (Value 9123456)))) 1))
         [mk_arrival no_faults
            (Message (sample_metadata 230000002 53 4)
               (StaticPayload (sample_static (Value 9000002)))) 2;
          mk_arrival position_write_fails
            (Message (sample_metadata 230000001 53 4)
               (PositionPayload sample_position)) 30])
      (Message (sample_metadata 230000001 54 5) (PositionPayload sample_position))
    = Next s1
    /\ position_appended
         (run default_config sample_world
            (state_of (process_message default_config sample_world no_faults
                         (initial_state empty_db)
                         (Message (sample_metadata 230000001 53 4)
                            (StaticPayload (sample_static (Value 9123456)))) 1))
            [mk_arrival no_faults
               (Message (sample_metadata 230000002 53 4)
                  (StaticPayload (sample_static (Value 9000002)))) 2;
             mk_arrival position_write_fails
               (Message (sample_metadata 230000001 53 4)
                  (PositionPayload sample_position)) 30])
         s1 9123456.
Proof.
  destruct (static_then_position default_config sample_world no_faults no_faults
              (initial_state empty_db)
              (sample_metadata 230000001 53 4) (sample_metadata 230000001 54 5)
              (sample_static (Value 9123456)) sample_position 1 230000001 9123456
              [mk_arrival no_faults
                 (Message (sample_metadata 230000002 53 4)
                    (StaticPayload (sample_static (Value 9000002)))) 2;
               mk_arrival position_write_fails
                 (Message (sample_metadata 230000001 53 4)
                    (PositionPayload sample_position)) 30])
    as (s1 & H1 & H2 & _).
  - vm_compute. reflexivity.
  - reflexivity.
  - reflexivity.
  - discriminate.
  - repeat constructor. intros H. discriminate H.
  - vm_compute. reflexivity.
  - reflexivity.
  - exists s1. split; assumption.
Defined.

(** ** A static message without a valid IMO *)

(** X5: a static message that passes the filters and reports no IMO, or the
    IMO 0, adds nothing to the registry rows, the static observations or the
    MMSI mapping.  With the retention switch off it adds nothing to any
    list and is counted once as collected and once as filtered for want of
    an IMO; with the switch on it adds one unidentified observation, whose
    IMO is -1 for an absent IMO and 0 for the IMO 0, with no dynamic
    data. *)
Theorem static_without_imo (cfg : config) (w : world) (ft : faults) (s : state)
    (metadata : MetaData) (ship_data : ShipStaticData) :
  passes_filters w (Message metadata (StaticPayload ship_data)) = true ->
  get (ImoNumber ship_data) = None \/ get (ImoNumber ship_data) = Some 0 ->
  exists s1,
    handle_message cfg w ft s (Message metadata (StaticPayload ship_data)) = Next s1
    /\ mmsi_to_imo s1 = mmsi_to_imo s
    /\ ships_batch (pending s1) = ships_batch (pending s)
    /\ static_data_batch (pending s1) = static_data_batch (pending s)
    /\ position_data_batch (pending s1) = position_data_batch (pending s)
    /\ collected_count (stats s1) = collected_count (stats s) + 1
    /\ (SAVE_NO_IMO_VESSELS cfg = false ->
        pending s1 = pending s
        /\ no_imo_filtered_count (stats s1) = no_imo_filtered_count (stats s) + 1)
    /\ (SAVE_NO_IMO_VESSELS cfg = true ->
        no_imo_filtered_count (stats s1) = no_imo_filtered_count (stats s)
        /\ exists row,
             unknown_data_batch (pending s1) = unknown_data_batch (pending s) ++ [row]
             /\ u_imo_number row
                = match get (ImoNumber ship_data) with Some _ => 0 | None => -1 end
             /\ u_mmsi row = get (MMSI metadata)
             /\ u_sog row = None /\ u_cog row = None
             /\ u_navigational_status_code row = None
             /\ u_rate_of_turn row = None /\ u_true_heading row = None).
Proof.
  intros Hpass Himo.
  destruct (passes_filters_next cfg w ft s _ _ Hpass) as (lat & lon & dt & _ & _ & ->).
  eexists. split; [reflexivity|]. unfold handle_static.
  destruct (compute_dimensions (Dimension ship_data)) as [len wid].
  destruct Himo as [-> | ->]; cbn [valid_imo truthy Z.eqb negb];
    (destruct (get (MMSI metadata)) as [m|]; [destruct (truthy (Some m))|]);
    destruct (SAVE_NO_IMO_VESSELS cfg);
    cbn [mmsi_to_imo pending stats set_stats set_pending set_mmsi_to_imo
         set_unique_vessels set_unique_vessels_with_imo append_unknown
         ships_batch static_data_batch position_data_batch unknown_data_batch
         count_collected count_no_imo_filtered collected_count no_imo_filtered_count];
    repeat split; try discriminate; try (intros _; repeat split);
    try (eexists; repeat split; reflexivity).
Qed.

Lemma static_without_imo_witness :
  exists s1,
    handle_message default_config sample_world no_faults (initial_state empty_db)
      (Message (sample_metadata 230000001 53 4) (StaticPayload (sample_static (Value 0))))
    = Next s1
    /\ pending s1 = pending (initial_state empty_db).
Proof.
  destruct (static_without_imo default_config sample_world no_faults
              (initial_state empty_db) (sample_metadata 230000001 53 4)
              (sample_static (Value 0)))
    as (s1 & H1 & _ & _ & _ & _ & _ & Hoff & _).
  - vm_compute. reflexivity.
  - right. reflexivity.
  - exists s1. split; [exact H1|]. apply Hoff. reflexivity.
Defined.

(** ** The store between messages *)

Section StoreConsistency.

Variables (cfg : config) (w : world).

Lemma process_message_closed ft s msg now :
  no_uncommitted_write s ->
  no_uncommitted_write (state_of (process_message cfg w ft s msg now)).
Proof.
  intros Hs. rewrite process_message_state.
  destruct (handle_message_store cfg w ft s msg) as [Hc Hv].
  unfold no_uncommitted_write in *.
  destruct (handle_message cfg w ft s msg) as [s1|s1|e s1]; cbn [state_of] in *;
    [|congruence..].
  rewrite report_stats_conn. destruct (flush_due cfg s1 now); [|congruence].
  apply flush_closes_transaction.
Qed.

(** X6: whatever store errors occur, a message leaves no write waiting for
    a commit (the connection sees what the store holds; a transaction that
    a [SELECT] of the message opened may stay open), and what the store
    holds after it is either what it held before or that with all four
    pending lists, the message's own records included, written to it
    together; in the second case the lists are empty. *)
Theorem message_commits_all_or_nothing (ft : faults) (s : state) (msg : message)
    (now : Q) :
  no_uncommitted_write s ->
  let s' := state_of (process_message cfg w ft s msg now) in
  no_uncommitted_write s'
  /\ (committed (conn s') = committed (conn s)
      \/ (committed (conn s')
          = apply_all (committed (conn s))
              (pending (state_of (handle_message cfg w ft s msg)))
          /\ pending s' = empty_batches)).
Proof.
  intros Hs. cbv zeta. split; [apply process_message_closed, Hs|].
  rewrite process_message_state.
  destruct (handle_message_store cfg w ft s msg) as [Hc Hv].
  destruct (handle_message cfg w ft s msg) as [s1|s1|e s1]; cbn [state_of] in *;
    [|auto..].
  rewrite report_stats_conn, report_stats_pending.
  destruct (flush_due cfg s1 now); [|auto].
  destruct (flush_atomic ft s1 now) as [(H & _) | (H & Hp & _)].
  - left. congruence.
  - right. split; [|exact Hp]. rewrite H, Hv. unfold no_uncommitted_write in Hs.
    rewrite Hs. reflexivity.
Qed.

Lemma flush_healthy ft s now :
  store_healthy ft ->
  committed (conn (flush ft s now)) = apply_all (view (conn s)) (pending s)
  /\ pending (flush ft s now) = empty_batches
  /\ last_commit_time (flush ft s now) = now.
Proof.
  intros [Hw Hc]. unfold flush.
  pose proof (flush_try_result ft now s) as Hr.
  destruct (flush_try ft now s) as [[u|e] s'] eqn:Htry.
  - destruct Hr as (? & ? & ? & _). auto.
  - exfalso. revert Htry. unfold flush_try, bind, flush_batch, executemany,
      commit_stmt, try_commit.
    rewrite !Hw, Hc.
    destruct (ships_batch (pending s)); cbn [pending set_pending set_conn conn];
      destruct (static_data_batch _); cbn [pending set_pending set_conn conn];
      destruct (position_data_batch _); cbn [pending set_pending set_conn conn];
      destruct (unknown_data_batch _); discriminate.
Qed.

Lemma apply_all_appends d b :
  ship_static_data_temp (apply_all d b) = ship_static_data_temp d ++ static_data_batch b
  /\ ship_data (apply_all d b) = ship_data d ++ position_data_batch b
  /\ unknown_ships (apply_all d b) = unknown_ships d ++ unknown_data_batch b.
Proof. repeat split. Qed.

Lemma process_message_logs ft s msg now :
  store_healthy ft -> no_uncommitted_write s ->
  let s' := state_of (process_message cfg w ft s msg now) in
  exists ls lp lu,
    static_log s' = static_log s ++ ls
    /\ position_log s' = position_log s ++ lp
    /\ unknown_log s' = unknown_log s ++ lu
    /\ (List.length ls + List.length lp + List.length lu <= 1)%nat.
Proof.
  intros Hft Hs. cbv zeta. rewrite process_message_state.
  destruct (handle_message_store cfg w ft s msg) as [Hc Hv].
  destruct (handle_message_appends cfg w ft s msg) as (ls & lp & lu & H1 & H2 & H3 & Hlen).
  exists ls, lp, lu. unfold static_log, position_log, unknown_log.
  unfold no_uncommitted_write in Hs.
  destruct (handle_message cfg w ft s msg) as [s1|s1|e s1]; cbn [state_of] in *;
    [|rewrite Hc, H1, H2, H3, !app_assoc; auto..].
  rewrite report_stats_conn, report_stats_pending.
  destruct (flush_due cfg s1 now).
  - destruct (flush_healthy ft s1 now Hft) as (Hcm & Hp & _).
    rewrite Hcm, Hp. cbn [empty_batches static_data_batch position_data_batch
                          unknown_data_batch].
    rewrite !app_nil_r.
    destruct (apply_all_appends (view (conn s1)) (pending s1)) as (-> & -> & ->).
    rewrite Hv, Hs, H1, H2, H3, !app_assoc. auto.
  - rewrite Hc, H1, H2, H3, !app_assoc. auto.
Qed.

(** X7: while no write and no commit fails, no observation is lost or
    reordered: over any sequence of messages, the stored rows followed by
    the pending rows of the static, the position and the unidentified
    observations only grow at their end. *)
Theorem healthy_run_appends (arrivals : list arrival) : forall s,
  Forall (fun a => store_healthy (a_faults a)) arrivals ->
  no_uncommitted_write s ->
  static_log s `prefix_of` static_log (run cfg w s arrivals)
  /\ position_log s `prefix_of` position_log (run cfg w s arrivals)
  /\ unknown_log s `prefix_of` unknown_log (run cfg w s arrivals).
Proof.
  induction arrivals as [|a arrivals IH]; intros s Hall Hs; cbn [run].
  - repeat split; reflexivity.
  - apply Forall_cons in Hall as [Ha Hall].
    destruct (process_message_logs (a_faults a) s (a_message a) (a_time a) Ha Hs)
      as (ls & lp & lu & H1 & H2 & H3 & _).
    destruct (IH _ Hall (process_message_closed (a_faults a) s (a_message a) (a_time a) Hs))
      as (P1 & P2 & P3).
    repeat split.
    + etransitivity; [|exact P1]. rewrite H1. apply prefix_app_r. reflexivity.
    + etransitivity; [|exact P2]. rewrite H2. apply prefix_app_r. reflexivity.
    + etransitivity; [|exact P3]. rewrite H3. apply prefix_app_r. reflexivity.
Qed.

End StoreConsistency.

Lemma message_commits_all_or_nothing_witness :
  no_uncommitted_write
    (state_of (process_message default_config sample_world position_write_fails
                 ship_and_position_pending
                 (Message (sample_metadata 230000001 53 4)
                    (PositionPayload sample_position)) 20)).
Proof.
  exact (proj1 (message_commits_all_or_nothing default_config sample_world
                  position_write_fails ship_and_position_pending
                  (Message (sample_metadata 230000001 53 4)
                     (PositionPayload sample_position)) 20
                  eq_refl)).
Defined.

Lemma healthy_run_appends_witness :
  position_log two_positions_pending
  `prefix_of`
  position_log
    (run small_batches sample_world two_positions_pending
       [mk_arrival no_faults
          (Message (sample_metadata 230000001 53 4)
             (StaticPayload (sample_static (Value 9123456)))) 1;
        mk_arrival no_faults
          (Message (sample_metadata 230000001 53 4)
             (PositionPayload sample_position)) 2]).
Proof.
  refine (proj1 (proj2 (healthy_run_appends small_batches sample_world _
                          two_positions_pending _ eq_refl))).
  repeat constructor.
Defined.

(** ** The registry after static messages *)

Section RegistryAfterStaticMessages.

Variables (cfg : config) (w : world).

Lemma ships_apply_all d b :
  ships (apply_all d b) = upsert_ships (ships d) (ships_batch b).
Proof. reflexivity. Qed.

Lemma upsert_ships_snoc t rows r :
  upsert_ships t (rows ++ [r]) = upsert_ship (upsert_ships t rows) r.
Proof. unfold upsert_ships. rewrite fold_left_app. reflexivity. Qed.

Lemma handle_static_registry s metadata lat lon ts ship_data imo :
  get (ImoNumber ship_data) = Some imo -> imo <> 0 ->
  let s1 := handle_static cfg s (get (MMSI metadata)) lat lon ts ship_data in
  conn s1 = conn s
  /\ ships_batch (pending s1)
     = ships_batch (pending s) ++ [registry_row metadata ship_data imo].
Proof.
  intros Himo Hne. cbv zeta. unfold handle_static, registry_row.
  rewrite Himo. destruct (compute_dimensions (Dimension ship_data)) as [len wid].
  cbn [valid_imo truthy]. apply Z.eqb_neq in Hne. rewrite Hne. cbn [negb fst snd].
  destruct (get (MMSI metadata)) as [m|]; [destruct (truthy (Some m))|];
    split; reflexivity.
Qed.

Lemma process_message_registry ft s a r imo now :
  imo <> 0 -> store_healthy ft -> no_uncommitted_write s ->
  static_message_of w imo a r ->
  registry (state_of (process_message cfg w ft s (a_message a) now))
  = upsert_ship (registry s) r.
Proof.
  intros Hne Hft Hs (metadata & ship_data & Hmsg & Hpass & Himo & ->).
  rewrite process_message_state. rewrite Hmsg in *.
  destruct (passes_filters_next cfg w ft s _ _ Hpass) as (lat & lon & dt & _ & _ & ->).
  destruct (handle_static_registry s metadata lat lon (strftime dt) ship_data imo
              Himo Hne) as [Hc Hb].
  set (s1 := handle_static cfg s (get (MMSI metadata)) lat lon (strftime dt) ship_data)
    in *.
  unfold registry. rewrite report_stats_conn, report_stats_pending.
  unfold no_uncommitted_write in Hs.
  destruct (flush_due cfg s1 now).
  - destruct (flush_healthy ft s1 now Hft) as (-> & -> & _).
    rewrite ships_apply_all, Hc, Hs, Hb. cbn [ships_batch empty_batches upsert_ships fold_left].
    apply upsert_ships_snoc.
  - rewrite Hc, Hb. apply upsert_ships_snoc.
Qed.

Lemma run_registry imo (arrivals : list arrival) : forall rows s,
  imo <> 0 ->
  Forall (fun a => store_healthy (a_faults a)) arrivals ->
  Forall2 (static_message_of w imo) arrivals rows ->
  no_uncommitted_write s ->
  registry (run cfg w s arrivals) = upsert_ships (registry s) rows
  /\ no_uncommitted_write (run cfg w s arrivals).
Proof.
  induction arrivals as [|a arrivals IH]; intros rows s Hne Hall Hrows Hs.
  - apply Forall2_nil_inv_l in Hrows as ->. split; [reflexivity|exact Hs].
  - apply Forall2_cons_inv_l in Hrows as (r & rows' & Hr & Hrows & ->).
    apply Forall_cons in Hall as [Ha Hall]. cbn [run].
    destruct (IH rows' (state_of (process_message cfg w (a_faults a) s (a_message a)
                                    (a_time a))) Hne Hall Hrows) as [H1 H2].
    { apply process_message_closed. exact Hs. }
    split; [|exact H2].
    rewrite H1, (process_message_registry _ _ _ r imo _ Hne Ha Hs Hr). reflexivity.
Qed.

(** C4: static messages that pass the filters and give one valid IMO are
    handled one after the other while no write and no commit fails, over a
    registry that respects its primary key; once the flush has written
    them, the registry holds exactly one row for that IMO; its name, type,
    length, width and draught are the values of the last message, and its
    MMSI is the one the registry (with the upserts that were pending) had
    for that IMO before, or the MMSI of the first message when it had
    none. *)
Theorem static_messages_last_write_wins (s : state) (arrivals : list arrival)
    (rows : list ship_row) (a : arrival) (metadata : MetaData)
    (ship_data : ShipStaticData) (imo : Z) (ft : faults) (now : Q) :
  imo <> 0 ->
  primary_key (ships (committed (conn s))) -> no_uncommitted_write s ->
  Forall (fun a => store_healthy (a_faults a)) (arrivals ++ [a]) ->
  store_healthy ft ->
  Forall2 (static_message_of w imo) arrivals rows ->
  a_message a = Message metadata (StaticPayload ship_data) ->
  passes_filters w (a_message a) = true ->
  get (ImoNumber ship_data) = Some imo ->
  let s' := flush ft (run cfg w s (arrivals ++ [a])) now in
  exists row,
    rows_with_imo (ships (committed (conn s'))) imo = [row]
    /\ s_name row = get_default (Name ship_data) "Unknown"
    /\ s_ship_type row = get (Type_ ship_data)
    /\ (s_length row, s_width row) = compute_dimensions (Dimension ship_data)
    /\ s_max_draught row = get (MaximumStaticDraught ship_data)
    /\ s_mmsi row = match rows_with_imo (registry s) imo with
                    | old :: _ => s_mmsi old
                    | [] => s_mmsi (hd (registry_row metadata ship_data imo) rows)
                    end.
Proof.
  intros Hne Hpk Hs Hall Hft Hrows Hmsg Hpass Himo. cbv zeta.
  set (m := registry_row metadata ship_data imo).
  assert (Hm : static_message_of w imo a m)
    by (exists metadata, ship_data; auto).
  destruct (run_registry imo (arrivals ++ [a]) (rows ++ [m]) s Hne Hall) as [Hreg Hclosed].
  { apply Forall2_app; [exact Hrows|]. constructor; [exact Hm|constructor]. }
  { exact Hs. }
  destruct (flush_healthy ft (run cfg w s (arrivals ++ [a])) now Hft) as (-> & _ & _).
  rewrite ships_apply_all. unfold no_uncommitted_write in Hclosed. rewrite Hclosed.
  fold (registry (run cfg w s (arrivals ++ [a]))). rewrite Hreg.
  destruct (upsert_ships_last_write_wins rows (registry s) m imo)
    as (row & Hrow & Hn & Hty & Hl & Hw & Hd & Hmm).
  - apply upsert_ships_keeps_primary_key, Hpk.
  - intros x Hx. apply list_elem_of_lookup in Hx as [i Hi].
    destruct (Forall2_lookup_r _ _ _ _ _ Hrows Hi) as (a' & _ & (md & sd & _ & _ & _ & ->)).
    reflexivity.
  - reflexivity.
  - exists row. split; [exact Hrow|]. rewrite Hn, Hty, Hl, Hw, Hd, Hmm.
    unfold m, registry_row. cbn [s_name s_ship_type s_length s_width s_max_draught].
    destruct (compute_dimensions (Dimension ship_data)); repeat split.
Qed.

End RegistryAfterStaticMessages.

Lemma static_messages_last_write_wins_witness :
  exists row,
    rows_with_imo
      (ships (committed (conn
         (flush no_faults
            (run default_config sample_world (initial_state empty_db)
               ([mk_arrival no_faults
                   (Message (sample_metadata 230000001 53 4)
                      (StaticPayload (sample_static (Value 9123456)))) 1]
                ++ [mk_arrival no_faults
                      (Message (sample_metadata 230000002 53 4)
                         (StaticPayload
                            (mk_ShipStaticData (Value 9123456) (Value "LATER") Null
                               Missing Missing Missing))) 2]))
            20))))
      9123456 = [row]
    /\ s_name row = Some "LATER"
    /\ s_mmsi row = Some 230000001.
Proof.
  destruct (static_messages_last_write_wins default_config sample_world
              (initial_state empty_db)
              [mk_arrival no_faults
                 (Message (sample_metadata 230000001 53 4)
                    (StaticPayload (sample_static (Value 9123456)))) 1]
              [registry_row (sample_metadata 230000001 53 4)
                 (sample_static (Value 9123456)) 9123456]
              (mk_arrival no_faults
                 (Message (sample_metadata 230000002 53 4)
                    (StaticPayload
                       (mk_ShipStaticData (Value 9123456) (Value "LATER") Null
                          Missing Missing Missing))) 2)
              (sample_metadata 230000002 53 4)
              (mk_ShipStaticData (Value 9123456) (Value "LATER") Null
                 Missing Missing Missing)
              9123456 no_faults 20)
    as (row & Hrow & Hn & _ & _ & _ & Hmm).
  - discriminate.
  - intros imo. cbn. lia.
  - reflexivity.
  - repeat constructor.
  - repeat constructor.
  - constructor; [|constructor]. eexists _, _.
    repeat split; vm_compute; reflexivity.
  - reflexivity.
  - vm_compute. reflexivity.
  - reflexivity.
  - exists row. split; [exact Hrow|]. split; [exact Hn|exact Hmm].
Defined.

(** ** The two flush paths *)

Section FlushPaths.

Variable ft : faults.

Lemma flush_paths_store rollback_error s now :
  committed (conn (flush ft s now))
  = committed (snd (process_pending_batches ft rollback_error (conn s) (pending s)))
  /\ view (conn (flush ft s now))
     = view (snd (process_pending_batches ft rollback_error (conn s) (pending s))).
Proof.
  unfold flush, flush_try, bind, flush_batch, process_pending_batches,
    executemany, commit_stmt, try_commit.
  destruct s as [c mp k u ui [sb tb pb ub] lt].
  cbn [pending conn ships_batch static_data_batch position_data_batch
       unknown_data_batch].
  destruct rollback_error as [rb|];
  destruct sb, (executemany_error ft Ships) as [[]|];
    cbn [pending conn set_pending set_conn clear_ships ships_batch static_data_batch
         position_data_batch unknown_data_batch snd];
    try (split; reflexivity);
    destruct tb, (executemany_error ft ShipStaticDataTemp) as [[]|];
    cbn [pending conn set_pending set_conn clear_static ships_batch static_data_batch
         position_data_batch unknown_data_batch snd];
    try (split; reflexivity);
    destruct pb, (executemany_error ft ShipData) as [[]|];
    cbn [pending conn set_pending set_conn clear_position ships_batch static_data_batch
         position_data_batch unknown_data_batch snd];
    try (split; reflexivity);
    destruct ub, (executemany_error ft UnknownShips) as [[]|];
    cbn [pending conn set_pending set_conn clear_unknown ships_batch static_data_batch
         position_data_batch unknown_data_batch snd];
    try (split; reflexivity);
    destruct (commit_error ft) as [[]|]; split; reflexivity.
Qed.

(** X8: the flush in the receive loop and [process_pending_batches] leave
    the store in the same condition under the same store errors, whether
    or not the rollback of [process_pending_batches] raises: the same
    content committed and no write waiting for a commit. *)
Theorem flush_paths_agree (rollback_error : option bool) (s : state) (now : Q) :
  committed (conn (flush ft s now))
  = committed (snd (process_pending_batches ft rollback_error (conn s) (pending s)))
  /\ view (snd (process_pending_batches ft rollback_error (conn s) (pending s)))
     = committed (snd (process_pending_batches ft rollback_error (conn s) (pending s))).
Proof.
  destruct (flush_paths_store rollback_error s now) as [Hc Hv].
  split; [exact Hc|]. rewrite <- Hc, <- Hv. apply flush_closes_transaction.
Qed.

Lemma apply_all_empty d : apply_all d empty_batches = d.
Proof.
  destruct d. unfold apply_all, write_unknown, write_position, write_static,
    write_ships. cbn. rewrite !app_nil_r. reflexivity.
Qed.

Lemma process_pending_batches_healthy rollback_error c b :
  store_healthy ft ->
  fst (process_pending_batches ft rollback_error c b) = Ok tt.
Proof.
  intros [Hw Hc]. unfold process_pending_batches, executemany, try_commit.
  rewrite !Hw, Hc.
  destruct (ships_batch b), (static_data_batch b), (position_data_batch b),
    (unknown_data_batch b); reflexivity.
Qed.

(** X9: when the feed connection is lost while the store connection is up,
    no write waits for a commit and no write and no commit fails, all
    pending records are committed before the reconnection, the lists are
    emptied and the loop is marked as not connected; when the loop was not
    connected, nothing is written and the lists are kept. *)
Theorem connection_closed_saves_pending (rollback_error : option bool)
    (conn_closed : bool) (s : state) :
  (store_healthy ft -> no_uncommitted_write s ->
   let r := on_connection_closed ft rollback_error false true s in
   fst r = false
   /\ committed (conn (snd r)) = apply_all (committed (conn s)) (pending s)
   /\ pending (snd r) = empty_batches)
  /\ on_connection_closed ft rollback_error conn_closed false s = (false, s).
Proof.
  split; [|reflexivity].
  intros Hft Hs. cbv zeta. unfold on_connection_closed.
  destruct (flush_paths_store rollback_error s 0) as [Hc _].
  destruct (flush_healthy ft s 0 Hft) as (Hcm & _).
  unfold no_uncommitted_write in Hs. rewrite Hs in Hcm.
  pose proof (process_pending_batches_healthy rollback_error (conn s) (pending s) Hft)
    as Hok.
  destruct (process_pending_batches ft rollback_error (conn s) (pending s))
    as [[[]|e] c]; [|discriminate Hok]. cbn [snd] in Hc.
  destruct (nonempty (ships_batch (pending s)) || nonempty (static_data_batch (pending s))
            || nonempty (position_data_batch (pending s))
            || nonempty (unknown_data_batch (pending s))) eqn:Hany;
    cbn [fst snd conn set_conn set_pending pending].
  - split; [reflexivity|]. split; [|reflexivity]. rewrite <- Hc. exact Hcm.
  - split; [reflexivity|].
    destruct s as [c0 mp k u ui [[|] [|] [|] [|]] lt]; try discriminate Hany.
    cbn [conn pending]. change (mk_batches [] [] [] []) with empty_batches.
    rewrite apply_all_empty. split; reflexivity.
Qed.

End FlushPaths.

Lemma connection_closed_saves_pending_witness :
  committed
    (conn (snd (on_connection_closed no_faults None false true
                  ship_and_position_pending)))
  = apply_all (committed (conn ship_and_position_pending))
      (pending ship_and_position_pending).
Proof.
  refine (proj1 (proj2 (proj1 (connection_closed_saves_pending no_faults None false
                                 ship_and_position_pending) _ eq_refl))).
  repeat constructor.
Defined.

(** ** Counters over a run *)

Section Counters.

Variables (cfg : config) (w : world).

Lemma run_invariant (I : state -> Prop) :
  (forall ft s msg now, I s -> I (state_of (process_message cfg w ft s msg now))) ->
  forall arrivals s, I s -> I (run cfg w s arrivals).
Proof.
  intros Hstep. induction arrivals as [|a arrivals IH]; intros s Hs; cbn [run];
    [exact Hs|]. apply IH, Hstep, Hs.
Qed.

Ltac counts :=
  cbn [stats set_stats set_pending set_conn set_mmsi_to_imo set_unique_vessels
       set_unique_vessels_with_imo count_collected count_static count_position
       count_no_imo_filtered count_filtered collected_count static_data_count
       position_data_count no_imo_filtered_count].

Lemma handle_static_counts s mmsi lat lon ts ship_data :
  let k := stats s in
  let k' := stats (handle_static cfg s mmsi lat lon ts ship_data) in
  collected_count k' = collected_count k + 1
  /\ (static_data_count k' + position_data_count k' + no_imo_filtered_count k'
      = static_data_count k + position_data_count k + no_imo_filtered_count k
        + if valid_imo (get (ImoNumber ship_data)) then 1
          else if SAVE_NO_IMO_VESSELS cfg then 0 else 1).
Proof.
  cbv zeta. unfold handle_static.
  destruct (compute_dimensions (Dimension ship_data)) as [len wid].
  destruct mmsi as [m|]; [destruct (truthy (Some m))|];
    destruct (get (ImoNumber ship_data)) as [imo|];
    try destruct (valid_imo (Some imo));
    try change (valid_imo None) with false;
    destruct (SAVE_NO_IMO_VESSELS cfg); counts; split; lia.
Qed.

Lemma handle_position_counts ft s mmsi lat lon ts position_data :
  let k := stats s in
  let k' := stats (handle_position cfg w ft s mmsi lat lon ts position_data) in
  collected_count k' = collected_count k + 1
  /\ (static_data_count k' + position_data_count k' + no_imo_filtered_count k'
      = static_data_count k + position_data_count k + no_imo_filtered_count k
        + match fst (resolve w ft s mmsi) with
          | Some _ => 1
          | None => if SAVE_NO_IMO_VESSELS cfg then 0 else 1
          end).
Proof.
  cbv zeta. unfold handle_position.
  set (s0 := match mmsi with
             | Some m => if truthy mmsi
                         then set_unique_vessels s ({[m]} ∪ unique_vessels s) else s
             | None => s
             end).
  assert (Hres : fst (resolve w ft s0 mmsi) = fst (resolve w ft s mmsi)).
  { unfold s0. destruct mmsi as [m|]; [|reflexivity].
    destruct (truthy (Some m)); [apply resolve_unique_vessels|reflexivity]. }
  assert (Hs0 : stats s0 = stats s).
  { unfold s0. destruct mmsi as [m|]; [|auto]. destruct (truthy (Some m)); auto. }
  destruct (resolve_frame w ft s0 mmsi) as [_ Hs]. rewrite Hs0 in Hs.
  rewrite <- Hres.
  destruct (resolve w ft s0 mmsi) as [[imo|] s2]; cbn [fst snd] in *.
  - destruct (get_recent_destination w ft (conn s2) imo) as [destination c].
    counts. rewrite Hs. split; lia.
  - destruct (SAVE_NO_IMO_VESSELS cfg); counts; rewrite Hs; split; lia.
Qed.

Lemma process_message_totals ft s msg now :
  let k := stats (state_of (handle_message cfg w ft s msg)) in
  let k' := stats (state_of (process_message cfg w ft s msg now)) in
  collected_count k' = collected_count k
  /\ filtered_count k' = filtered_count k
  /\ static_data_count k' = static_data_count k
  /\ position_data_count k' = position_data_count k
  /\ no_imo_filtered_count k' = no_imo_filtered_count k.
Proof.
  cbv zeta. rewrite process_message_state.
  destruct (handle_message cfg w ft s msg) as [s1|s1|e s1]; cbn [state_of];
    [|repeat split..].
  destruct (report_stats_totals
              (if flush_due cfg s1 now then flush ft s1 now else s1) now)
    as (-> & -> & -> & -> & ->).
  destruct (flush_due cfg s1 now); [|repeat split].
  destruct (flush_bookkeeping ft s1 now) as (_ & -> & _). repeat split.
Qed.

Lemma discarded_message_state ft s msg :
  passes_filters w msg = false ->
  state_of (handle_message cfg w ft s msg) = s
  \/ state_of (handle_message cfg w ft s msg) = set_stats s (count_filtered (stats s)).
Proof.
  unfold passes_filters, handle_message, is_point_in_north_sea, try_except.
  destruct msg as [|metadata body]; [auto|].
  destruct (get (latitude metadata)) as [lat|]; [|auto].
  destruct (get (longitude metadata)) as [lon|]; [|auto].
  destruct (north_sea_shape w lon lat) as [bs|e]; [|auto].
  destruct (any bs); [|auto]. cbn [andb].
  destruct (get_default (time_utc metadata) (str "")) as [raw|]; [|auto].
  destruct (parse_timestamp raw) as [dt|[]]; [discriminate|auto..].
Qed.

Lemma handle_message_counts ft s msg :
  let k := stats s in
  let k' := stats (state_of (handle_message cfg w ft s msg)) in
  (static_data_count k + position_data_count k + no_imo_filtered_count k
   <= collected_count k ->
   static_data_count k' + position_data_count k' + no_imo_filtered_count k'
   <= collected_count k')
  /\ (SAVE_NO_IMO_VESSELS cfg = false ->
      counters_balanced k -> counters_balanced k')
  /\ collected_count k <= collected_count k'.
Proof.
  cbv zeta. unfold counters_balanced.
  destruct (passes_filters w msg) eqn:Hpass.
  - destruct msg as [|metadata body]; [discriminate|].
    destruct (passes_filters_next cfg w ft s _ _ Hpass) as (lat & lon & dt & _ & _ & ->).
    cbn [state_of]. destruct body as [ship_data|position_data|].
    + destruct (handle_static_counts s (get (MMSI metadata)) lat lon (strftime dt) ship_data)
        as [Hc Ha].
      rewrite Hc, Ha.
      destruct (valid_imo _); [|destruct (SAVE_NO_IMO_VESSELS cfg)];
        repeat split; intros; try discriminate; lia.
    + destruct (handle_position_counts ft s (get (MMSI metadata)) lat lon (strftime dt)
                  position_data) as [Hc Ha].
      rewrite Hc, Ha.
      destruct (fst (resolve _ _ _ _)); [|destruct (SAVE_NO_IMO_VESSELS cfg)];
        repeat split; intros; try discriminate; lia.
    + repeat split; intros; try assumption; lia.
  - destruct (discarded_message_state ft s msg Hpass) as [-> | ->];
      counts; repeat split; intros; try assumption; lia.
Qed.

Lemma process_message_counts ft s msg now :
  let k := stats s in
  let k' := stats (state_of (process_message cfg w ft s msg now)) in
  (static_data_count k + position_data_count k + no_imo_filtered_count k
   <= collected_count k ->
   static_data_count k' + position_data_count k' + no_imo_filtered_count k'
   <= collected_count k')
  /\ (SAVE_NO_IMO_VESSELS cfg = false ->
      counters_balanced k -> counters_balanced k')
  /\ collected_count k <= collected_count k'.
Proof.
  cbv zeta. unfold counters_balanced.
  destruct (process_message_totals ft s msg now) as (-> & _ & -> & -> & ->).
  apply handle_message_counts.
Qed.

(** X10: over any sequence of messages and whatever store errors occur, the
    count of collected messages never decreases and stays at least the sum
    of the static, position and no-IMO-filtered counts; with the retention
    switch off it stays equal to that sum, so that every collected message
    is accounted for exactly once. *)
Theorem counters_stay_balanced (arrivals : list arrival) (s : state) :
  static_data_count (stats s) + position_data_count (stats s)
  + no_imo_filtered_count (stats s) <= collected_count (stats s) ->
  let k' := stats (run cfg w s arrivals) in
  static_data_count k' + position_data_count k' + no_imo_filtered_count k'
  <= collected_count k'
  /\ collected_count (stats s) <= collected_count k'
  /\ (SAVE_NO_IMO_VESSELS cfg = false ->
      counters_balanced (stats s) -> counters_balanced k').
Proof.
  intros Hle. cbv zeta. split; [|split].
  - revert Hle.
    apply (run_invariant
             (fun s => static_data_count (stats s) + position_data_count (stats s)
                       + no_imo_filtered_count (stats s) <= collected_count (stats s))).
    intros ft s0 msg now. apply (process_message_counts ft s0 msg now).
  - revert s Hle. induction arrivals as [|a arrivals IH]; intros s Hle; cbn [run];
      [lia|].
    destruct (process_message_counts (a_faults a) s (a_message a) (a_time a))
      as (H1 & _ & H3).
    etransitivity; [exact H3|]. apply IH, H1, Hle.
  - intros Hoff.
    apply (run_invariant (fun s => counters_balanced (stats s))).
    intros ft s0 msg now. apply (process_message_counts ft s0 msg now), Hoff.
Qed.

End Counters.

Lemma counters_stay_balanced_witness :
  counters_balanced
    (stats (run default_config sample_world (initial_state empty_db)
              [mk_arrival no_faults
                 (Message (sample_metadata 230000001 53 4)
                    (StaticPayload (sample_static (Value 9123456)))) 1;
               mk_arrival no_faults
                 (Message (sample_metadata 230000002 53 4)
                    (PositionPayload sample_position)) 2])).
Proof.
  refine (proj2 (proj2 (counters_stay_balanced default_config sample_world _
                          (initial_state empty_db) _)) eq_refl eq_refl).
  cbn. lia.
Defined.

(** ** The filtered counter *)

Section FilteredCounter.

Variables (cfg : config) (w : world).

Ltac counts :=
  cbn [stats set_stats set_pending set_conn set_mmsi_to_imo set_unique_vessels
       set_unique_vessels_with_imo count_static count_position count_collected
       count_no_imo_filtered count_filtered filtered_count].

Lemma handle_static_filtered s mmsi lat lon ts ship_data :
  filtered_count (stats (handle_static cfg s mmsi lat lon ts ship_data))
  = filtered_count (stats s).
Proof.
  unfold handle_static.
  destruct (compute_dimensions (Dimension ship_data)) as [len wid].
  destruct mmsi as [m|]; [destruct (truthy (Some m))|];
    destruct (get (ImoNumber ship_data)) as [imo|];
    try destruct (valid_imo (Some imo));
    try change (valid_imo None) with false;
    destruct (SAVE_NO_IMO_VESSELS cfg); counts; reflexivity.
Qed.

Lemma handle_position_filtered ft s mmsi lat lon ts position_data :
  filtered_count (stats (handle_position cfg w ft s mmsi lat lon ts position_data))
  = filtered_count (stats s).
Proof.
  unfold handle_position.
  set (s0 := match mmsi with
             | Some m => if truthy mmsi
                         then set_unique_vessels s ({[m]} ∪ unique_vessels s) else s
             | None => s
             end).
  assert (Hs0 : stats s0 = stats s).
  { unfold s0. destruct mmsi as [m|]; [|auto]. destruct (truthy (Some m)); auto. }
  destruct (resolve_frame w ft s0 mmsi) as [_ Hs]. rewrite Hs0 in Hs.
  destruct (resolve w ft s0 mmsi) as [[imo|] s2]; cbn [fst snd] in *.
  - destruct (get_recent_destination w ft (conn s2) imo) as [destination c].
    counts. rewrite Hs. reflexivity.
  - destruct (SAVE_NO_IMO_VESSELS cfg); counts; rewrite Hs; reflexivity.
Qed.

(** C8 (amended): a message whose latitude or longitude is absent is
    discarded without further processing and without a change to any
    counter.  The filtered counter goes up by one exactly when both
    coordinates are present and the region check answers [False], which it
    does for a position outside every polygon and for a geometry test that
    raises; for every other message it keeps its value. *)
Theorem absent_position_skipped (ft : faults)
    (s : state) (metadata : MetaData) (body : payload) (now : Q) :
  let s' := state_of (process_message cfg w ft s (Message metadata body) now) in
  (get (latitude metadata) = None \/ get (longitude metadata) = None ->
   process_message cfg w ft s (Message metadata body) now = Continue s)
  /\ (forall lat lon bs,
        get (latitude metadata) = Some lat -> get (longitude metadata) = Some lon ->
        north_sea_shape w lon lat = Ok bs -> any bs = false ->
        process_message cfg w ft s (Message metadata body) now
        = Continue (set_stats s (count_filtered (stats s))))
  /\ (forall lat lon e,
        get (latitude metadata) = Some lat -> get (longitude metadata) = Some lon ->
        north_sea_shape w lon lat = Raise e ->
        process_message cfg w ft s (Message metadata body) now
        = Continue (set_stats s (count_filtered (stats s))))
  /\ (filtered_count (stats s') = filtered_count (stats s) + 1
      <-> exists lat lon,
            get (latitude metadata) = Some lat
            /\ get (longitude metadata) = Some lon
            /\ is_point_in_north_sea (Some lat) (Some lon) (north_sea_shape w)
               = Ok false)
  /\ (filtered_count (stats s') = filtered_count (stats s)
      \/ filtered_count (stats s') = filtered_count (stats s) + 1).
Proof.
  cbv zeta.
  assert (Habsent :
            get (latitude metadata) = None \/ get (longitude metadata) = None ->
            process_message cfg w ft s (Message metadata body) now = Continue s).
  { unfold process_message, handle_message. intros [-> | ->]; [reflexivity|].
    destruct (get (latitude metadata)); reflexivity. }
  assert (Hout : forall lat lon,
            get (latitude metadata) = Some lat -> get (longitude metadata) = Some lon ->
            is_point_in_north_sea (Some lat) (Some lon) (north_sea_shape w) = Ok false ->
            process_message cfg w ft s (Message metadata body) now
            = Continue (set_stats s (count_filtered (stats s)))).
  { intros lat lon Hlat Hlon Hcheck. unfold process_message, handle_message.
    rewrite Hlat, Hlon, Hcheck. reflexivity. }
  split; [exact Habsent|]. split; [|split].
  { intros lat lon bs Hlat Hlon Hbs Hany. apply (Hout lat lon Hlat Hlon).
    unfold is_point_in_north_sea, try_except. rewrite Hbs, Hany. reflexivity. }
  { intros lat lon e Hlat Hlon He. apply (Hout lat lon Hlat Hlon).
    unfold is_point_in_north_sea, try_except. rewrite He. reflexivity. }
  destruct (get (latitude metadata)) as [lat|] eqn:Hlat.
  2:{ rewrite Habsent by auto. cbn [state_of]. split; [|left; reflexivity].
      split; [lia|]. intros (? & ? & ? & _). discriminate. }
  destruct (get (longitude metadata)) as [lon|] eqn:Hlon.
  2:{ rewrite Habsent by auto. cbn [state_of]. split; [|left; reflexivity].
      split; [lia|]. intros (? & ? & _ & ? & _). discriminate. }
  destruct (is_point_in_north_sea (Some lat) (Some lon) (north_sea_shape w))
    as [[|]|e] eqn:Hcheck.
  - (* in the region *)
    assert (Hsame : filtered_count
                      (stats (state_of (process_message cfg w ft s
                                          (Message metadata body) now)))
                    = filtered_count (stats s)).
    { destruct (process_message_totals cfg w ft s (Message metadata body) now)
        as (_ & -> & _).
      unfold handle_message. rewrite Hlat, Hlon, Hcheck.
      destruct (get_default (time_utc metadata) (str "")) as [raw|]; [|reflexivity].
      destruct (parse_timestamp raw) as [dt|[]]; try reflexivity.
      destruct body; cbn [state_of];
        [apply handle_static_filtered|apply handle_position_filtered|reflexivity]. }
    rewrite Hsame. split; [|left; reflexivity].
    split; [lia|]. intros (lat' & lon' & [= <-] & [= <-] & Hfalse).
    rewrite Hcheck in Hfalse. discriminate.
  - (* the check answers False *)
    rewrite (Hout lat lon eq_refl eq_refl Hcheck). cbn [state_of]. counts.
    split; [|right; reflexivity]. split; [eauto|reflexivity].
  - (* the check does not raise *)
    exfalso. revert Hcheck. unfold is_point_in_north_sea, try_except.
    destruct (north_sea_shape w lon lat); discriminate.
Qed.

End FilteredCounter.

Lemma absent_position_skipped_witness :
  process_message default_config sample_world no_faults (initial_state empty_db)
    (Message metadata_without_latitude (PositionPayload sample_position)) 1
  = Continue (initial_state empty_db).
Proof.
  exact (proj1 (absent_position_skipped default_config sample_world no_faults
                  (initial_state empty_db) metadata_without_latitude
                  (PositionPayload sample_position) 1)
           (or_introl eq_refl)).
Defined.

(** ** Vessels seen and vessels identified *)

Section Coverage.

Variables (cfg : config) (w : world).

Ltac sets :=
  cbn [unique_vessels unique_vessels_with_imo set_stats set_pending set_conn
       set_mmsi_to_imo set_unique_vessels set_unique_vessels_with_imo fst snd].

Lemma handle_static_identified s mmsi lat lon ts ship_data :
  identified_are_seen s ->
  identified_are_seen (handle_static cfg s mmsi lat lon ts ship_data).
Proof.
  unfold identified_are_seen, handle_static. intros Hs.
  destruct (compute_dimensions (Dimension ship_data)) as [len wid].
  destruct mmsi as [m|]; [destruct (truthy (Some m))|];
    destruct (get (ImoNumber ship_data)) as [imo|];
    try destruct (valid_imo (Some imo));
    try change (valid_imo None) with false;
    destruct (SAVE_NO_IMO_VESSELS cfg); sets;
    intros x Hx Hin; try (apply Hs; assumption);
    try (apply elem_of_union in Hin as [Hin | Hin];
         [set_solver | apply elem_of_union_r, Hs; assumption]);
    try (apply elem_of_union_r, Hs; assumption).
Qed.

Lemma resolve_identified ft s mmsi :
  unique_vessels (snd (resolve w ft s mmsi)) = unique_vessels s
  /\ (unique_vessels_with_imo (snd (resolve w ft s mmsi)) = unique_vessels_with_imo s
      \/ exists m, mmsi = Some m
                   /\ unique_vessels_with_imo (snd (resolve w ft s mmsi))
                      = {[m]} ∪ unique_vessels_with_imo s).
Proof.
  unfold resolve. destruct mmsi as [m|]; cbn [mbind option_bind]; [|auto].
  destruct (mmsi_to_imo s !! m); [sets; eauto|].
  destruct (find_imo_by_mmsi w ft (conn s) (Some m)) as [[imo|] c]; sets; eauto.
Qed.

Lemma handle_position_identified ft s mmsi lat lon ts position_data :
  identified_are_seen s ->
  identified_are_seen (handle_position cfg w ft s mmsi lat lon ts position_data).
Proof.
  unfold identified_are_seen, handle_position. intros Hs.
  set (s0 := match mmsi with
             | Some m => if truthy mmsi
                         then set_unique_vessels s ({[m]} ∪ unique_vessels s) else s
             | None => s
             end).
  assert (H0 : forall x, x <> 0 ->
                 (x ∈ unique_vessels_with_imo s0 \/ mmsi = Some x) ->
                 x ∈ unique_vessels s0).
  { unfold s0. intros x Hx [Hin | ->].
    - destruct mmsi as [m|]; [destruct (truthy (Some m))|]; sets;
        try (apply elem_of_union_r); apply Hs; assumption.
    - cbn [truthy]. apply Z.eqb_neq in Hx. rewrite Hx. cbn [negb]. sets.
      set_solver. }
  destruct (resolve_identified ft s0 mmsi) as [Hu Hw].
  assert (H2 : forall x, x <> 0 ->
                 x ∈ unique_vessels_with_imo (snd (resolve w ft s0 mmsi)) ->
                 x ∈ unique_vessels (snd (resolve w ft s0 mmsi))).
  { intros x Hx Hin. rewrite Hu. apply H0; [exact Hx|].
    destruct Hw as [Hw | (m & -> & Hw)]; rewrite Hw in Hin; [auto|].
    apply elem_of_union in Hin as [Hin | Hin]; [|auto].
    right. f_equal. set_solver. }
  destruct (resolve w ft s0 mmsi) as [[imo|] s2]; cbn [fst snd] in *.
  - destruct (get_recent_destination w ft (conn s2) imo) as [destination c].
    sets. exact H2.
  - destruct (SAVE_NO_IMO_VESSELS cfg); sets; exact H2.
Qed.

Lemma process_message_identified ft s msg now :
  identified_are_seen s ->
  identified_are_seen (state_of (process_message cfg w ft s msg now)).
Proof.
  intros Hs. rewrite process_message_state.
  destruct (passes_filters w msg) eqn:Hpass.
  - destruct msg as [|metadata body]; [discriminate|].
    destruct (passes_filters_next cfg w ft s _ _ Hpass) as (lat & lon & dt & _ & _ & ->).
    set (s1 := match body with
               | StaticPayload ship_data =>
                   handle_static cfg s (get (MMSI metadata)) lat lon (strftime dt) ship_data
               | PositionPayload position_data =>
                   handle_position cfg w ft s (get (MMSI metadata)) lat lon
                     (strftime dt) position_data
               | OtherPayload => s
               end).
    assert (H1 : identified_are_seen s1).
    { unfold s1. destruct body;
        [apply handle_static_identified|apply handle_position_identified|];
        exact Hs. }
    unfold identified_are_seen in *.
    destruct (report_stats_frame
                (if flush_due cfg s1 now then flush ft s1 now else s1) now)
      as (_ & -> & -> & _).
    destruct (flush_due cfg s1 now); [|exact H1].
    destruct (flush_bookkeeping ft s1 now) as (_ & _ & -> & ->). exact H1.
  - pose proof (discarded_message_state cfg w ft s msg Hpass) as Hd.
    destruct (handle_message cfg w ft s msg) as [s1|s1|e s1] eqn:Hh;
      cbn [state_of] in *.
    + exfalso.
      destruct (fails_filters_skips cfg w ft s msg Hpass)
        as [(s' & Heq & _) | (e & Heq)]; rewrite Heq in Hh; discriminate.
    + destruct Hd as [-> | ->]; exact Hs.
    + destruct Hd as [-> | ->]; exact Hs.
Qed.

(** X11: over any sequence of messages, every vessel counted as identified,
    but for the MMSI 0, is also counted as seen, so that apart from MMSI 0
    the identified vessels are a part of the vessels seen. *)
Theorem identified_vessels_are_seen (arrivals : list arrival) (s : state) :
  identified_are_seen s -> identified_are_seen (run cfg w s arrivals).
Proof.
  apply (run_invariant cfg w identified_are_seen).
  intros ft s0 msg now. apply process_message_identified.
Qed.

End Coverage.

Lemma identified_vessels_are_seen_witness :
  identified_are_seen
    (run default_config sample_world (initial_state empty_db)
       [mk_arrival no_faults
          (Message (sample_metadata 230000001 53 4)
             (StaticPayload (sample_static (Value 9123456)))) 1]).
Proof.
  apply identified_vessels_are_seen.
  intros m _ Hin. cbn in Hin. exact Hin.
Defined.

(** The MMSI 0 is the exception: a static message and a position report
    with MMSI 0 leave it identified and not seen. *)
Example mmsi_zero_identified_not_seen :
  let s := run default_config sample_world (initial_state empty_db)
             [mk_arrival no_faults
                (Message (sample_metadata 0 53 4)
                   (StaticPayload (sample_static (Value 9123456)))) 1;
              mk_arrival no_faults
                (Message (sample_metadata 0 53 4)
                   (PositionPayload sample_position)) 2] in
  bool_decide (0 ∈ unique_vessels_with_imo s) = true
  /\ bool_decide (0 ∈ unique_vessels s) = false.
Proof. split; vm_compute; reflexivity. Qed.

(** ** Waiting before a reconnection *)

Section Backoff.

Lemma retry_delay_eq n : retry_delay n = Z.min 60 (2 ^ (n - 1)).
Proof. unfold retry_delay, max_retry_delay, min_retry_delay. f_equal. lia. Qed.

Lemma connect_rounds_failures k : forall j,
  connect_rounds (Z.of_nat j) (repeat false k)
  = map (fun i => if (i =? 0)%nat then None else Some (retry_delay (Z.of_nat i)))
        (seq j k).
Proof.
  induction k as [|k IH]; intros j; [reflexivity|].
  cbn [repeat connect_rounds connect_round seq map].
  replace (Z.of_nat j + 1) with (Z.of_nat (S j)) by lia. rewrite IH. f_equal.
  destruct j; [reflexivity|].
  replace (0 <? Z.of_nat (S j)) with true by (symmetry; apply Z.ltb_lt; lia).
  reflexivity.
Qed.

(** X12: the wait before a reconnection, before jitter, is at least 1 and
    at most 60 seconds and never shrinks from one failed attempt to the
    next; it doubles up to 32 seconds and is 60 seconds from the seventh
    attempt on.  A run of failed attempts that starts with the counter at
    zero waits nothing, then 1, 2, 4, ... seconds; and after an attempt
    that connects, the next attempt is made without a wait. *)
Theorem reconnect_waits :
  (forall n, 1 <= n ->
     1 <= retry_delay n <= 60 /\ retry_delay n <= retry_delay (n + 1))
  /\ (forall n, 1 <= n <= 5 -> retry_delay (n + 1) = 2 * retry_delay n)
  /\ (forall n, 7 <= n -> retry_delay n = 60)
  /\ (forall k,
        connect_rounds 0 (repeat false k)
        = map (fun i => if (i =? 0)%nat then None
                        else Some (retry_delay (Z.of_nat i)))
              (seq 0 k))
  /\ (forall n connects rest,
        exists wait waits,
          connect_rounds n (true :: connects :: rest) = wait :: None :: waits).
Proof.
  split; [|split; [|split; [|split]]].
  - intros n Hn. rewrite !retry_delay_eq.
    assert (H1 : 1 <= 2 ^ (n - 1)) by (apply (Z.pow_le_mono_r 2 0 (n - 1)); lia).
    assert (H2 : 2 ^ (n - 1) <= 2 ^ (n + 1 - 1)) by (apply Z.pow_le_mono_r; lia).
    lia.
  - intros n Hn. rewrite !retry_delay_eq.
    assert (Hc : n = 1 \/ n = 2 \/ n = 3 \/ n = 4 \/ n = 5) by lia.
    destruct Hc as [-> | [-> | [-> | [-> | ->]]]]; reflexivity.
  - intros n Hn. rewrite retry_delay_eq.
    assert (H : 2 ^ 6 <= 2 ^ (n - 1)) by (apply Z.pow_le_mono_r; lia).
    change (2 ^ 6) with 64 in H. lia.
  - intros k. apply (connect_rounds_failures k 0%nat).
  - intros n connects rest. cbn [connect_rounds connect_round].
    eexists _, _. reflexivity.
Qed.

End Backoff.

Lemma reconnect_waits_witness :
  1 <= retry_delay 9 <= 60 /\ retry_delay 9 <= retry_delay (9 + 1).
Proof.
  apply (proj1 reconnect_waits 9). lia.
Defined.

(** ** Messages the handlers cannot place *)

(** X13: a position report without an MMSI that passes the filters is never
    stored as a position observation and never makes a call on the store;
    the mapping and the sets of vessels stay as they were.  With the
    retention switch off it is discarded and counted as filtered for want
    of an IMO; with the switch on it becomes an unidentified observation
    without MMSI. *)
Theorem position_without_mmsi (cfg : config) (w : world) (ft : faults) (s : state)
    (metadata : MetaData) (position_data : PositionReport) :
  passes_filters w (Message metadata (PositionPayload position_data)) = true ->
  get (MMSI metadata) = None ->
  exists s1,
    handle_message cfg w ft s (Message metadata (PositionPayload position_data))
    = Next s1
    /\ conn s1 = conn s
    /\ mmsi_to_imo s1 = mmsi_to_imo s
    /\ unique_vessels s1 = unique_vessels s
    /\ unique_vessels_with_imo s1 = unique_vessels_with_imo s
    /\ position_data_batch (pending s1) = position_data_batch (pending s)
    /\ (SAVE_NO_IMO_VESSELS cfg = false ->
        pending s1 = pending s
        /\ no_imo_filtered_count (stats s1) = no_imo_filtered_count (stats s) + 1)
    /\ (SAVE_NO_IMO_VESSELS cfg = true ->
        exists row,
          unknown_data_batch (pending s1) = unknown_data_batch (pending s) ++ [row]
          /\ u_mmsi row = None /\ u_imo_number row = -1).
Proof.
  intros Hpass Hm.
  destruct (passes_filters_next cfg w ft s _ _ Hpass) as (lat & lon & dt & _ & _ & ->).
  eexists. split; [reflexivity|]. rewrite Hm.
  unfold handle_position, resolve. cbn [mbind option_bind].
  destruct (SAVE_NO_IMO_VESSELS cfg); cbn; repeat split; try discriminate;
    intros _; repeat split. eexists. repeat split.
Qed.

Lemma position_without_mmsi_witness :
  exists s1,
    handle_message default_config sample_world no_faults (initial_state shared_mmsi_db)
      (Message (mk_MetaData Missing (Value 53%Q) (Value 4%Q)
                  (Value (str "2024-01-02 03:04:05.1 +0000 UTC")))
         (PositionPayload sample_position))
    = Next s1
    /\ conn s1 = conn (initial_state shared_mmsi_db).
Proof.
  destruct (position_without_mmsi default_config sample_world no_faults
              (initial_state shared_mmsi_db)
              (mk_MetaData Missing (Value 53%Q) (Value 4%Q)
                 (Value (str "2024-01-02 03:04:05.1 +0000 UTC")))
              sample_position)
    as (s1 & H1 & H2 & _).
  - vm_compute. reflexivity.
  - reflexivity.
  - exists s1. split; assumption.
Defined.

(** X14: a message with a position in the region whose timestamp is missing
    or does not parse is dropped with the state exactly as it was: no
    counter, list, mapping or set changes and no flush is made, whatever
    time has passed. *)
Theorem unparsable_timestamp_dropped (cfg : config) (w : world) (ft : faults)
    (s : state) (metadata : MetaData) (body : payload) (now : Q)
    (lat lon : Q) (bs : list bool) (raw : text) (e : exn) :
  get (latitude metadata) = Some lat -> get (longitude metadata) = Some lon ->
  north_sea_shape w lon lat = Ok bs -> any bs = true ->
  get_default (time_utc metadata) (str "") = Some raw ->
  parse_timestamp raw = Raise e ->
  process_message cfg w ft s (Message metadata body) now = Continue s
  /\ parse_timestamp (str "") = Raise ValueError.
Proof.
  intros Hlat Hlon Hbs Hany Hraw Hparse. split; [|reflexivity].
  unfold process_message, handle_message, is_point_in_north_sea, try_except.
  rewrite Hlat, Hlon, Hbs, Hany, Hraw.
  rewrite (parse_timestamp_only_ValueError _ _ Hparse) in Hparse.
  rewrite Hparse. reflexivity.
Qed.

Lemma unparsable_timestamp_dropped_witness :
  process_message default_config sample_world no_faults two_positions_pending
    (Message (mk_MetaData (Value 230000001) (Value 53%Q) (Value 4%Q) Missing)
       (PositionPayload sample_position)) 20
  = Continue two_positions_pending.
Proof.
  exact (proj1 (unparsable_timestamp_dropped default_config sample_world no_faults
                  two_positions_pending
                  (mk_MetaData (Value 230000001) (Value 53%Q) (Value 4%Q) Missing)
                  (PositionPayload sample_position) 20 53 4 _ (str "") ValueError
                  eq_refl eq_refl eq_refl eq_refl eq_refl eq_refl)).
Defined.

(** ** The schema migration *)

Section Migration.

Implicit Types (cat : catalog) (t c name : string).

(** An invariant of the turns of a loop that does not raise. *)
Lemma for_each_invariant {S A} (P : S -> Prop) (body : S -> A -> result S) l :
  (forall x s s', x ∈ l -> P s -> body s x = Ok s' -> P s') ->
  forall s s', P s -> for_each body l s = Ok s' -> P s'.
Proof.
  induction l as [|x l IH]; intros Hbody s s' Hs; cbn [for_each].
  - intros [= <-]. exact Hs.
  - destruct (body s x) as [s1|e] eqn:Hx; [|discriminate].
    apply IH.
    + intros y s2 s3 Hy. apply Hbody, elem_of_cons. auto.
    + apply (Hbody x s s1); [apply elem_of_cons; auto|exact Hs|exact Hx].
Qed.

Lemma for_each_skips {S A} (body : S -> A -> result S) l s :
  (forall x, x ∈ l -> body s x = Ok s) -> for_each body l s = Ok s.
Proof.
  induction l as [|x l IH]; intros H; cbn [for_each]; [reflexivity|].
  rewrite (H x) by (apply elem_of_cons; auto).
  apply IH. intros y Hy. apply H, elem_of_cons. auto.
Qed.

Lemma elem_of_indexes_of cat t name :
  name ∈ indexes_of cat t <-> cat_indexes cat !! name = Some t.
Proof.
  unfold indexes_of. rewrite elem_of_dom. split.
  - intros [t' Ht']. apply map_lookup_filter_Some in Ht' as [Hl Heq].
    cbn in Heq. subst t'. exact Hl.
  - intros Hl. exists t. apply map_lookup_filter_Some. split; [exact Hl|reflexivity].
Qed.

Lemma columns_of_insert_ne cat t t' m ix ks oc oi :
  t <> t' ->
  columns_of (mk_catalog (<[t := m]> (cat_columns cat)) ix ks oc oi) t'
  = columns_of cat t'.
Proof.
  intros Hne. unfold columns_of. cbn. rewrite lookup_insert_ne by exact Hne.
  reflexivity.
Qed.

Lemma columns_of_insert_eq cat t m ix ks oc oi :
  columns_of (mk_catalog (<[t := m]> (cat_columns cat)) ix ks oc oi) t = m.
Proof. unfold columns_of. cbn. rewrite lookup_insert_eq. reflexivity. Qed.

Lemma columns_of_eq cat cat' t :
  cat_columns cat' !! t = cat_columns cat !! t -> columns_of cat' t = columns_of cat t.
Proof. unfold columns_of. intros ->. reflexivity. Qed.

(** *** What a statement that does not raise has done *)

Lemma create_table_ok cat t columns cat' :
  create_table cat t columns = Ok cat' ->
  cat_columns cat !! t = None
  /\ references_hold cat columns = true
  /\ cat' = mk_catalog (<[t := list_to_map columns]> (cat_columns cat))
              (cat_indexes cat) (<[t := key_columns columns]> (cat_keys cat))
              (other_columns cat) (other_indexes cat).
Proof.
  unfold create_table, relation_exists.
  destruct (bool_decide (t ∈ public_tables cat)) eqn:Ht; [discriminate|]. cbn [orb].
  destruct (bool_decide (is_Some (cat_indexes cat !! t))); [discriminate|].
  destruct (references_hold cat columns); [|discriminate]. intros [= <-].
  apply bool_decide_eq_false in Ht. unfold public_tables in Ht.
  apply not_elem_of_dom in Ht. auto.
Qed.

Lemma create_index_ok cat t name on cat' :
  create_index cat t name on = Ok cat' ->
  cat_indexes cat !! name = None
  /\ cat' = mk_catalog (cat_columns cat) (<[name := t]> (cat_indexes cat))
              (cat_keys cat) (other_columns cat) (other_indexes cat).
Proof.
  unfold create_index, relation_exists.
  destruct (bool_decide (name ∈ public_tables cat)); [discriminate|]. cbn [orb].
  destruct (bool_decide (is_Some (cat_indexes cat !! name))) eqn:Hn; [discriminate|].
  destruct (_ && _); [|discriminate]. intros [= <-].
  apply bool_decide_eq_false in Hn. split; [|reflexivity].
  destruct (cat_indexes cat !! name); [|reflexivity]. destruct Hn. eauto.
Qed.

Lemma add_column_ok cat t c ty cat' :
  add_column cat t c ty = Ok cat' ->
  is_Some (cat_columns cat !! t) /\ columns_of cat t !! c = None
  /\ cat' = mk_catalog (<[t := <[c := ty]> (columns_of cat t)]> (cat_columns cat))
              (cat_indexes cat) (cat_keys cat)
              (other_columns cat) (other_indexes cat).
Proof.
  unfold add_column.
  destruct (bool_decide (t ∈ public_tables cat)) eqn:Ht; [|discriminate]. cbn [andb].
  destruct (bool_decide (c ∈ dom (columns_of cat t))) eqn:Hc; [discriminate|].
  intros [= <-]. apply bool_decide_eq_true in Ht. unfold public_tables in Ht.
  apply elem_of_dom in Ht.
  apply bool_decide_eq_false in Hc. apply not_elem_of_dom in Hc. auto.
Qed.

(** *** Nothing is taken away *)

Ltac split_extends :=
  unfold catalog_extends;
  refine (conj _ (conj _ (conj _ (conj _ (conj _ (conj _ _))))));
  cbn [cat_columns cat_indexes cat_keys other_columns other_indexes].

Lemma catalog_extends_refl cat : catalog_extends cat cat.
Proof. split_extends; auto. Qed.

Lemma catalog_extends_trans cat1 cat2 cat3 :
  catalog_extends cat1 cat2 -> catalog_extends cat2 cat3 -> catalog_extends cat1 cat3.
Proof.
  intros (A1 & A2 & A3 & A4 & A5 & A7 & A8) (B1 & B2 & B3 & B4 & B5 & B7 & B8).
  split_extends.
  - intros t Ht. apply B1, A1, Ht.
  - intros t. etrans; [apply A2|apply B2].
  - etrans; [apply A3|apply B3].
  - intros name t Ht. destruct (B4 _ _ Ht) as [H|H]; [apply A4, H|auto].
  - intros t Ht. rewrite B5 by (apply A1, Ht). apply A5, Ht.
  - congruence.
  - congruence.
Qed.

Lemma create_table_extends cat t columns cat' :
  create_table cat t columns = Ok cat' -> catalog_extends cat cat'.
Proof.
  intros (Hnone & _ & ->)%create_table_ok. split_extends.
  - intros t' Ht'. destruct (decide (t = t')) as [->|Hne].
    + rewrite lookup_insert_eq. eauto.
    + rewrite lookup_insert_ne by exact Hne. exact Ht'.
  - intros t'. destruct (decide (t = t')) as [->|Hne].
    + unfold columns_of at 1. rewrite Hnone. apply map_empty_subseteq.
    + rewrite columns_of_insert_ne by exact Hne. reflexivity.
  - reflexivity.
  - auto.
  - intros t' Ht'. rewrite lookup_insert_ne; [reflexivity|].
    intros ->. rewrite Hnone in Ht'. destruct Ht' as [? [=]].
  - reflexivity.
  - reflexivity.
Qed.

Lemma create_index_extends cat name on cat' :
  create_index cat "ship_static_data_temp" name on = Ok cat' ->
  catalog_extends cat cat'.
Proof.
  intros (Hnone & ->)%create_index_ok. split_extends; auto.
  - apply insert_subseteq, Hnone.
  - intros name' t. destruct (decide (name = name')) as [->|Hne].
    + rewrite lookup_insert_eq. intros [= <-]. auto.
    + rewrite lookup_insert_ne by exact Hne. auto.
Qed.

Lemma add_column_extends cat t c ty cat' :
  add_column cat t c ty = Ok cat' -> catalog_extends cat cat'.
Proof.
  intros (Hsome & Hnone & ->)%add_column_ok. split_extends; auto.
  - intros t' Ht'. destruct (decide (t = t')) as [->|Hne].
    + rewrite lookup_insert_eq. eauto.
    + rewrite lookup_insert_ne by exact Hne. exact Ht'.
  - intros t'. destruct (decide (t = t')) as [->|Hne].
    + rewrite columns_of_insert_eq. apply insert_subseteq, Hnone.
    + rewrite columns_of_insert_ne by exact Hne. reflexivity.
Qed.

Lemma for_each_extends {A} (body : catalog -> A -> result catalog) l :
  (forall x cat cat', x ∈ l -> body cat x = Ok cat' -> catalog_extends cat cat') ->
  forall cat cat', for_each body l cat = Ok cat' -> catalog_extends cat cat'.
Proof.
  intros Hbody cat cat'.
  apply (for_each_invariant (catalog_extends cat)); [|apply catalog_extends_refl].
  intros x s s' Hx Hs Hstep. eapply catalog_extends_trans; [exact Hs|].
  eapply Hbody; eassumption.
Qed.

(** *** The first loop *)

Lemma create_indexes_ok (l : list (string * list string)) cat cat' :
  for_each (fun cat index => create_index cat "ship_static_data_temp" index.1 index.2)
    l cat = Ok cat' ->
  catalog_extends cat cat'
  /\ cat_columns cat' = cat_columns cat /\ cat_keys cat' = cat_keys cat
  /\ forall index, index ∈ l ->
       cat_indexes cat' !! index.1 = Some "ship_static_data_temp".
Proof.
  revert cat. induction l as [|x l IH]; intros cat; cbn [for_each].
  - intros [= <-]. split; [apply catalog_extends_refl|].
    repeat split; auto. intros index Hin. apply elem_of_nil in Hin as [].
  - destruct (create_index _ _ _ _) as [cat0|] eqn:Hx; [|discriminate].
    intros (Hext & Hcols & Hkeys & Hix)%IH.
    pose proof (create_index_extends _ _ _ _ Hx) as Hext0.
    apply create_index_ok in Hx as [_ ->]. cbn in Hcols, Hkeys.
    split; [eapply catalog_extends_trans; eassumption|].
    repeat split; [assumption..|].
    intros index [->|Hin]%elem_of_cons; [|apply Hix, Hin].
    destruct Hext as (_ & _ & Hsub & _).
    eapply lookup_weaken; [|exact Hsub]. cbn. apply lookup_insert_eq.
Qed.

Lemma create_if_missing_ok (E : gset string) cat t columns cat' :
  create_if_missing E cat (t, columns) = Ok cat' ->
  (t ∈ E /\ cat' = cat)
  \/ ((t ∉ E) /\ exists cat0,
        create_table cat t columns = Ok cat0
        /\ catalog_extends cat0 cat'
        /\ cat_columns cat' = cat_columns cat0 /\ cat_keys cat' = cat_keys cat0
        /\ (t = "ship_static_data_temp" ->
            forall index, index ∈ static_data_indexes ->
              cat_indexes cat' !! index.1 = Some "ship_static_data_temp")).
Proof.
  unfold create_if_missing.
  destruct (decide (t ∈ E)) as [Hin|Hout]; [intros [= <-]; auto|].
  destruct (create_table cat t columns) as [cat0|] eqn:Hc; [|discriminate].
  intros H. right. split; [exact Hout|]. exists cat0. split; [reflexivity|].
  destruct (String.eqb t "ship_static_data_temp") eqn:Ht.
  - apply String.eqb_eq in Ht. subst t.
    apply create_indexes_ok in H as (? & ? & ? & ?). auto.
  - injection H as <-. apply String.eqb_neq in Ht.
    split; [apply catalog_extends_refl|]. repeat split. intros ?. contradiction.
Qed.

Lemma create_if_missing_extends (E : gset string) cat entry cat' :
  create_if_missing E cat entry = Ok cat' -> catalog_extends cat cat'.
Proof.
  destruct entry as [t columns].
  intros [[_ ->]|(_ & cat0 & Hc & Hext & _)]%create_if_missing_ok;
    [apply catalog_extends_refl|].
  eapply catalog_extends_trans; [|exact Hext].
  eapply create_table_extends, Hc.
Qed.

Lemma first_loop_extends (E : gset string) l cat cat' :
  for_each (create_if_missing E) l cat = Ok cat' -> catalog_extends cat cat'.
Proof.
  apply for_each_extends. intros x c1 c2 _. apply create_if_missing_extends.
Qed.

Lemma first_loop_untouched (E : gset string) l cat cat' t :
  t ∈ E \/ t ∉ l.*1 ->
  for_each (create_if_missing E) l cat = Ok cat' ->
  cat_columns cat' !! t = cat_columns cat !! t
  /\ cat_keys cat' !! t = cat_keys cat !! t.
Proof.
  intros Ht.
  apply (for_each_invariant
           (fun cat0 => cat_columns cat0 !! t = cat_columns cat !! t
                     /\ cat_keys cat0 !! t = cat_keys cat !! t)); [|auto].
  intros [t0 columns] c1 c2 Hx [Hcols Hkeys]
    [[_ ->]|(Hout & cat0 & Hc & _ & -> & -> & _)]%create_if_missing_ok; [auto|].
  assert (t0 <> t) as Hne.
  { intros ->. destruct Ht as [Ht|Ht]; [contradiction|].
    apply Ht, list_elem_of_fmap. exists (t, columns). auto. }
  apply create_table_ok in Hc as (_ & _ & ->). cbn.
  rewrite !lookup_insert_ne by exact Hne. auto.
Qed.

Lemma first_loop_creates (E : gset string) l cat cat' t columns :
  NoDup l.*1 -> (t, columns) ∈ l -> t ∉ E ->
  for_each (create_if_missing E) l cat = Ok cat' ->
  cat_columns cat' !! t = Some (list_to_map columns)
  /\ cat_keys cat' !! t = Some (key_columns columns)
  /\ (t = "ship_static_data_temp" ->
      forall index, index ∈ static_data_indexes ->
        cat_indexes cat' !! index.1 = Some "ship_static_data_temp").
Proof.
  revert cat. induction l as [|x l IH]; intros cat Hnd Hin Hout;
    [apply elem_of_nil in Hin as []|].
  cbn [for_each]. destruct (create_if_missing E cat x) as [cat1|] eqn:Hx;
    [|discriminate].
  intros Hrest. apply NoDup_cons in Hnd as [Hfresh Hnd].
  apply elem_of_cons in Hin as [<-|Hin]; [|eapply IH; eassumption].
  apply create_if_missing_ok in Hx
    as [[? _]|(_ & cat0 & Hc & _ & Hcols & Hkeys & Hix)]; [contradiction|].
  destruct (first_loop_untouched E l cat1 cat' t (or_intror Hfresh) Hrest)
    as [-> ->].
  rewrite Hcols, Hkeys. apply create_table_ok in Hc as (_ & _ & ->). cbn.
  rewrite !lookup_insert_eq. repeat split.
  intros Ht index Hindex.
  destruct (first_loop_extends _ _ _ _ Hrest) as (_ & _ & Hsub & _).
  eapply lookup_weaken; [|exact Hsub]. apply Hix; assumption.
Qed.

(** *** The columns added to an existing table *)

Lemma add_columns_extends (Ex : gset string) t (columns : list (string * string))
    cat cat' :
  for_each (fun cat col =>
              if decide (fst col ∈ Ex) then Ok cat
              else add_column cat t (fst col) (clean_type (snd col)))
    columns cat = Ok cat' ->
  catalog_extends cat cat'
  /\ (forall t', t' <> t -> cat_columns cat' !! t' = cat_columns cat !! t')
  /\ cat_keys cat' = cat_keys cat /\ cat_indexes cat' = cat_indexes cat.
Proof.
  intros H. split.
  - revert H. apply for_each_extends. intros x c1 c2 _.
    destruct (decide _); [intros [= <-]; apply catalog_extends_refl|].
    apply add_column_extends.
  - revert H.
    apply (for_each_invariant
             (fun cat0 => (forall t', t' <> t ->
                          cat_columns cat0 !! t' = cat_columns cat !! t')
                       /\ cat_keys cat0 = cat_keys cat
                       /\ cat_indexes cat0 = cat_indexes cat)); [|auto].
    intros x c1 c2 _ (Hcols & Hkeys & Hix).
    destruct (decide _); [intros [= <-]; auto|].
    intros (_ & _ & ->)%add_column_ok. cbn. repeat split; [|assumption..].
    intros t' Hne. rewrite lookup_insert_ne by auto. apply Hcols, Hne.
Qed.

Lemma add_columns_lookup (Ex : gset string) t (columns : list (string * string))
    cat cat' c :
  NoDup columns.*1 ->
  for_each (fun cat col =>
              if decide (fst col ∈ Ex) then Ok cat
              else add_column cat t (fst col) (clean_type (snd col)))
    columns cat = Ok cat' ->
  columns_of cat' t !! c
  = if decide (c ∈ Ex) then columns_of cat t !! c
    else match list_to_map (M := gmap string string) columns !! c with
         | Some ty => Some (clean_type ty)
         | None => columns_of cat t !! c
         end.
Proof.
  revert cat. induction columns as [|[c0 ty0] columns IH]; intros cat Hnd;
    cbn [for_each].
  - intros [= <-]. destruct (decide _); reflexivity.
  - apply NoDup_cons in Hnd as [Hfresh Hnd]. cbn [fst snd].
    destruct (decide (c0 ∈ Ex)) as [Hin|Hout].
    + intros H. rewrite (IH _ Hnd H). destruct (decide (c ∈ Ex)); [reflexivity|].
      cbn [list_to_map foldr]. rewrite lookup_insert_ne; [reflexivity|].
      cbn. intros ->. contradiction.
    + destruct (add_column cat t c0 (clean_type ty0)) as [cat0|] eqn:Ha;
        [|discriminate].
      intros H. rewrite (IH _ Hnd H).
      apply add_column_ok in Ha as (_ & _ & ->). rewrite columns_of_insert_eq.
      destruct (decide (c ∈ Ex)) as [Hc|Hc].
      * rewrite lookup_insert_ne; [reflexivity|]. intros ->. contradiction.
      * cbn [list_to_map foldr]. cbn [fst snd].
        destruct (decide (c0 = c)) as [->|Hne].
        -- rewrite lookup_insert_eq.
           rewrite (not_elem_of_list_to_map_1 columns c Hfresh).
           rewrite lookup_insert_eq. reflexivity.
        -- rewrite !lookup_insert_ne by exact Hne. reflexivity.
Qed.

Lemma add_missing_columns_lookup cat t columns cat' c :
  NoDup columns.*1 ->
  add_missing_columns cat t columns = Ok cat' ->
  columns_of cat' t !! c
  = match columns_of cat t !! c with
    | Some ty => Some ty
    | None =>
        if decide (c ∈ default ∅ (other_columns cat !! t)) then None
        else clean_type <$> list_to_map (M := gmap string string) columns !! c
    end.
Proof.
  intros Hnd H. unfold add_missing_columns in H.
  rewrite (add_columns_lookup _ _ _ _ _ c Hnd H). unfold existing_columns.
  destruct (columns_of cat t !! c) as [ty|] eqn:Hc.
  - rewrite decide_True; [reflexivity|].
    apply elem_of_union_l, elem_of_dom. eauto.
  - destruct (decide (c ∈ default ∅ (other_columns cat !! t))) as [Ho|Ho].
    + rewrite decide_True; [reflexivity|]. apply elem_of_union_r, Ho.
    + rewrite decide_False.
      * destruct (list_to_map columns !! c); reflexivity.
      * intros [Hd|Hd]%elem_of_union; [|contradiction].
        apply elem_of_dom in Hd as [? Hd]. congruence.
Qed.

(** *** The index checks *)

Lemma add_indexes_ok (Ex : gset string) (l : list (string * list string)) cat cat' :
  for_each (fun cat index =>
              if decide (index.1 ∈ Ex) then Ok cat
              else create_index cat "ship_static_data_temp" index.1 index.2)
    l cat = Ok cat' ->
  catalog_extends cat cat'
  /\ cat_columns cat' = cat_columns cat /\ cat_keys cat' = cat_keys cat
  /\ forall index, index ∈ l ->
       index.1 ∈ Ex \/ cat_indexes cat' !! index.1 = Some "ship_static_data_temp".
Proof.
  revert cat. induction l as [|x l IH]; intros cat; cbn [for_each].
  - intros [= <-]. split; [apply catalog_extends_refl|].
    repeat split; auto. intros index Hin. apply elem_of_nil in Hin as [].
  - destruct (decide (x.1 ∈ Ex)) as [Hin|Hout].
    + intros (Hext & Hcols & Hkeys & Hix)%IH. split; [exact Hext|].
      repeat split; [assumption..|].
      intros index [->|Hi]%elem_of_cons; [auto|apply Hix, Hi].
    + destruct (create_index _ _ _ _) as [cat0|] eqn:Hx; [|discriminate].
      intros (Hext & Hcols & Hkeys & Hix)%IH.
      pose proof (create_index_extends _ _ _ _ Hx) as Hext0.
      apply create_index_ok in Hx as [_ ->]. cbn in Hcols, Hkeys.
      split; [eapply catalog_extends_trans; eassumption|].
      repeat split; [assumption..|].
      intros index [->|Hi]%elem_of_cons; [|apply Hix, Hi].
      right. destruct Hext as (_ & _ & Hsub & _).
      eapply lookup_weaken; [|exact Hsub]. cbn. apply lookup_insert_eq.
Qed.

Lemma add_missing_indexes_ok cat cat' :
  add_missing_indexes cat = Ok cat' ->
  catalog_extends cat cat'
  /\ cat_columns cat' = cat_columns cat /\ cat_keys cat' = cat_keys cat
  /\ forall index, index ∈ static_data_indexes ->
       index.1 ∈ existing_indexes cat' "ship_static_data_temp".
Proof.
  intros (Hext & Hcols & Hkeys & Hix)%add_indexes_ok.
  split; [exact Hext|]. repeat split; [assumption..|].
  intros index Hin. unfold existing_indexes.
  destruct Hext as (_ & _ & Hsub & _ & _ & _ & ->).
  destruct (Hix index Hin) as [H|H];
    [unfold existing_indexes in H; apply elem_of_union in H as [H|H]|].
  - apply elem_of_union_l, elem_of_indexes_of.
    apply elem_of_indexes_of in H. eapply lookup_weaken; eassumption.
  - apply elem_of_union_r, H.
  - apply elem_of_union_l, elem_of_indexes_of, H.
Qed.

(** *** The second loop *)

Lemma add_missing_columns_extends cat t columns cat' :
  add_missing_columns cat t columns = Ok cat' ->
  catalog_extends cat cat'
  /\ (forall t', t' <> t -> cat_columns cat' !! t' = cat_columns cat !! t')
  /\ cat_keys cat' = cat_keys cat /\ cat_indexes cat' = cat_indexes cat.
Proof. apply add_columns_extends. Qed.

Lemma complete_if_existing_ok (E : gset string) cat t columns cat' :
  complete_if_existing E cat (t, columns) = Ok cat' ->
  ((t ∉ E) /\ cat' = cat)
  \/ (t ∈ E /\ exists cat0,
        add_missing_columns cat t columns = Ok cat0
        /\ catalog_extends cat0 cat'
        /\ cat_columns cat' = cat_columns cat0 /\ cat_keys cat' = cat_keys cat0
        /\ (t = "ship_static_data_temp" ->
            forall index, index ∈ static_data_indexes ->
              index.1 ∈ existing_indexes cat' "ship_static_data_temp")).
Proof.
  unfold complete_if_existing.
  destruct (decide (t ∈ E)) as [Hin|Hout]; [|intros [= <-]; auto].
  destruct (add_missing_columns cat t columns) as [cat0|] eqn:Hc; [|discriminate].
  intros H. right. split; [exact Hin|]. exists cat0. split; [reflexivity|].
  destruct (String.eqb t "ship_static_data_temp") eqn:Ht.
  - apply add_missing_indexes_ok in H as (? & ? & ? & ?). auto.
  - injection H as <-. apply String.eqb_neq in Ht.
    split; [apply catalog_extends_refl|]. repeat split. intros ?. contradiction.
Qed.

Lemma complete_if_existing_extends (E : gset string) cat entry cat' :
  complete_if_existing E cat entry = Ok cat' ->
  catalog_extends cat cat' /\ cat_keys cat' = cat_keys cat.
Proof.
  destruct entry as [t columns].
  intros [[_ ->]|(_ & cat0 & Hc & Hext & _ & -> & _)]%complete_if_existing_ok;
    [split; [apply catalog_extends_refl|reflexivity]|].
  apply add_missing_columns_extends in Hc as (Hext0 & _ & -> & _).
  split; [|reflexivity]. eapply catalog_extends_trans; eassumption.
Qed.

Lemma complete_if_existing_untouched (E : gset string) cat entry cat' t :
  t ∉ E \/ t <> entry.1 ->
  complete_if_existing E cat entry = Ok cat' ->
  cat_columns cat' !! t = cat_columns cat !! t.
Proof.
  destruct entry as [t0 columns]. cbn [fst].
  intros Ht [[_ ->]|(Hin & cat0 & Hc & _ & -> & _)]%complete_if_existing_ok;
    [reflexivity|].
  apply add_missing_columns_extends in Hc as (_ & Hcols & _).
  apply Hcols. destruct Ht as [Ht|Ht]; [|exact Ht]. intros ->. contradiction.
Qed.

Lemma second_loop_extends (E : gset string) l cat cat' :
  for_each (complete_if_existing E) l cat = Ok cat' ->
  catalog_extends cat cat' /\ cat_keys cat' = cat_keys cat.
Proof.
  apply (for_each_invariant
           (fun cat0 => catalog_extends cat cat0 /\ cat_keys cat0 = cat_keys cat));
    [|split; [apply catalog_extends_refl|reflexivity]].
  intros x c1 c2 _ [Hext Hkeys] [Hext' Hkeys']%complete_if_existing_extends.
  split; [eapply catalog_extends_trans; eassumption|congruence].
Qed.

Lemma second_loop_untouched (E : gset string) l cat cat' t :
  t ∉ E \/ t ∉ l.*1 ->
  for_each (complete_if_existing E) l cat = Ok cat' ->
  cat_columns cat' !! t = cat_columns cat !! t.
Proof.
  intros Ht.
  apply (for_each_invariant
           (fun cat0 => cat_columns cat0 !! t = cat_columns cat !! t)); [|reflexivity].
  intros x c1 c2 Hx <-. apply complete_if_existing_untouched.
  destruct Ht as [Ht|Ht]; [auto|]. right. intros ->.
  apply Ht, list_elem_of_fmap. exists x. auto.
Qed.

Lemma second_loop_columns (E : gset string) l cat cat' t columns c :
  NoDup l.*1 -> (t, columns) ∈ l -> t ∈ E -> NoDup columns.*1 ->
  for_each (complete_if_existing E) l cat = Ok cat' ->
  columns_of cat' t !! c
  = match columns_of cat t !! c with
    | Some ty => Some ty
    | None =>
        if decide (c ∈ default ∅ (other_columns cat !! t)) then None
        else clean_type <$> list_to_map (M := gmap string string) columns !! c
    end.
Proof.
  revert cat. induction l as [|x l IH]; intros cat Hnd Hin HE Hcols;
    [apply elem_of_nil in Hin as []|].
  cbn [for_each]. destruct (complete_if_existing E cat x) as [cat1|] eqn:Hx;
    [|discriminate].
  intros Hrest. apply NoDup_cons in Hnd as [Hfresh Hnd].
  apply elem_of_cons in Hin as [<-|Hin].
  - rewrite (columns_of_eq _ _ _
               (second_loop_untouched E l cat1 cat' t (or_intror Hfresh) Hrest)).
    apply complete_if_existing_ok in Hx
      as [[? _]|(_ & cat0 & Hc & _ & Hsame & _)]; [contradiction|].
    rewrite (columns_of_eq _ _ _ (f_equal (.!! t) Hsame)).
    apply add_missing_columns_lookup; assumption.
  - rewrite (IH cat1 Hnd Hin HE Hcols Hrest).
    assert (t <> x.1) as Hne.
    { intros ->. apply Hfresh, list_elem_of_fmap. exists (x.1, columns). auto. }
    rewrite (columns_of_eq _ _ _
               (complete_if_existing_untouched E cat x cat1 t (or_intror Hne) Hx)).
    apply complete_if_existing_extends in Hx as [(_ & _ & _ & _ & _ & -> & _) _].
    reflexivity.
Qed.

Lemma existing_indexes_mono cat cat' t :
  catalog_extends cat cat' -> existing_indexes cat t ⊆ existing_indexes cat' t.
Proof.
  intros (_ & _ & Hsub & _ & _ & _ & Hother) name. unfold existing_indexes.
  rewrite Hother, !elem_of_union, !elem_of_indexes_of.
  intros [H|H]; [left|right; exact H]. eapply lookup_weaken; eassumption.
Qed.

Lemma second_loop_indexes (E : gset string) l cat cat' columns :
  ("ship_static_data_temp", columns) ∈ l -> "ship_static_data_temp" ∈ E ->
  for_each (complete_if_existing E) l cat = Ok cat' ->
  forall index, index ∈ static_data_indexes ->
    index.1 ∈ existing_indexes cat' "ship_static_data_temp".
Proof.
  revert cat. induction l as [|x l IH]; intros cat Hin HE;
    [apply elem_of_nil in Hin as []|].
  cbn [for_each]. destruct (complete_if_existing E cat x) as [cat1|] eqn:Hx;
    [|discriminate].
  intros Hrest. apply elem_of_cons in Hin as [<-|Hin]; [|eapply IH; eassumption].
  apply complete_if_existing_ok in Hx
    as [[? _]|(_ & cat0 & _ & _ & _ & _ & Hix)]; [contradiction|].
  intros index Hindex.
  apply (existing_indexes_mono cat1 cat' _ (proj1 (second_loop_extends _ _ _ _ Hrest))).
  apply Hix; auto.
Qed.

(** *** The required schema *)

Lemma table_schemas_nodup : NoDup table_schemas.*1.
Proof. apply (bool_decide_unpack _). vm_compute. exact I. Qed.

Lemma schema_columns_nodup t (columns : list (string * string)) :
  (t, columns) ∈ table_schemas -> NoDup columns.*1.
Proof.
  assert (Forall (fun entry : string * list (string * string) => NoDup entry.2.*1)
            table_schemas) as H
    by (apply (bool_decide_unpack _); vm_compute; exact I).
  intros Hin. exact (proj1 (Forall_forall _ _) H (t, columns) Hin).
Qed.

Lemma schema_clean_types t (columns : list (string * string)) c ty (word : string) :
  (t, columns) ∈ table_schemas -> (c, ty) ∈ columns -> word ∈ constraint_words ->
  contains word (clean_type ty) = false.
Proof.
  assert (Forall (fun entry : string * list (string * string) =>
                    Forall (fun col : string * string =>
                              Forall (fun word => contains word (clean_type col.2) = false)
                                constraint_words) entry.2)
            table_schemas) as H
    by (apply (bool_decide_unpack _); vm_compute; exact I).
  intros Hin Hcol Hword.
  pose proof (proj1 (Forall_forall _ _) H (t, columns) Hin) as H1. cbn in H1.
  pose proof (proj1 (Forall_forall _ _) H1 (c, ty) Hcol) as H2. cbn in H2.
  exact (proj1 (Forall_forall _ _) H2 word Hword).
Qed.

Lemma static_data_in_schema :
  exists columns, ("ship_static_data_temp", columns) ∈ table_schemas.
Proof.
  eexists. unfold table_schemas. do 3 apply list_elem_of_further.
  apply list_elem_of_here.
Qed.

Lemma schema_name t (columns : list (string * string)) :
  (t, columns) ∈ table_schemas -> t ∈ table_schemas.*1.
Proof. intros Hin. apply list_elem_of_fmap. exists (t, columns). auto. Qed.

(** *** Both loops *)

Lemma migrate_statements_loops cat cat' :
  migrate_statements cat = Ok cat' ->
  exists cat1,
    for_each (create_if_missing (public_tables cat)) table_schemas cat = Ok cat1
    /\ for_each (complete_if_existing (public_tables cat)) table_schemas cat1 = Ok cat'.
Proof.
  unfold migrate_statements. cbv zeta.
  destruct (for_each (create_if_missing _) _ _) as [cat1|]; [|discriminate].
  eauto.
Qed.

Lemma migrate_statements_extends cat cat' :
  migrate_statements cat = Ok cat' -> catalog_extends cat cat'.
Proof.
  intros (cat1 & H1 & H2)%migrate_statements_loops.
  eapply catalog_extends_trans;
    [eapply first_loop_extends, H1|eapply second_loop_extends, H2].
Qed.

Lemma migrate_statements_outside cat cat' t :
  migrate_statements cat = Ok cat' -> t ∉ table_schemas.*1 ->
  cat_columns cat' !! t = cat_columns cat !! t.
Proof.
  intros (cat1 & H1 & H2)%migrate_statements_loops Hout.
  rewrite (second_loop_untouched _ _ _ _ t (or_intror Hout) H2).
  apply (first_loop_untouched _ _ _ _ t (or_intror Hout) H1).
Qed.

Lemma migrate_statements_creates cat cat' t columns :
  migrate_statements cat = Ok cat' ->
  (t, columns) ∈ table_schemas -> cat_columns cat !! t = None ->
  cat_columns cat' !! t = Some (list_to_map columns)
  /\ cat_keys cat' !! t = Some (key_columns columns)
  /\ (t = "ship_static_data_temp" ->
      forall index, index ∈ static_data_indexes ->
        index.1 ∈ indexes_of cat' "ship_static_data_temp").
Proof.
  intros (cat1 & H1 & H2)%migrate_statements_loops Hin Hnone.
  assert (t ∉ public_tables cat) as Hout by (apply not_elem_of_dom, Hnone).
  destruct (first_loop_creates _ _ _ _ _ _ table_schemas_nodup Hin Hout H1)
    as (Hcols & Hkeys & Hix).
  rewrite (second_loop_untouched _ _ _ _ t (or_introl Hout) H2).
  destruct (second_loop_extends _ _ _ _ H2) as [(_ & _ & Hsub & _) ->].
  repeat split; [assumption..|].
  intros Ht index Hindex. apply elem_of_indexes_of.
  eapply lookup_weaken; [|exact Hsub]. apply Hix; assumption.
Qed.

Lemma migrate_statements_completes cat cat' t columns c :
  migrate_statements cat = Ok cat' ->
  (t, columns) ∈ table_schemas -> is_Some (cat_columns cat !! t) ->
  columns_of cat' t !! c
  = match columns_of cat t !! c with
    | Some ty => Some ty
    | None =>
        if decide (c ∈ default ∅ (other_columns cat !! t)) then None
        else clean_type <$> list_to_map (M := gmap string string) columns !! c
    end.
Proof.
  intros (cat1 & H1 & H2)%migrate_statements_loops Hin Hsome.
  assert (t ∈ public_tables cat) as HE by (apply elem_of_dom, Hsome).
  rewrite (second_loop_columns _ _ _ _ _ _ c table_schemas_nodup Hin HE
             (schema_columns_nodup _ _ Hin) H2).
  rewrite (columns_of_eq _ _ _
             (proj1 (first_loop_untouched _ _ _ _ t (or_introl HE) H1))).
  destruct (first_loop_extends _ _ _ _ H1) as (_ & _ & _ & _ & _ & -> & _).
  reflexivity.
Qed.

Lemma migrate_statements_indexes cat cat' index :
  migrate_statements cat = Ok cat' -> index ∈ static_data_indexes ->
  index.1 ∈ indexes_of cat' "ship_static_data_temp"
  \/ (is_Some (cat_columns cat !! "ship_static_data_temp")
      /\ index.1 ∈ default ∅ (other_indexes cat !! "ship_static_data_temp")).
Proof.
  intros H Hindex. destruct static_data_in_schema as [columns Hin].
  destruct (cat_columns cat !! "ship_static_data_temp") as [m|] eqn:Hm.
  - pose proof (migrate_statements_extends _ _ H)
      as (_ & _ & _ & _ & _ & _ & Hother).
    apply migrate_statements_loops in H as (cat1 & H1 & H2).
    assert ("ship_static_data_temp" ∈ public_tables cat) as HE
      by (apply elem_of_dom; eauto).
    pose proof (second_loop_indexes _ _ _ _ _ Hin HE H2 index Hindex) as Hex.
    unfold existing_indexes in Hex. rewrite Hother in Hex.
    apply elem_of_union in Hex as [Hex|Hex]; eauto.
  - left.
    destruct (migrate_statements_creates _ _ _ _ H Hin Hm) as (_ & _ & Hix).
    apply Hix; auto.
Qed.

(** *** A second migration *)

Lemma settled_fixed cat : settled cat -> migrate_statements cat = Ok cat.
Proof.
  intros [Htables Hindexes]. unfold migrate_statements. cbv zeta.
  rewrite for_each_skips.
  - apply for_each_skips. intros [t columns] Hin.
    destruct (Htables t columns Hin) as [Ht Hcols].
    unfold complete_if_existing. rewrite decide_True by exact Ht.
    assert (add_missing_columns cat t columns = Ok cat) as ->.
    { apply for_each_skips. intros col Hcol.
      rewrite decide_True; [reflexivity|]. apply Hcols, Hcol. }
    destruct (String.eqb t "ship_static_data_temp"); [|reflexivity].
    apply for_each_skips. intros index Hindex.
    rewrite decide_True; [reflexivity|]. apply Hindexes, Hindex.
  - intros [t columns] Hin. unfold create_if_missing.
    rewrite decide_True; [reflexivity|]. apply (Htables t columns Hin).
Qed.

Lemma schema_complete_settled cat : schema_complete cat -> settled cat.
Proof.
  intros [Htables Hindexes]. split.
  - intros t columns Hin.
    destruct (proj1 (Forall_forall _ _) Htables _ Hin) as [Ht Hcols].
    cbn [fst snd] in Ht, Hcols. split; [apply elem_of_dom, Ht|].
    intros col Hcol. unfold existing_columns. apply elem_of_union_l, elem_of_dom.
    exact (proj1 (Forall_forall _ _) Hcols _ Hcol).
  - intros index Hindex. unfold existing_indexes. apply elem_of_union_l.
    exact (proj1 (Forall_forall _ _) Hindexes _ Hindex).
Qed.

Lemma migrate_statements_settled cat cat' :
  migrate_statements cat = Ok cat' -> settled cat'.
Proof.
  intros H. pose proof (migrate_statements_extends _ _ H)
    as (Hsome & _ & _ & _ & _ & Hoc & Hoi).
  split.
  - intros t columns Hin.
    destruct (cat_columns cat !! t) as [m|] eqn:Hm.
    + assert (is_Some (cat_columns cat !! t)) as Ht by eauto.
      split; [apply elem_of_dom, Hsome, Ht|].
      intros [c ty] Hcol. cbn [fst]. unfold existing_columns.
      pose proof (migrate_statements_completes _ _ _ _ c H Hin Ht) as Hc.
      destruct (columns_of cat t !! c) as [ty'|];
        [apply elem_of_union_l, elem_of_dom; eauto|].
      destruct (decide _) as [Ho|Ho];
        [apply elem_of_union_r; rewrite Hoc; exact Ho|].
      apply elem_of_union_l, elem_of_dom. rewrite Hc.
      rewrite (elem_of_list_to_map_1 _ _ _ (schema_columns_nodup _ _ Hin) Hcol).
      cbn. eauto.
    + destruct (migrate_statements_creates _ _ _ _ H Hin Hm) as (Hcols & _).
      split; [apply elem_of_dom; eauto|].
      intros [c ty] Hcol. cbn [fst]. unfold existing_columns.
      apply elem_of_union_l, elem_of_dom.
      unfold columns_of. rewrite Hcols. cbn.
      rewrite (elem_of_list_to_map_1 _ _ _ (schema_columns_nodup _ _ Hin) Hcol).
      eauto.
  - intros index Hindex. unfold existing_indexes. rewrite Hoi.
    destruct (migrate_statements_indexes _ _ _ H Hindex) as [Hi|[_ Hi]];
      [apply elem_of_union_l|apply elem_of_union_r]; exact Hi.
Qed.

(** *** A foreign key without a key to refer to *)

Lemma ship_data_needs_key cat :
  "imo_number" ∉ keys_of cat "ships" ->
  create_table cat "ship_data"
    [("id", "SERIAL PRIMARY KEY");
     ("imo_number", "BIGINT REFERENCES ships(imo_number)");
     ("timestamp_collected", "TIMESTAMP DEFAULT NOW()");
     ("timestamp_ais", "TIMESTAMP"); ("latitude", "NUMERIC(10,6)");
     ("longitude", "NUMERIC(10,6)"); ("destination", "TEXT");
     ("sog", "NUMERIC(5,2)"); ("cog", "NUMERIC(5,2)");
     ("navigational_status_code", "INTEGER"); ("rate_of_turn", "NUMERIC(5,2)");
     ("true_heading", "INTEGER")]
  = Raise statement_error.
Proof.
  intros Hkey. unfold create_table.
  destruct (relation_exists cat "ship_data"); [reflexivity|].
  unfold references_hold. cbn [forallb snd].
  replace (references_of "BIGINT REFERENCES ships(imo_number)")
    with (Some ("ships", "imo_number")) by (vm_compute; reflexivity).
  rewrite bool_decide_eq_false_2 by exact Hkey.
  rewrite andb_false_r. reflexivity.
Qed.

End Migration.

Lemma nothing_hidden_alone (cat : catalog) :
  other_columns cat = ∅ -> other_indexes cat = ∅ -> nothing_hidden cat.
Proof.
  intros Hc Hi. split.
  - intros t columns c ty _ _ _ H. rewrite Hc, lookup_empty in H.
    apply elem_of_empty in H as [].
  - intros index _ _ H. rewrite Hi, lookup_empty in H.
    apply elem_of_empty in H as [].
Qed.

(** X15: when no statement of the migration fails, and no table of the same
    name in another schema has a column or an index that the table in
    [public] lacks, the migration leaves the store with every table and
    every column of the required schema in [public] and with the three
    indexes on [ship_static_data_temp].  A required column that the table
    in [public] lacks and a table of the same name in another schema has
    is not added: it is still missing after the migration. *)
Theorem migrate_completes_schema (cat cat' : catalog) :
  migrate_statements cat = Ok cat' ->
  migrate_database false cat = cat'
  /\ (nothing_hidden cat -> schema_complete cat')
  /\ (forall t columns c ty,
        (t, columns) ∈ table_schemas -> (c, ty) ∈ columns ->
        is_Some (cat_columns cat !! t) -> columns_of cat t !! c = None ->
        c ∈ default ∅ (other_columns cat !! t) ->
        columns_of cat' t !! c = None).
Proof.
  intros H. split; [unfold migrate_database; rewrite H; reflexivity|]. split.
  - intros [Hcolumns Hindexes].
    pose proof (migrate_statements_extends _ _ H) as (Hsome & _ & Hsub & _).
    split.
    + apply Forall_forall. intros [t columns] Hin. cbn [fst snd].
      destruct (cat_columns cat !! t) as [m|] eqn:Hm.
      * assert (is_Some (cat_columns cat !! t)) as Ht by eauto.
        split; [apply Hsome, Ht|].
        apply Forall_forall. intros [c ty] Hcol. cbn [fst].
        rewrite (migrate_statements_completes _ _ _ _ c H Hin Ht).
        destruct (columns_of cat t !! c) as [ty'|] eqn:Hc; [eauto|].
        destruct (decide _) as [Ho|Ho].
        -- specialize (Hcolumns t columns c ty Hin Hcol Ht Ho).
           rewrite Hc in Hcolumns. destruct Hcolumns as [? [=]].
        -- rewrite (elem_of_list_to_map_1 _ _ _ (schema_columns_nodup _ _ Hin) Hcol).
           cbn. eauto.
      * destruct (migrate_statements_creates _ _ _ _ H Hin Hm) as (Hcols & _).
        split; [eauto|].
        apply Forall_forall. intros [c ty] Hcol. cbn [fst].
        unfold columns_of. rewrite Hcols. cbn.
        rewrite (elem_of_list_to_map_1 _ _ _ (schema_columns_nodup _ _ Hin) Hcol).
        eauto.
    + apply Forall_forall. intros index Hindex.
      destruct (migrate_statements_indexes _ _ _ H Hindex) as [Hi|[Ht Hi]];
        [exact Hi|].
      apply elem_of_indexes_of. eapply lookup_weaken; [|exact Hsub].
      apply elem_of_indexes_of, Hindexes; assumption.
  - intros t columns c ty Hin Hcol Ht Hc Ho.
    rewrite (migrate_statements_completes _ _ _ _ c H Hin Ht), Hc.
    rewrite decide_True by exact Ho. reflexivity.
Qed.

Lemma migrate_completes_schema_witness :
  schema_complete (migrate_database false old_catalog)
  /\ columns_of (migrate_database false shadowed_catalog) "ship_data" !! "id" = None.
Proof.
  split.
  - destruct (migrate_completes_schema old_catalog (migrate_database false old_catalog)
                ltac:(vm_compute; reflexivity)) as (_ & H & _).
    apply H, nothing_hidden_alone; reflexivity.
  - destruct (migrate_completes_schema shadowed_catalog
                (migrate_database false shadowed_catalog)
                ltac:(vm_compute; reflexivity)) as (_ & _ & H).
    eapply (H "ship_data" _ "id" "SERIAL PRIMARY KEY").
    + unfold table_schemas. apply list_elem_of_further, list_elem_of_here.
    + apply list_elem_of_here.
    + vm_compute. eauto.
    + vm_compute. reflexivity.
    + vm_compute. reflexivity.
Defined.

(** X16: the migration removes nothing, whether it succeeds or fails: a
    table that existed still exists, each of its columns keeps its type,
    each of its indexes stays, and a table outside the required schema is
    left exactly as it was. *)
Theorem migrate_keeps_existing (fails : bool) (cat : catalog) (t : string) :
  (is_Some (cat_columns cat !! t) ->
   is_Some (cat_columns (migrate_database fails cat) !! t))
  /\ columns_of cat t ⊆ columns_of (migrate_database fails cat) t
  /\ indexes_of cat t ⊆ indexes_of (migrate_database fails cat) t
  /\ (t ∉ table_schemas.*1 ->
      cat_columns (migrate_database fails cat) !! t = cat_columns cat !! t).
Proof.
  unfold migrate_database. destruct fails; [repeat split; auto|].
  destruct (migrate_statements cat) as [cat'|e] eqn:H; [|repeat split; auto].
  pose proof (migrate_statements_extends _ _ H) as (Hsome & Hcols & Hsub & _).
  split; [apply Hsome|]. split; [apply Hcols|]. split.
  - intros name Hname. apply elem_of_indexes_of.
    eapply lookup_weaken; [|exact Hsub]. apply elem_of_indexes_of, Hname.
  - apply migrate_statements_outside, H.
Qed.

Lemma migrate_keeps_existing_witness :
  is_Some (cat_columns (migrate_database false old_catalog) !! "ships")
  /\ columns_of old_catalog "ships" ⊆ columns_of (migrate_database false old_catalog) "ships".
Proof.
  destruct (migrate_keeps_existing false old_catalog "ships") as (H1 & H2 & _).
  split; [apply H1; vm_compute; eauto|exact H2].
Defined.

(** X17: in a migration in which no statement fails, a required column
    that a table existing in [public] lacks, and that no table of the same
    name in another schema has, is added with the stripped type: what
    follows DEFAULT or REFERENCES and the words PRIMARY KEY are taken out
    and a SERIAL type becomes INTEGER; for every column of the required
    schema none of these words is left.  The table gets no key with it,
    and no index unless it is [ship_static_data_temp]. *)
Theorem existing_table_gets_stripped_columns (cat cat' : catalog) (t : string)
    (cols : list (string * string)) (c ty : string) :
  migrate_statements cat = Ok cat' ->
  (t, cols) ∈ table_schemas -> is_Some (cat_columns cat !! t) ->
  (c, ty) ∈ cols -> columns_of cat t !! c = None ->
  c ∉ default ∅ (other_columns cat !! t) ->
  columns_of cat' t !! c = Some (clean_type ty)
  /\ (forall word, word ∈ constraint_words -> contains word (clean_type ty) = false)
  /\ keys_of cat' t = keys_of cat t
  /\ (t <> "ship_static_data_temp" -> indexes_of cat' t = indexes_of cat t).
Proof.
  intros H Hin Hsome Hcol Hmiss Hother.
  pose proof (migrate_statements_extends _ _ H) as (_ & _ & Hsub & Hnew & Hkeys & _).
  split; [|split; [|split]].
  - rewrite (migrate_statements_completes _ _ _ _ c H Hin Hsome), Hmiss.
    rewrite decide_False by exact Hother.
    rewrite (elem_of_list_to_map_1 _ _ _ (schema_columns_nodup _ _ Hin) Hcol).
    reflexivity.
  - intros word Hword. eapply schema_clean_types; eassumption.
  - unfold keys_of. rewrite Hkeys by exact Hsome. reflexivity.
  - intros Hne. apply set_eq. intros name. rewrite !elem_of_indexes_of. split.
    + intros Hname. destruct (Hnew _ _ Hname) as [Hold| ->];
        [exact Hold|contradiction].
    + intros Hname. eapply lookup_weaken; eassumption.
Qed.

Lemma existing_table_gets_stripped_columns_witness :
  columns_of (migrate_database false shadowed_catalog) "ship_data" !! "imo_number"
  = Some "BIGINT"
  /\ keys_of (migrate_database false shadowed_catalog) "ship_data" = ∅
  /\ indexes_of (migrate_database false shadowed_catalog) "ship_data" = ∅.
Proof.
  destruct (existing_table_gets_stripped_columns
              shadowed_catalog (migrate_database false shadowed_catalog)
              "ship_data" _ "imo_number" "BIGINT REFERENCES ships(imo_number)"
              ltac:(vm_compute; reflexivity)
              ltac:(unfold table_schemas; apply list_elem_of_further, list_elem_of_here)
              ltac:(vm_compute; eauto)
              ltac:(apply list_elem_of_further, list_elem_of_here)
              ltac:(vm_compute; reflexivity)
              ltac:(apply (bool_decide_unpack _); vm_compute; exact I)) as (H1 & _ & H2 & H3).
  split; [exact H1|]. split; [rewrite H2|rewrite H3 by discriminate];
    vm_compute; reflexivity.
Defined.

(** X18: in a migration in which no statement fails, a required table that
    [public] does not have is created with its columns exactly as
    declared, constraints included, and with the keys they declare.  The
    statement that creates [ship_data] fails when [ships] exists without a
    key on [imo_number], which its foreign key refers to: the migration is
    then rolled back and the store is left as it was. *)
Theorem missing_table_created (cat : catalog) (t : string)
    (cols : list (string * string)) :
  (t, cols) ∈ table_schemas -> cat_columns cat !! t = None ->
  (forall cat', migrate_statements cat = Ok cat' ->
     cat_columns cat' !! t = Some (list_to_map cols)
     /\ keys_of cat' t = key_columns cols)
  /\ (t = "ship_data" -> is_Some (cat_columns cat !! "ships") ->
      "imo_number" ∉ keys_of cat "ships" ->
      migrate_statements cat = Raise statement_error
      /\ forall fails, migrate_database fails cat = cat).
Proof.
  intros Hin Hnone. split.
  - intros cat' H.
    destruct (migrate_statements_creates _ _ _ _ H Hin Hnone) as (Hcols & Hkeys & _).
    split; [exact Hcols|]. unfold keys_of. rewrite Hkeys. reflexivity.
  - intros -> Hships Hkey.
    assert (migrate_statements cat = Raise statement_error) as Hfail.
    { unfold migrate_statements, table_schemas. cbv zeta. cbn [for_each].
      unfold create_if_missing at 1.
      rewrite decide_True by (apply elem_of_dom, Hships).
      unfold create_if_missing at 1.
      rewrite decide_False by (apply not_elem_of_dom, Hnone).
      rewrite ship_data_needs_key by exact Hkey. reflexivity. }
    split; [exact Hfail|].
    intros fails. unfold migrate_database. rewrite Hfail.
    destruct fails; reflexivity.
Qed.

Lemma missing_table_created_witness :
  columns_of (migrate_database false old_catalog) "ship_data" !! "id"
  = Some "SERIAL PRIMARY KEY"
  /\ keys_of (migrate_database false old_catalog) "ship_data" = {["id"]}
  /\ migrate_database false keyless_catalog = keyless_catalog.
Proof.
  destruct (missing_table_created old_catalog "ship_data" _
              ltac:(unfold table_schemas; apply list_elem_of_further, list_elem_of_here)
              ltac:(vm_compute; reflexivity)) as [H _].
  destruct (H (migrate_database false old_catalog) ltac:(vm_compute; reflexivity))
    as [H1 H2].
  destruct (missing_table_created keyless_catalog "ship_data" _
              ltac:(unfold table_schemas; apply list_elem_of_further, list_elem_of_here)
              ltac:(vm_compute; reflexivity)) as [_ H3].
  destruct (H3 eq_refl ltac:(vm_compute; eauto) ltac:(apply (bool_decide_unpack _); vm_compute; exact I))
    as [_ H4].
  split; [unfold columns_of; rewrite H1; vm_compute; reflexivity|].
  split; [rewrite H2; vm_compute; reflexivity|apply H4].
Defined.

(** X19: a store that already has the whole required schema is left
    exactly as it is, so that migrating a second time changes nothing. *)
Theorem migrate_database_idempotent (cat : catalog) (fails : bool) :
  (schema_complete cat -> migrate_database fails cat = cat)
  /\ migrate_database fails (migrate_database false cat) = migrate_database false cat.
Proof.
  assert (forall cat', settled cat' -> migrate_database fails cat' = cat') as H.
  { intros cat' Hc. unfold migrate_database. destruct fails; [reflexivity|].
    rewrite settled_fixed by exact Hc. reflexivity. }
  split; [intros Hc; apply H, schema_complete_settled, Hc|].
  unfold migrate_database at 2 3.
  destruct (migrate_statements cat) as [cat'|e] eqn:Hm.
  - apply H. eapply migrate_statements_settled, Hm.
  - unfold migrate_database. rewrite Hm. destruct fails; reflexivity.
Qed.

Lemma migrate_database_idempotent_witness :
  migrate_database false
    (mk_catalog (list_to_map (prod_map id list_to_map <$> table_schemas))
                (list_to_map ((fun index : string * list string =>
                                 (index.1, "ship_static_data_temp"))
                              <$> static_data_indexes))
                ∅ ∅ ∅)
  = mk_catalog (list_to_map (prod_map id list_to_map <$> table_schemas))
               (list_to_map ((fun index : string * list string =>
                                (index.1, "ship_static_data_temp"))
                             <$> static_data_indexes))
               ∅ ∅ ∅.
Proof.
  apply (proj1 (migrate_database_idempotent _ false)).
  apply (bool_decide_unpack _). vm_compute. exact I.
Defined.



(** ** IMO 0 stays out of the registry *)

Section NoZeroImo.

Variables (cfg : config) (w : world).
Hypothesis Hscan : scan_sound w.

Ltac fields :=
  cbn [conn pending stats last_commit_time mmsi_to_imo unique_vessels
       unique_vessels_with_imo
       set_conn set_pending set_stats set_mmsi_to_imo set_unique_vessels
       set_unique_vessels_with_imo set_last_commit_time fst snd
       committed view call commit rollback reconnect].

Lemma valid_imo_nonzero (imo : Z) : valid_imo (Some imo) = true -> imo <> 0.
Proof.
  unfold valid_imo, truthy. intros H Heq. subst imo. discriminate.
Qed.

Lemma no_zero_imo_same (s s' : state) :
  mmsi_to_imo s' = mmsi_to_imo s ->
  committed (conn s') = committed (conn s) -> view (conn s') = view (conn s) ->
  pending s' = pending s ->
  no_zero_imo s -> no_zero_imo s'.
Proof. unfold no_zero_imo. intros -> -> -> ->. auto. Qed.

Lemma insert_nonzero (m : gmap Z Z) (k imo : Z) :
  imo <> 0 -> (forall k' v, m !! k' = Some v -> v <> 0) ->
  forall k' v, <[k := imo]> m !! k' = Some v -> v <> 0.
Proof.
  intros Himo Hm k' v. destruct (decide (k = k')) as [->|Hne].
  - rewrite lookup_insert_eq. intros [= <-]. exact Himo.
  - rewrite lookup_insert_ne by assumption. apply Hm.
Qed.

Lemma handle_static_no_zero_imo s mmsi lat lon ts ship_data :
  no_zero_imo s -> no_zero_imo (handle_static cfg s mmsi lat lon ts ship_data).
Proof.
  intros (Hm & Hc & Hv & Hs & Ht & Hp). unfold handle_static.
  destruct (compute_dimensions (Dimension ship_data)) as [len wid].
  destruct mmsi as [m|]; [destruct (truthy (Some m))|];
    destruct (get (ImoNumber ship_data)) as [imo|];
    try destruct (valid_imo (Some imo)) eqn:Hvalid;
    destruct (SAVE_NO_IMO_VESSELS cfg);
    try change (valid_imo None) with false;
    try apply valid_imo_nonzero in Hvalid;
    unfold no_zero_imo, batches_without_zero_imo; fields;
    cbn [append_ship append_static append_unknown ships_batch static_data_batch
         position_data_batch unknown_data_batch];
    (split; [|split; [exact Hc|split; [exact Hv|]]]);
    repeat split; try assumption;
    try (apply insert_nonzero; assumption);
    try (apply Forall_app; split; [assumption|];
         apply Forall_singleton; assumption).
Qed.

Lemma select_imo_nonzero (d : db) (m imo : Z) :
  Forall (fun r => s_imo_number r <> 0) (ships d) ->
  select_imo_by_mmsi w d m = Some imo -> imo <> 0.
Proof.
  intros Hd. unfold select_imo_by_mmsi.
  destruct (filter _ (scan w (ships d))) as [|r l] eqn:Hf; [discriminate|].
  intros [= <-].
  assert (r ∈ filter (fun x => s_mmsi x = Some m) (scan w (ships d))) as Hin
    by (rewrite Hf; apply list_elem_of_here).
  apply list_elem_of_filter in Hin as [_ Hin]. apply Hscan in Hin.
  exact (proj1 (Forall_forall _ _) Hd r Hin).
Qed.

Lemma resolve_no_zero_imo ft s mmsi :
  no_zero_imo s ->
  no_zero_imo (snd (resolve w ft s mmsi))
  /\ forall imo, fst (resolve w ft s mmsi) = Some imo -> imo <> 0.
Proof.
  intros Hs. pose proof Hs as (Hm & Hc & Hv & Hb). unfold resolve, find_imo_by_mmsi.
  destruct mmsi as [m|]; cbn [mbind option_bind].
  2:{ split; [exact Hs|discriminate]. }
  destruct (mmsi_to_imo s !! m) as [imo|] eqn:Hlook.
  { cbn [fst snd]. split; [exact Hs|].
    intros imo' [= <-]. exact (Hm m imo Hlook). }
  destruct (truthy (Some m)); cbn [negb].
  2:{ cbn [fst snd]. split; [exact Hs|discriminate]. }
  destruct (select_error ft).
  { cbn [fst snd]. split; [exact Hs|discriminate]. }
  destruct (select_imo_by_mmsi w (view (conn s)) m) as [imo|] eqn:Hsel.
  - apply select_imo_nonzero in Hsel; [|apply Hv]. cbn [fst snd].
    split; [|intros imo' [= <-]; exact Hsel].
    unfold no_zero_imo. fields.
    split; [apply insert_nonzero; assumption|]. exact (conj Hc (conj Hv Hb)).
  - cbn [fst snd]. split; [exact Hs|discriminate].
Qed.

Lemma handle_position_no_zero_imo ft s mmsi lat lon ts position_data :
  no_zero_imo s ->
  no_zero_imo (handle_position cfg w ft s mmsi lat lon ts position_data).
Proof.
  intros Hs. unfold handle_position.
  set (s0 := match mmsi with
             | Some m => if truthy mmsi
                         then set_unique_vessels s ({[m]} ∪ unique_vessels s) else s
             | None => s
             end).
  assert (no_zero_imo s0) as Hs0.
  { unfold s0. destruct mmsi as [m|]; [|exact Hs].
    destruct (truthy (Some m)); exact Hs. }
  destruct (resolve_no_zero_imo ft s0 mmsi Hs0) as [H2 Himo].
  destruct (resolve w ft s0 mmsi) as [[imo|] s2]; cbn [fst snd] in *.
  - specialize (Himo imo eq_refl).
    destruct (get_recent_destination_store w ft (conn s2) imo) as [Hc' Hv'].
    destruct (get_recent_destination w ft (conn s2) imo) as [destination c].
    cbn [snd] in *. destruct H2 as (Hm & Hc & Hv & Hsb & Htb & Hpb).
    unfold no_zero_imo, batches_without_zero_imo. fields.
    rewrite Hc', Hv'.
    cbn [append_position ships_batch static_data_batch position_data_batch].
    split; [exact Hm|split; [exact Hc|split; [exact Hv|]]].
    split; [exact Hsb|split; [exact Htb|]].
    apply Forall_app. split; [assumption|]. apply Forall_singleton. exact Himo.
  - destruct (SAVE_NO_IMO_VESSELS cfg); exact H2.
Qed.

Lemma handle_message_no_zero_imo ft s msg :
  no_zero_imo s -> no_zero_imo (state_of (handle_message cfg w ft s msg)).
Proof.
  intros Hs. destruct (passes_filters w msg) eqn:Hpass.
  - destruct msg as [|metadata body]; [discriminate|].
    destruct (passes_filters_next cfg w ft s _ _ Hpass) as (lat & lon & dt & _ & _ & ->).
    cbn [state_of]. destruct body as [ship_data|position_data|]; [| |exact Hs].
    + apply handle_static_no_zero_imo. exact Hs.
    + apply handle_position_no_zero_imo. exact Hs.
  - destruct (discarded_message_state cfg w ft s msg Hpass) as [-> | ->]; exact Hs.
Qed.

Lemma upsert_ships_nonzero (rows t : list ship_row) :
  Forall (fun r => s_imo_number r <> 0) t ->
  Forall (fun r => s_imo_number r <> 0) rows ->
  Forall (fun r => s_imo_number r <> 0) (upsert_ships t rows).
Proof.
  unfold upsert_ships. revert t.
  induction rows as [|r rows IH]; intros t Ht Hrows; cbn [fold_left]; [exact Ht|].
  apply Forall_cons in Hrows as [Hr Hrows]. apply IH; [|exact Hrows].
  unfold upsert_ship. destruct (existsb _ t).
  - apply Forall_forall. intros x Hx.
    apply list_elem_of_fmap in Hx as (y & -> & Hy).
    pose proof (proj1 (Forall_forall _ _) Ht y Hy) as Hy0.
    destruct (s_imo_number y =? s_imo_number r); exact Hy0.
  - apply Forall_app. split; [exact Ht|]. apply Forall_singleton. exact Hr.
Qed.

Lemma flush_batch_no_zero_imo {R} ft t (write : db -> list R -> db)
    (rows : batches -> list R) (clear : batches -> batches) :
  (forall d b, db_without_zero_imo d -> batches_without_zero_imo b ->
               db_without_zero_imo (write d (rows b))) ->
  (forall b, batches_without_zero_imo b -> batches_without_zero_imo (clear b)) ->
  forall s r s', flush_batch ft t write rows clear s = (r, s') ->
                 no_zero_imo s -> no_zero_imo s'.
Proof.
  intros Hwrite Hclear s r s'. unfold flush_batch, executemany.
  destruct (rows (pending s)) as [|x l] eqn:Hrows; [intros [= <- <-]; auto|].
  destruct (executemany_error ft t); intros [= <- <-]; [auto|].
  intros (Hm & Hc & Hv & Hb). unfold no_zero_imo. fields.
  split; [exact Hm|split; [exact Hc|split]].
  - rewrite <- Hrows. apply Hwrite; assumption.
  - apply Hclear. exact Hb.
Qed.

Lemma flush_try_no_zero_imo ft now s r s' :
  flush_try ft now s = (r, s') -> no_zero_imo s -> no_zero_imo s'.
Proof.
  intros Hrun Hs. revert Hrun. unfold flush_try, bind.
  destruct (flush_batch ft Ships _ _ _ s) as [[[]|e1] s1] eqn:H1;
    eapply flush_batch_no_zero_imo in H1; try exact Hs;
    try (intros [= <- <-]; exact H1).
  2,4: intros d b (Hd1 & Hd2 & Hd3) (Hb1 & Hb2 & Hb3); repeat split;
         try assumption; apply upsert_ships_nonzero; assumption.
  2,3: intros b (Hb1 & Hb2 & Hb3); repeat split; try assumption; constructor.
  destruct (flush_batch ft ShipStaticDataTemp _ _ _ s1) as [[[]|e2] s2] eqn:H2;
    eapply flush_batch_no_zero_imo in H2; try exact H1;
    try (intros [= <- <-]; exact H2).
  2,4: intros d b (Hd1 & Hd2 & Hd3) (Hb1 & Hb2 & Hb3); repeat split;
         try assumption; apply Forall_app; split; assumption.
  2,3: intros b (Hb1 & Hb2 & Hb3); repeat split; try assumption; constructor.
  destruct (flush_batch ft ShipData _ _ _ s2) as [[[]|e3] s3] eqn:H3;
    eapply flush_batch_no_zero_imo in H3; try exact H2;
    try (intros [= <- <-]; exact H3).
  2,4: intros d b (Hd1 & Hd2 & Hd3) (Hb1 & Hb2 & Hb3); repeat split;
         try assumption; apply Forall_app; split; assumption.
  2,3: intros b (Hb1 & Hb2 & Hb3); repeat split; try assumption; constructor.
  destruct (flush_batch ft UnknownShips _ _ _ s3) as [[[]|e4] s4] eqn:H4;
    eapply flush_batch_no_zero_imo in H4; try exact H3;
    try (intros [= <- <-]; exact H4).
  2,4: intros d b (Hd1 & Hd2 & Hd3) (Hb1 & Hb2 & Hb3); repeat split; assumption.
  2,3: intros b (Hb1 & Hb2 & Hb3); repeat split; assumption.
  unfold commit_stmt, try_commit.
  destruct (commit_error ft); intros [= <- <-]; [exact H4|].
  destruct H4 as (Hm & Hc & Hv & Hb). unfold no_zero_imo. fields.
  exact (conj Hm (conj Hv (conj Hv Hb))).
Qed.

Lemma flush_no_zero_imo ft s now : no_zero_imo s -> no_zero_imo (flush ft s now).
Proof.
  intros Hs. unfold flush.
  destruct (flush_try ft now s) as [[u|e] s'] eqn:H;
    apply flush_try_no_zero_imo in H; try exact Hs; [exact H|].
  destruct H as (Hm & Hc & Hv & Hb).
  destruct e as [|[]|]; unfold no_zero_imo; fields;
    first [exact (conj Hm (conj Hc (conj Hc Hb)))|exact (conj Hm (conj Hc (conj Hv Hb)))].
Qed.

Lemma process_message_no_zero_imo ft s msg now :
  no_zero_imo s -> no_zero_imo (state_of (process_message cfg w ft s msg now)).
Proof.
  intros Hs. rewrite process_message_state.
  pose proof (handle_message_no_zero_imo ft s msg Hs) as H1.
  destruct (handle_message cfg w ft s msg) as [s1|s1|e s1]; cbn [state_of] in H1;
    try exact H1.
  assert (no_zero_imo (if flush_due cfg s1 now then flush ft s1 now else s1)) as H2
    by (destruct (flush_due cfg s1 now); [apply flush_no_zero_imo|]; exact H1).
  revert H2. apply no_zero_imo_same; unfold report_stats;
    destruct (Qle_bool _ _); reflexivity.
Qed.

(** X21: IMO 0 never enters the registry.  When a scan of [ships] returns
    rows of the table and neither the mapping nor [ships],
    [ship_static_data_temp] and [ship_data] hold IMO 0, then after any
    messages, with any failures of the store, that is still so, for what
    is stored, what the open transaction sees and what is pending. *)
Theorem imo_zero_stays_out (s : state) (arrivals : list arrival) :
  no_zero_imo s -> no_zero_imo (run cfg w s arrivals).
Proof.
  apply (run_invariant cfg w no_zero_imo). intros ft s0 msg now.
  apply process_message_no_zero_imo.
Qed.

End NoZeroImo.

Lemma imo_zero_stays_out_witness :
  no_zero_imo
    (run default_config sample_world (initial_state shared_mmsi_db)
       [mk_arrival no_faults
          (Message (sample_metadata 230000001 53 4)
             (StaticPayload (sample_static (Value 0)))) 1;
        mk_arrival no_faults
          (Message (sample_metadata 244000001 53 4)
             (PositionPayload sample_position)) 12]).
Proof.
  apply imo_zero_stays_out.
  - intros t r H. exact H.
  - split; [intros m imo H; cbn [initial_state mmsi_to_imo] in H;
             rewrite lookup_empty in H; discriminate|].
    repeat split; repeat constructor; discriminate.
Defined.

(** ** How much can be pending *)

Section PendingBound.

Variables (cfg : config) (w : world).
Hypothesis Hsize : 0 < BATCH_SIZE cfg.

Lemma process_message_pending_bound ft s msg now :
  store_healthy ft ->
  pending_count (pending s) < BATCH_SIZE cfg ->
  pending_count (pending (state_of (process_message cfg w ft s msg now)))
  < BATCH_SIZE cfg.
Proof.
  intros Hft Hs. rewrite process_message_state.
  destruct (passes_filters w msg) eqn:Hpass.
  - destruct msg as [|metadata body]; [discriminate|].
    destruct (passes_filters_next cfg w ft s _ _ Hpass) as (lat & lon & dt & _ & _ & Hh).
    rewrite Hh. rewrite report_stats_pending.
    match goal with |- context [flush_due cfg ?x now] => set (s1 := x) end.
    destruct (flush_healthy ft s1 now Hft) as (_ & Hempty & _).
    unfold flush_due.
    destruct (BATCH_SIZE cfg <=? pending_count (pending s1)) eqn:Hfull;
      cbn [orb].
    + rewrite Hempty. exact Hsize.
    + destruct (Qle_bool _ _); [rewrite Hempty; exact Hsize|].
      apply Z.leb_gt in Hfull. exact Hfull.
  - destruct (fails_filters_skips cfg w ft s msg Hpass)
      as [(s' & -> & _ & ->) | (e & ->)]; exact Hs.
Qed.

(** X22: while no write and no commit fails, fewer than [BATCH_SIZE]
    records are pending whenever the loop waits for the next message, if
    that was so at the start. *)
Theorem pending_stays_below_batch_size (arrivals : list arrival) : forall s,
  Forall (fun a => store_healthy (a_faults a)) arrivals ->
  pending_count (pending s) < BATCH_SIZE cfg ->
  pending_count (pending (run cfg w s arrivals)) < BATCH_SIZE cfg.
Proof.
  induction arrivals as [|a arrivals IH]; intros s Hall Hs; cbn [run]; [exact Hs|].
  apply Forall_cons in Hall as [Ha Hall]. apply IH; [exact Hall|].
  apply process_message_pending_bound; assumption.
Qed.

End PendingBound.

Lemma pending_stays_below_batch_size_witness :
  pending_count
    (pending
       (run small_batches sample_world (initial_state empty_db)
          [mk_arrival no_faults
             (Message (sample_metadata 230000001 53 4)
                (StaticPayload (sample_static (Value 9123456)))) 1;
           mk_arrival no_faults
             (Message (sample_metadata 230000001 53 4)
                (PositionPayload sample_position)) 2]))
  < BATCH_SIZE small_batches.
Proof.
  apply pending_stays_below_batch_size.
  - reflexivity.
  - repeat constructor.
  - reflexivity.
Defined.

(** ** Losing the feed connection while the store fails *)

(** X23: the feed connection is lost with records pending, the store
    connection is not closed, and the commit of [process_pending_batches]
    fails.  The store keeps what it held and no write waits for a commit.
    When the rollback succeeds the four lists are emptied all the same, so
    the pending records are gone; when the rollback raises too, as it does
    on a lost session, the lists are kept as they were. *)
Theorem connection_closed_drops_unsaved (ft : faults) (rollback_error : option bool)
    (s : state) (op : bool) :
  0 < pending_count (pending s) -> commit_error ft = Some op ->
  let r := on_connection_closed ft rollback_error false true s in
  fst r = false
  /\ committed (conn (snd r)) = committed (conn s)
  /\ view (conn (snd r)) = committed (conn s)
  /\ pending (snd r) = match rollback_error with
                       | None => empty_batches
                       | Some _ => pending s
                       end.
Proof.
  intros Hpending Hcommit. cbv zeta. unfold on_connection_closed.
  assert (nonempty (ships_batch (pending s)) || nonempty (static_data_batch (pending s))
          || nonempty (position_data_batch (pending s))
          || nonempty (unknown_data_batch (pending s)) = true) as ->.
  { revert Hpending. destruct (pending s) as [[|] [|] [|] [|]]; try reflexivity.
    intros H. vm_compute in H. discriminate. }
  assert (process_pending_batches ft rollback_error (conn s) (pending s)
          = match rollback_error with
            | None => (Ok tt, rollback (conn s))
            | Some op' => (Raise (Psycopg2Error op'), rollback (conn s))
            end) as ->.
  { unfold process_pending_batches, executemany, try_commit. rewrite Hcommit.
    destruct (ships_batch (pending s)), (executemany_error ft Ships);
      try reflexivity;
      destruct (static_data_batch (pending s)), (executemany_error ft ShipStaticDataTemp);
      try reflexivity;
      destruct (position_data_batch (pending s)), (executemany_error ft ShipData);
      try reflexivity;
      destruct (unknown_data_batch (pending s)), (executemany_error ft UnknownShips);
      reflexivity. }
  destruct rollback_error; repeat split.
Qed.

Lemma connection_closed_drops_unsaved_witness :
  pending (snd (on_connection_closed
                  (mk_faults false (fun _ => None) (Some true)) None false true
                  two_positions_pending))
  = empty_batches
  /\ pending (snd (on_connection_closed
                     (mk_faults false (fun _ => None) (Some true)) (Some true) false true
                     two_positions_pending))
     = pending two_positions_pending.
Proof.
  destruct (connection_closed_drops_unsaved
              (mk_faults false (fun _ => None) (Some true)) None two_positions_pending true
              eq_refl eq_refl) as (_ & _ & _ & H1).
  destruct (connection_closed_drops_unsaved
              (mk_faults false (fun _ => None) (Some true)) (Some true)
              two_positions_pending true eq_refl eq_refl) as (_ & _ & _ & H2).
  split; [exact H1|exact H2].
Defined.
